(** * nakurity-backend: session store, rate limiter and schedule file

    A shallow embedding of the request handlers of the backend
    ([api/session-store.js], [api/session.js], the vision endpoint and
    the two versions of [api/ncom/schedule.js]) and of the command-line
    script [bin/setup.js], and the properties their specification states
    about them.

    Conventions of the embedding.
    - A JavaScript [Map] is an insertion-ordered association list with
      unique keys ([JsMap]); iteration order is list order.
    - Every [Date.now()] is one read of a clock oracle: the i-th call made
      by the process returns [clock env i].  The handlers read the clock
      several times per request and the model keeps every read.
    - [crypto.randomBytes(32).toString('hex')], SHA-256 and the external
      vision model are oracles of the environment [Env].
    - Timestamps are integers (epoch milliseconds, [Z]); an ISO-8601
      rendering of a timestamp in a response body is kept as the number.
    - A string is kept as the bytes of its UTF-8 text; where the code
      counts in UTF-16 code units (the spread of a string) the bytes are
      grouped into code units ([Js.chars]).
    - A request body is any JSON value or [undefined]; a field read off it
      may be of any type, and a method call on a value that lacks the method
      throws, as it does in the code.
    - [trace] is a ghost log: each call of [checkRateLimit] and of the
      external model is recorded there, so that the order of calls can be
      stated.  Console output and the CORS headers are left out.
    - A run of the setup script is how it ends (normally, by
      [process.exit], or by a thrown error) together with the list of what
      it printed, spawned and wrote, in order; the arguments, the two
      [existsSync] answers, the status of each spawned command, the random
      key and the failure of a write are read from its environment. *)

From Stdlib Require Import ZArith List String Ascii Bool Lia Arith DecimalString
  Permutation.
Import ListNotations.

Local Open Scope string_scope.
Local Open Scope Z_scope.

(** ** JavaScript values used by the handlers *)

Module Js.

(** Truthiness of a header value that is a string or [undefined]. *)
Definition truthy (o : option string) : bool :=
  match o with
  | Some s => negb (s =? "")%string
  | None => false
  end.

(** [a || b] where both sides are a string or [undefined]. *)
Definition or (a b : option string) : option string :=
  if truthy a then a else b.

(** [a || 'literal']. *)
Definition or_lit (a : option string) (d : string) : string :=
  match a with
  | Some s => if (s =? "")%string then d else s
  | None => d
  end.

(** [s.split('?')[0]]: the part of [s] before the first question mark. *)
Fixpoint before_query (s : string) : string :=
  match s with
  | EmptyString => EmptyString
  | String c r => if (c =? "?")%char then EmptyString else String c (before_query r)
  end.

(** [s.endsWith(suffix)]. *)
Definition endsWith (s suffix : string) : bool :=
  let n := String.length s in
  let m := String.length suffix in
  (m <=? n)%nat && (substring (n - m) m s =? suffix)%string.

(** [s.startsWith(p)]. *)
Definition startsWith (s p : string) : bool := String.prefix p s.

(** JavaScript strings are sequences of UTF-16 code units.  The embedding
    keeps a string as the bytes of its UTF-8 text, a lone surrogate as the
    three bytes of its code point.  [chars s] lists [s[0]], [s[1]], ..., one
    string per code unit: a character of one to three bytes is one unit, a
    character of four bytes is a pair of surrogates.  A byte that begins no
    character stands for itself. *)
Definition surrogate (u : N) : string :=
  String (ascii_of_N (N.lor 224 (N.shiftr u 12)))
    (String (ascii_of_N (N.lor 128 (N.land (N.shiftr u 6) 63)))
       (String (ascii_of_N (N.lor 128 (N.land u 63))) EmptyString)).

Fixpoint chars (s : string) : list string :=
  match s with
  | EmptyString => []
  | String a r =>
      let n := N_of_ascii a in
      if (n <? 192)%N then String a EmptyString :: chars r
      else if (n <? 224)%N then
        match r with
        | String b r' => String a (String b EmptyString) :: chars r'
        | _ => String a EmptyString :: chars r
        end
      else if (n <? 240)%N then
        match r with
        | String b (String c r') =>
            String a (String b (String c EmptyString)) :: chars r'
        | _ => String a EmptyString :: chars r
        end
      else
        match r with
        | String b (String c (String d r')) =>
            let point :=
              (N.land n 7 * 262144 + N.land (N_of_ascii b) 63 * 4096
               + N.land (N_of_ascii c) 63 * 64 + N.land (N_of_ascii d) 63)%N in
            let v := (point - 65536)%N in
            surrogate (55296 + N.shiftr v 10)
              :: surrogate (56320 + N.land v 1023) :: chars r'
        | _ => String a EmptyString :: chars r
        end
  end.

#[local] Set Warnings "-register-all".

(** What a request body parsed from JSON can be, and what its fields can
    hold; [Undefined] is a missing body or a missing field.  Numbers are
    integers. *)
Inductive value : Type :=
| Undefined
| Null
| Bool (b : bool)
| Num (n : Z)
| Str (s : string)
| Arr (items : list value)
| Obj (props : list (string * value)).

(** Truthiness of a value. *)
Definition truthy_value (v : value) : bool :=
  match v with
  | Undefined | Null => false
  | Bool b => b
  | Num n => negb (n =? 0)
  | Str s => negb (s =? "")%string
  | Arr _ | Obj _ => true
  end.

(** [a || b] on values. *)
Definition or_value (a b : value) : value := if truthy_value a then a else b.

(** [v.k] for a key [k] that no prototype defines, on a [v] that is neither
    [undefined] nor [null]: the own property of an object (which, parsed
    from JSON, holds each key once), [undefined] on anything else. *)
Definition own (k : string) (v : value) : value :=
  match v with
  | Obj props =>
      match List.find (fun p => (fst p =? k)%string) props with
      | Some p => snd p
      | None => Undefined
      end
  | _ => Undefined
  end.

End Js.

(** ** [Map]: insertion-ordered, one entry per key *)

Module JsMap.
Section Ops.
Context {V : Type}.

Definition t := list (string * V).

Definition empty : t := [].

Fixpoint get (k : string) (m : t) : option V :=
  match m with
  | [] => None
  | (k', v) :: r => if (k' =? k)%string then Some v else get k r
  end.

(** [m.set(k, v)]: an existing key keeps its place, a new key goes last. *)
Fixpoint set (k : string) (v : V) (m : t) : t :=
  match m with
  | [] => [(k, v)]
  | (k', v') :: r =>
      if (k' =? k)%string then (k, v) :: r else (k', v') :: set k v r
  end.

Fixpoint delete (k : string) (m : t) : t :=
  match m with
  | [] => []
  | (k', v') :: r =>
      if (k' =? k)%string then r else (k', v') :: delete k r
  end.

Definition size (m : t) : nat := List.length m.

Definition keys (m : t) : list string := List.map fst m.

(** The representation invariant of a [Map]. *)
Definition wf (m : t) : Prop := NoDup (keys m).
End Ops.
Arguments t : clear implicits.
End JsMap.

(** ** Data model *)

(** A session as [session.js] stores it. *)
Record Session := mkSession {
  fingerprint : string;
  createdAt : Z;
  expiresAt : Z;
  lastHeartbeat : Z;
  claimed : bool
}.

(** The rate-limit window of one client identifier. *)
Record Limits := mkLimits {
  count : Z;
  resetAt : Z
}.

(** The part of an incoming request the handlers look at. *)
Record Request := mkRequest {
  method : string;
  url : option string;
  x_forwarded_for : option string;   (* req.headers['x-forwarded-for'] *)
  remoteAddress : option string;     (* req.socket.remoteAddress *)
  user_agent : option string;        (* req.headers['user-agent'] *)
  x_session_key : option string;     (* req.headers['x-session-key'] *)
  body : Js.value                    (* req.body *)
}.

(** What the vision handler sends to [groq.chat.completions.create]. *)
Record GroqParams := mkGroqParams {
  gp_model : Js.value;
  gp_text : Js.value;
  gp_image_url : string
}.

Record Completion := mkCompletion {
  c_content : option string;   (* choices[0]?.message?.content *)
  c_model : string;
  c_usage : Z
}.

Record GroqError := mkGroqError {
  e_status : option Z;
  e_message : string
}.

(** Calls worth observing, in the order they are made. *)
Inductive Event :=
| CheckRateLimit (identifier : string)
| GroqCreate (params : GroqParams).

(** The oracles of the process. *)
Record Env := mkEnv {
  clock : nat -> Z;                 (* i-th result of Date.now() *)
  randomHex : nat -> string;        (* i-th crypto.randomBytes(32).toString('hex') *)
  sha256_hex : string -> string;    (* createHash('sha256').update(s).digest('hex') *)
  groq_create : GroqParams -> Completion + GroqError
}.

(** The process-wide mutable state. *)
Record World := mkWorld {
  sessions : JsMap.t Session;       (* session-store.js: sessions *)
  rateLimitMap : JsMap.t Limits;    (* vision endpoint: rateLimitMap *)
  ticks : nat;                      (* Date.now() calls made so far *)
  draws : nat;                      (* randomBytes calls made so far *)
  trace : list Event                (* observed calls, most recent first *)
}.

Definition SESSION_TIMEOUT : Z := 5 * 60 * 1000.
Definition MAX_SESSIONS : nat := 100.
Definition RATE_LIMIT : Z := 10.
Definition RATE_WINDOW : Z := 60 * 1000.

(** ** A state monad over [World] *)

Definition M (A : Type) : Type := World -> A * World.

Definition ret {A} (a : A) : M A := fun w => (a, w).

Definition bind {A B} (m : M A) (k : A -> M B) : M B :=
  fun w => let (a, w') := m w in k a w'.

Declare Scope js_scope.
Delimit Scope js_scope with js.
Notation "x <- m ;; k" := (bind m (fun x => k))
  (at level 61, m at next level, right associativity) : js_scope.
Notation "m ;;; k" := (bind m (fun _ => k))
  (at level 61, right associativity) : js_scope.
Local Open Scope js_scope.

Definition getSessions : M (JsMap.t Session) := fun w => (sessions w, w).

Definition putSessions (s : JsMap.t Session) : M unit :=
  fun w => (tt, mkWorld s (rateLimitMap w) (ticks w) (draws w) (trace w)).

Definition getRateLimitMap : M (JsMap.t Limits) := fun w => (rateLimitMap w, w).

Definition putRateLimitMap (r : JsMap.t Limits) : M unit :=
  fun w => (tt, mkWorld (sessions w) r (ticks w) (draws w) (trace w)).

Definition emit (e : Event) : M unit :=
  fun w => (tt, mkWorld (sessions w) (rateLimitMap w) (ticks w) (draws w) (e :: trace w)).

Section Oracles.
Variable env : Env.

(** [Date.now()] *)
Definition Date_now : M Z :=
  fun w => (clock env (ticks w),
            mkWorld (sessions w) (rateLimitMap w) (S (ticks w)) (draws w) (trace w)).

(** [crypto.randomBytes(32).toString('hex')] *)
Definition randomBytes32_hex : M string :=
  fun w => (randomHex env (draws w),
            mkWorld (sessions w) (rateLimitMap w) (ticks w) (S (draws w)) (trace w)).
End Oracles.

(** ** [api/session-store.js] *)

Module SessionStore.
Section WithEnv.
Variable env : Env.

Definition generateFingerprint (req : Request) : string :=
  let ip := Js.or_lit (Js.or (x_forwarded_for req) (remoteAddress req)) "" in
  let userAgent := Js.or_lit (user_agent req) "" in
  sha256_hex env (ip ++ userAgent).

Inductive Validation :=
| Valid
| Invalid (reason : string).

Definition valid (v : Validation) : bool :=
  match v with Valid => true | Invalid _ => false end.

Definition validateSession (sessionKey : string) (req : Request) : M Validation :=
  ss <- getSessions ;;
  match JsMap.get sessionKey ss with
  | None => ret (Invalid "Session not found or expired")
  | Some session =>
      now <- Date_now env ;;
      if now >? expiresAt session then
        putSessions (JsMap.delete sessionKey ss) ;;;
        ret (Invalid "Session expired")
      else
        let fingerprint' := generateFingerprint req in
        if negb (fingerprint session =? fingerprint')%string then
          ret (Invalid "Session fingerprint mismatch")
        else ret Valid
  end.

(** The [for ... of sessions.entries()] loop of [cleanupExpiredSessions]:
    the iterator is live, deleting the entry just visited leaves the
    entries still to come in place, so each entry is visited once. *)
Fixpoint cleanup_loop (now : Z) (entries : JsMap.t Session) : JsMap.t Session :=
  match entries with
  | [] => []
  | (key, session) :: rest =>
      if now >? expiresAt session
      then cleanup_loop now rest
      else (key, session) :: cleanup_loop now rest
  end.

Definition cleanupExpiredSessions : M unit :=
  now <- Date_now env ;;
  ss <- getSessions ;;
  putSessions (cleanup_loop now ss).
End WithEnv.
End SessionStore.

(** ** HTTP responses *)

Inductive Body :=
| NoBody
| ErrorBody (error : string) (message : option string)
| ClaimBody (sessionKey : string) (expires : Z)
            (heartbeatInterval : option Z) (message : string)
| HeartbeatBody (expires : Z)
| ReleaseBody (message : string)
| VisionOk (analysis : string) (model_used : string) (usage : Z) (timestamp : Z).

Record Response := mkResponse {
  status : Z;
  payload : Body
}.

(** [res.status(code).json(body)] *)
Definition json (code : Z) (b : Body) : Response := mkResponse code b.

(** ** [api/session.js] *)

Module SessionApi.
Section WithEnv.
Variable env : Env.

Definition generateSessionKey : M string := randomBytes32_hex env.

(** The reuse loop of the claim branch.  [Date.now()] is read only for an
    entry whose fingerprint matches (the [&&] short-circuits). *)
Fixpoint findExisting (fp : string) (entries : JsMap.t Session)
  : M (option (string * Session)) :=
  match entries with
  | [] => ret None
  | (existingKey, session) :: rest =>
      if (fingerprint session =? fp)%string then
        now <- Date_now env ;;
        if now <? expiresAt session
        then ret (Some (existingKey, session))
        else findExisting fp rest
      else findExisting fp rest
  end.

Definition claim (req : Request) : M Response :=
  ss <- getSessions ;;
  if (MAX_SESSIONS <=? JsMap.size ss)%nat then
    ret (json 429 (ErrorBody "Session limit reached"
                     (Some "Too many active sessions. Try again later.")))
  else
    let fp := SessionStore.generateFingerprint env req in
    found <- findExisting fp ss ;;
    match found with
    | Some (existingKey, session) =>
        ret (json 200 (ClaimBody existingKey (expiresAt session) None
                         "Existing session reused"))
    | None =>
        sessionKey <- generateSessionKey ;;
        t_exp <- Date_now env ;;
        let expires := t_exp + SESSION_TIMEOUT in
        t_created <- Date_now env ;;
        t_beat <- Date_now env ;;
        putSessions (JsMap.set sessionKey
                       (mkSession fp t_created expires t_beat true) ss) ;;;
        ret (json 200 (ClaimBody sessionKey expires (Some 60000)
                         "Session created successfully"))
    end.

Definition heartbeat (req : Request) : M Response :=
  if negb (Js.truthy (x_session_key req)) then
    ret (json 400 (ErrorBody "Missing X-Session-Key header" None))
  else
    let sessionKey := Js.or_lit (x_session_key req) "" in
    ss <- getSessions ;;
    match JsMap.get sessionKey ss with
    | None => ret (json 404 (ErrorBody "Session not found or expired" None))
    | Some session =>
        let fp := SessionStore.generateFingerprint env req in
        if negb (fingerprint session =? fp)%string then
          ret (json 403 (ErrorBody "Session fingerprint mismatch" None))
        else
          t_beat <- Date_now env ;;
          t_exp <- Date_now env ;;
          let session' :=
            mkSession (fingerprint session) (createdAt session)
                      (t_exp + SESSION_TIMEOUT) t_beat (claimed session) in
          putSessions (JsMap.set sessionKey session' ss) ;;;
          ret (json 200 (HeartbeatBody (expiresAt session')))
    end.

Definition release (req : Request) : M Response :=
  if negb (Js.truthy (x_session_key req)) then
    ret (json 400 (ErrorBody "Missing X-Session-Key header" None))
  else
    let sessionKey := Js.or_lit (x_session_key req) "" in
    ss <- getSessions ;;
    match JsMap.get sessionKey ss with
    | Some session =>
        let fp := SessionStore.generateFingerprint env req in
        if (fingerprint session =? fp)%string then
          putSessions (JsMap.delete sessionKey ss) ;;;
          ret (json 200 (ReleaseBody "Session released"))
        else
          ret (json 403 (ErrorBody "Cannot release session from different machine" None))
    | None => ret (json 404 (ErrorBody "Session not found" None))
    end.

(** The exported handler.  None of the operations of the three branches can
    throw in this model, so their [catch] arms (status 500) are not reached. *)
Definition handler (req : Request) : M Response :=
  if (method req =? "OPTIONS")%string then ret (mkResponse 200 NoBody)
  else
    let path := Js.before_query (Js.or_lit (url req) "") in
    SessionStore.cleanupExpiredSessions env ;;;
    if Js.endsWith path "/claim" && (method req =? "GET")%string then claim req
    else if Js.endsWith path "/heartbeat" && (method req =? "POST")%string then heartbeat req
    else if Js.endsWith path "/release" && (method req =? "POST")%string then release req
    else ret (json 404 (ErrorBody "Not found" None)).

End WithEnv.
End SessionApi.

(** ** The vision endpoint *)

Module Vision.
Section WithEnv.
Variable env : Env.

Definition validateSessionKey (req : Request) : M SessionStore.Validation :=
  if negb (Js.truthy (x_session_key req)) then
    ret (SessionStore.Invalid "Missing session key")
  else
    SessionStore.validateSession env (Js.or_lit (x_session_key req) "") req.

(** [checkRateLimit].  [userLimits] is either the object stored in the map
    or a fresh one.  The window reset assigns to the object itself, so when
    it is the stored one the map sees the reset at once ([aliased]), before
    and independently of the later [rateLimitMap.set]. *)
Definition checkRateLimit (identifier : string) : M bool :=
  emit (CheckRateLimit identifier) ;;;
  now <- Date_now env ;;
  rl <- getRateLimitMap ;;
  let stored := JsMap.get identifier rl in
  let userLimits :=
    match stored with
    | Some l => l
    | None => mkLimits 0 (now + RATE_WINDOW)
    end in
  let userLimits1 :=
    if now >? resetAt userLimits
    then mkLimits 0 (now + RATE_WINDOW)
    else userLimits in
  let aliased :=
    match stored with
    | Some _ => JsMap.set identifier userLimits1 rl
    | None => rl
    end in
  putRateLimitMap aliased ;;;
  if count userLimits1 >=? RATE_LIMIT then ret false
  else
    let userLimits2 := mkLimits (count userLimits1 + 1) (resetAt userLimits1) in
    putRateLimitMap (JsMap.set identifier userLimits2 aliased) ;;;
    ret true.

Definition DEFAULT_PROMPT : string :=
"Analyze this screenshot and describe:
1. What application or website is shown
2. All visible UI elements (buttons, text, links, inputs) with their approximate positions
3. Main content and purpose
4. Any interactive elements the user could click on
Be specific about locations (top-left, center, bottom-right, etc.)".

Definition handler (req : Request) : M Response :=
  if (method req =? "OPTIONS")%string then ret (mkResponse 200 NoBody)
  else if negb (method req =? "POST")%string then
    ret (json 405 (ErrorBody "Method not allowed" None))
  else
    sessionValidation <- validateSessionKey req ;;
    match sessionValidation with
    | SessionStore.Invalid reason =>
        ret (json 401 (ErrorBody "Unauthorized"
                         (Some (Js.or_lit (Some reason) "Invalid session key"))))
    | SessionStore.Valid =>
        let clientId :=
          Js.or_lit (Js.or (x_forwarded_for req) (remoteAddress req)) "unknown" in
        allowed <- checkRateLimit clientId ;;
        if negb allowed then
          ret (json 429 (ErrorBody "Rate limit exceeded - max 10 requests per minute" None))
        else
          (* the try block; what it throws is answered by its catch *)
          match body req with
          | Js.Undefined =>
              ret (json 500 (ErrorBody "Vision analysis failed"
                               (Some "Cannot destructure property 'image' of 'req.body' as it is undefined.")))
          | Js.Null =>
              ret (json 500 (ErrorBody "Vision analysis failed"
                               (Some "Cannot destructure property 'image' of 'req.body' as it is null.")))
          | b =>
              let image := Js.own "image" b in
              let prompt := Js.own "prompt" b in
              let model := Js.own "model" b in
              if negb (Js.truthy_value image) then
                ret (json 400 (ErrorBody "Missing required field: image (base64 or URL)" None))
              else
                let analysisPrompt := Js.or_value prompt (Js.Str DEFAULT_PROMPT) in
                match image with
                | Js.Str img =>
                    let params :=
                      mkGroqParams
                        (Js.or_value model (Js.Str "llama-3.2-90b-vision-preview"))
                        analysisPrompt
                        (if Js.startsWith img "data:" then img
                         else "data:image/png;base64," ++ img) in
                    emit (GroqCreate params) ;;;
                    match groq_create env params with
                    | inl completion =>
                        let analysis :=
                          Js.or_lit (c_content completion) "No analysis generated" in
                        timestamp <- Date_now env ;;
                        ret (json 200 (VisionOk analysis (c_model completion)
                                                (c_usage completion) timestamp))
                    | inr error =>
                        if match e_status error with
                           | Some s => s =? 401
                           | None => false
                           end
                        then ret (json 500 (ErrorBody "Invalid Groq API key" None))
                        else ret (json 500 (ErrorBody "Vision analysis failed"
                                              (Some (e_message error))))
                    end
                | _ =>
                    (* a truthy image that is no string has no [startsWith]:
                       the call throws while the argument of [create] is
                       built, before the model is called *)
                    ret (json 500 (ErrorBody "Vision analysis failed"
                                     (Some "image.startsWith is not a function")))
                end
          end
    end.

End WithEnv.
End Vision.

(** ** [api/ncom/schedule.js]

    The schedule file holds JSON text.  The model keeps what [JSON.parse]
    makes of that text: [Text j] parses to [j], [Unparsable] makes
    [JSON.parse] throw; [JSON.stringify] followed by [JSON.parse] is the
    identity on the values written here.  Numbers are integers.
    [Math.floor(Math.random() * n)] is an oracle draw reduced modulo [n]. *)

Module Schedule.

#[local] Set Warnings "-register-all".

Inductive json :=
| JNull
| JBool (b : bool)
| JNum (n : Z)
| JStr (s : string)
| JArr (items : list json)
| JObj (fields : list (string * json)).

Inductive FileText :=
| Unparsable
| Text (j : json).

Record Disk := mkDisk {
  dir : bool;                 (* data/ncom exists *)
  file : option FileText;     (* data/ncom/videoSchedule.json *)
  readable : bool;            (* readFileSync succeeds *)
  writable : bool             (* writeFileSync and mkdirSync succeed *)
}.

Record Env := mkEnv {
  clock : nat -> Z;           (* i-th result of Date.now() *)
  dice : nat -> nat           (* i-th draw behind Math.random() *)
}.

Record World := mkWorld {
  disk : Disk;
  ticks : nat;
  rolls : nat
}.

Record Request := mkRequest {
  method : string;
  body : json                 (* req.body, JNull when absent *)
}.

Inductive Reply :=
| Json (j : json)                       (* res.json(j) *)
| End (allow : list string) (text : string).   (* setHeader('Allow', ..); res.end(text) *)

Record Response := mkResponse {
  status : Z;
  reply : Reply
}.

(** State and exceptions. *)
Inductive Outcome (A : Type) :=
| Returned (a : A)
| Thrown (what : string).
Arguments Returned {A} a.
Arguments Thrown {A} what.

Definition IO (A : Type) : Type := World -> Outcome A * World.

Definition ret {A} (a : A) : IO A := fun w => (Returned a, w).

Definition throw {A} (what : string) : IO A := fun w => (Thrown what, w).

Definition bind {A B} (m : IO A) (k : A -> IO B) : IO B :=
  fun w =>
    match m w with
    | (Returned a, w') => k a w'
    | (Thrown e, w') => (Thrown e, w')
    end.

(** [try { m } catch (err) { h err }] *)
Definition try_catch {A} (m : IO A) (h : string -> IO A) : IO A :=
  fun w =>
    match m w with
    | (Returned a, w') => (Returned a, w')
    | (Thrown e, w') => h e w'
    end.

Declare Scope io_scope.
Delimit Scope io_scope with io.
Notation "x <- m ;; k" := (bind m (fun x => k))
  (at level 61, m at next level, right associativity) : io_scope.
Notation "m ;;; k" := (bind m (fun _ => k))
  (at level 61, right associativity) : io_scope.
Local Open Scope io_scope.

Definition isArray (j : json) : bool :=
  match j with JArr _ => true | _ => false end.

Definition js_truthy (j : json) : bool :=
  match j with
  | JNull => false
  | JBool b => b
  | JNum n => negb (n =? 0)
  | JStr s => negb (s =? "")%string
  | JArr _ | JObj _ => true
  end.

Fixpoint lookup (k : string) (fields : list (string * json)) : option json :=
  match fields with
  | [] => None
  | (k', v) :: r => if (k' =? k)%string then Some v else lookup k r
  end.

(** [j.k], [None] for [undefined]. *)
Definition prop (j : json) (k : string) : option json :=
  match j with
  | JObj fields => lookup k fields
  | _ => None
  end.

(** [obj.k = v] on an object: an own key keeps its place, a new one goes last. *)
Fixpoint assign (k : string) (v : json) (fields : list (string * json))
  : list (string * json) :=
  match fields with
  | [] => [(k, v)]
  | (k', v') :: r =>
      if (k' =? k)%string then (k, v) :: r else (k', v') :: assign k v r
  end.

Section WithEnv.
Variable env : Env.

Definition Date_now : IO Z :=
  fun w => (Returned (clock env (ticks w)), mkWorld (disk w) (S (ticks w)) (rolls w)).

(** [Math.floor(Math.random() * n)] *)
Definition random_below (n : nat) : IO nat :=
  fun w => (Returned (dice env (rolls w) mod n)%nat,
            mkWorld (disk w) (ticks w) (S (rolls w))).

(** [fs.existsSync(scheduleFile)] *)
Definition existsSync_file : IO bool :=
  fun w => (Returned (match file (disk w) with Some _ => true | None => false end), w).

(** [fs.existsSync(dataDir)] *)
Definition existsSync_dir : IO bool :=
  fun w => (Returned (dir (disk w)), w).

(** [JSON.parse(fs.readFileSync(scheduleFile, 'utf-8'))] *)
Definition readFileSync : IO FileText :=
  fun w =>
    match file (disk w) with
    | Some t => if readable (disk w) then (Returned t, w)
                else (Thrown "EACCES: permission denied, open", w)
    | None => (Thrown "ENOENT: no such file or directory, open", w)
    end.

Definition JSON_parse (t : FileText) : IO json :=
  match t with
  | Text j => ret j
  | Unparsable => throw "SyntaxError: Unexpected token in JSON"
  end.

(** [fs.writeFileSync(scheduleFile, JSON.stringify(j, null, 2))] *)
Definition writeFileSync (j : json) : IO unit :=
  fun w =>
    let d := disk w in
    if negb (dir d) then (Thrown "ENOENT: no such file or directory, open", w)
    else if negb (writable d) then (Thrown "EACCES: permission denied, open", w)
    else (Returned tt,
          mkWorld (mkDisk true (Some (Text j)) (readable d) (writable d))
                  (ticks w) (rolls w)).

(** [fs.mkdirSync(dir, { recursive: true })] *)
Definition mkdirSync : IO unit :=
  fun w =>
    let d := disk w in
    if negb (writable d) then (Thrown "EACCES: permission denied, mkdir", w)
    else (Returned tt,
          mkWorld (mkDisk true (file d) (readable d) (writable d))
                  (ticks w) (rolls w)).

Definition intervals : list Z := [3600000; 5 * 3600000; 24 * 3600000].

Definition pickRandomInterval : IO Z :=
  i <- random_below (List.length intervals) ;;
  ret (nth i intervals 0).

(** [[arr[i], arr[j]] = [arr[j], arr[i]]] *)
Definition swap (i j : nat) (arr : list json) : list json :=
  match nth_error arr i, nth_error arr j with
  | Some x, Some y =>
      let arr1 := (firstn i arr ++ y :: skipn (S i) arr)%list in
      (firstn j arr1 ++ x :: skipn (S j) arr1)%list
  | _, _ => arr
  end.

(** The loop of [shuffle], [i] counting down to 1. *)
Fixpoint shuffle_from (i : nat) (arr : list json) : IO (list json) :=
  match i with
  | O => ret arr
  | S i' =>
      j <- random_below (S i) ;;
      shuffle_from i' (swap i j arr)
  end.

Definition shuffle (arr : list json) : IO (list json) :=
  shuffle_from (List.length arr - 1) arr.

Definition ensureDir : IO unit :=
  e <- existsSync_dir ;;
  if negb e then mkdirSync else ret tt.

(** [loadSchedule] of the current version; [None] is [null]. *)
Definition loadSchedule : IO (option json) :=
  e <- existsSync_file ;;
  if negb e then ret None
  else
    try_catch
      (raw <- readFileSync ;;
       parsed <- JSON_parse raw ;;
       if isArray parsed then
         now <- Date_now ;;
         gap <- pickRandomInterval ;;
         let wrapped := JObj [("schedule", parsed); ("nextRefresh", JNum (now + gap))] in
         writeFileSync wrapped ;;;
         ret (Some wrapped)
       else if js_truthy parsed
               && match prop parsed "schedule" with
                  | Some s => isArray s
                  | None => false
                  end
       then
         match parsed with
         | JObj fields =>
             if match lookup "nextRefresh" fields with
                | Some (JNum n) => n =? 0      (* !parsed.nextRefresh *)
                | _ => true                    (* falsy, or not a number *)
                end
             then
               now <- Date_now ;;
               gap <- pickRandomInterval ;;
               let parsed' := JObj (assign "nextRefresh" (JNum (now + gap)) fields) in
               writeFileSync parsed' ;;;
               ret (Some parsed')
             else ret (Some parsed)
         | _ => ret (Some parsed)   (* not reached: only an object has [schedule] *)
         end
       else ret None)
      (fun _ => ret None).

Definition saveSchedule (schedule : json) (nextRefresh : Z) : IO unit :=
  ensureDir ;;;
  writeFileSync (JObj [("schedule", schedule); ("nextRefresh", JNum nextRefresh)]).

(** [{ ...v }]: the own enumerable properties of [v].  An array gives its
    elements under their indices, a string its code units under theirs, an
    object its fields; [null], a boolean and a number give none. *)
Definition spread (v : json) : json :=
  match v with
  | JObj fields => JObj fields
  | JArr items =>
      JObj (List.map (fun p => (NilEmpty.string_of_uint (Nat.to_uint (fst p)), snd p))
                     (List.combine (seq 0 (List.length items)) items))
  | JStr s =>
      JObj (List.map (fun p => (NilEmpty.string_of_uint (Nat.to_uint (fst p)),
                                JStr (snd p)))
                     (List.combine (seq 0 (List.length (Js.chars s))) (Js.chars s)))
  | _ => JObj []
  end.

Definition errorBody (msg : string) : Reply := Json (JObj [("error", JStr msg)]).

Definition NO_SCHEDULE : string :=
  "No valid schedule found on disk. Please seed data/ncom/videoSchedule.json with an array of items or the object { schedule, nextRefresh }.".

(** The exported handler of the current version. *)
Definition handler (req : Request) : IO Response :=
  ensureDir ;;;
  loaded <- loadSchedule ;;
  now <- Date_now ;;
  match loaded with
  | None => ret (mkResponse 500 (errorBody NO_SCHEDULE))
  | Some data0 =>
      data <-
        (if match prop data0 "nextRefresh" with
            | Some (JNum n) => now >=? n
            | _ => false
            end
         then
           let currentSchedule :=
             match prop data0 "schedule" with
             | Some (JArr items) => items
             | _ => []
             end in
           newSchedule <- shuffle (List.map spread currentSchedule) ;;
           gap <- pickRandomInterval ;;
           let nextRefresh := now + gap in
           saveSchedule (JArr newSchedule) nextRefresh ;;;
           ret (JObj [("schedule", JArr newSchedule); ("nextRefresh", JNum nextRefresh)])
         else ret data0) ;;
      if (method req =? "GET")%string then ret (mkResponse 200 (Json data))
      else if (method req =? "POST")%string then
        let newSchedule := body req in
        if negb (isArray newSchedule) then
          ret (mkResponse 400 (errorBody "Schedule must be an array"))
        else
          gap <- pickRandomInterval ;;
          saveSchedule newSchedule (now + gap) ;;;
          ret (mkResponse 200
                 (Json (JObj [("success", JBool true); ("schedule", newSchedule)])))
      else
        ret (mkResponse 405
               (End ["GET"; "POST"] ("Method " ++ method req ++ " Not Allowed")))
  end.

End WithEnv.

(** The earlier version of the same file. *)
Module Legacy.

Definition DEFAULT_SCHEDULE : json :=
  JArr [ JObj [("videoIndex", JNum 0); ("delay", JNum 45000)];
         JObj [("videoIndex", JNum 1); ("delay", JNum 120000)] ].

Definition loadSchedule : IO json :=
  loaded <-
    try_catch
      (e <- existsSync_file ;;
       if e then
         raw <- readFileSync ;;
         parsed <- JSON_parse raw ;;
         ret (Some parsed)
       else ret None)
      (fun _ => ret None) ;;
  match loaded with
  | Some parsed => ret parsed
  | None => ret DEFAULT_SCHEDULE
  end.

Definition handler (req : Request) : IO Response :=
  if (method req =? "GET")%string then
    schedule <- loadSchedule ;;
    ret (mkResponse 200 (Json schedule))
  else if (method req =? "POST")%string then
    let newSchedule := body req in
    if negb (isArray newSchedule) then
      ret (mkResponse 400 (errorBody "Schedule must be an array"))
    else
      try_catch
        (writeFileSync newSchedule ;;;
         ret (mkResponse 200
                (Json (JObj [("success", JBool true); ("schedule", newSchedule)]))))
        (fun _ => ret (mkResponse 500 (errorBody "Failed to write schedule")))
  else
    ret (mkResponse 405
           (End ["GET"; "POST"] ("Method " ++ method req ++ " Not Allowed"))).

End Legacy.

End Schedule.

(** * The setup script

    [bin/setup.js] is a command-line script: it reads its arguments, looks
    for two files, writes three, spawns up to four shell commands and prints
    its progress.  A run is modelled by how it ends and by the list of what
    it did to the outside, in the order it did it. *)

Module Setup.

Inductive Color : Type := reset | green | blue | red | yellow.

Definition ESC : string := String (ascii_of_nat 27) EmptyString.

Definition dq : string := String (ascii_of_nat 34) EmptyString.

Definition colors (c : Color) : string :=
  match c with
  | reset => ESC ++ "[0m"
  | green => ESC ++ "[32m"
  | blue => ESC ++ "[34m"
  | red => ESC ++ "[31m"
  | yellow => ESC ++ "[33m"
  end.

(** What a run does to the outside.  Files are named relative to [rootDir];
    every command is spawned through a shell with [rootDir] as its working
    directory and the script's own standard streams. *)
Inductive Action : Type :=
| ConsoleLog (line : string)
| SpawnSync (cmd : string)
| WriteFileSync (file content : string).

(** What a run reads from the outside. *)
Record Env : Type := mkEnv {
  argv : list string;                      (* process.argv.slice(2) *)
  existsSync : string -> bool;             (* fs.existsSync of a file of rootDir *)
  spawnStatus : string -> option Z;        (* the status spawnSync reports; null is None *)
  randomKey : string;                      (* crypto.randomBytes(32).toString('hex') *)
  writeError : string -> option string     (* the message of the error writeFileSync throws *)
}.

(** A computation ends normally, by [process.exit], or by throwing. *)
Inductive Ending (A : Type) : Type :=
| Normal (a : A)
| Exited (code : Z)
| Rejected (message : string).

Arguments Normal {A} a.
Arguments Exited {A} code.
Arguments Rejected {A} message.

Definition Proc (A : Type) : Type := (Ending A * list Action)%type.

Definition ret {A : Type} (a : A) : Proc A := (Normal a, []).

Definition bind {A B : Type} (m : Proc A) (k : A -> Proc B) : Proc B :=
  match fst m with
  | Normal a => (fst (k a), (snd m ++ snd (k a))%list)
  | Exited c => (Exited c, snd m)
  | Rejected e => (Rejected e, snd m)
  end.

(** [m.catch(h)] *)
Definition catch {A : Type} (m : Proc A) (h : string -> Proc A) : Proc A :=
  match fst m with
  | Rejected e => (fst (h e), (snd m ++ snd (h e))%list)
  | _ => m
  end.

Declare Scope proc_scope.
Delimit Scope proc_scope with proc.
Notation "x <- m ;; k" := (bind m (fun x => k))
  (at level 61, m at next level, right associativity) : proc_scope.
Notation "m ;;; k" := (bind m (fun _ => k))
  (at level 61, right associativity) : proc_scope.
Local Open Scope proc_scope.

Definition console_log (line : string) : Proc unit := (Normal tt, [ConsoleLog line]).

Definition process_exit {A : Type} (code : Z) : Proc A := (Exited code, []).

Definition when (b : bool) (m : Proc unit) : Proc unit := if b then m else ret tt.

(** [args.includes(x)] *)
Definition includes (x : string) (args : list string) : bool :=
  existsb (String.eqb x) args.

(** [status !== 0] and [status || 1] on what [spawnSync] reports *)
Definition status_is_0 (status : option Z) : bool :=
  match status with Some 0 => true | _ => false end.

Definition status_or_1 (status : option Z) : Z :=
  match status with Some 0 | None => 1 | Some s => s end.

Definition HELP : string :=
"
Nakurity Backend Setup

Usage:
  nakurity-setup [options]

Options:
  --init      Initialize git repo and install dependencies
  --deploy    Deploy to Vercel
  --build     Build standalone binary with pkg
  --help, -h  Show this help message

Examples:
  nakurity-setup --init          # First-time setup
  nakurity-setup --deploy        # Deploy to production
  nakurity-setup --build         # Build executable
    ".

Definition envExample (key : string) : string :=
"# Groq API Key (get from https://console.groq.com)
GROQ_API_KEY=your_groq_api_key_here

# Neuro-OS API Key (generate secure random key)
NEURO_OS_API_KEY="
  ++ key ++
"
".

Definition gitignore : string :=
"node_modules/
.env
.vercel
dist/
*.log
".

Definition readme : string :=
"# Nakurity Backend

Groq-powered vision API for Neuro-OS

## Setup

1. Copy `.env.example` to `.env`
2. Add your Groq API key from https://console.groq.com
3. Deploy: `npm run deploy`

## API Endpoint

`POST https://backend.nakurity.com/neuro-os/vision`

Headers:
- `X-API-Key`: Your Neuro-OS API key
- `Content-Type`: application/json

Body:
```json
{
  " ++ dq ++ "image" ++ dq ++ ": " ++ dq ++ "base64_encoded_image" ++ dq ++ ",
  " ++ dq ++ "prompt" ++ dq ++ ": " ++ dq ++ "Optional custom prompt" ++ dq ++ "
}
```

## Local Development

```bash
npm run dev
```

## Deployment

```bash
npm run deploy
```
".

Record Flags : Type := mkFlags {
  init : bool;
  deploy : bool;
  build : bool;
  help : bool
}.

Section WithEnv.
Variable env : Env.

Definition log (msg : string) (color : Color) : Proc unit :=
  console_log (colors color ++ msg ++ colors reset).

Definition spawnSync (cmd : string) : Proc (option Z) :=
  (Normal (spawnStatus env cmd), [SpawnSync cmd]).

Definition writeFileSync (file content : string) : Proc unit :=
  match writeError env file with
  | Some message => (Rejected message, [])
  | None => (Normal tt, [WriteFileSync file content])
  end.

Definition run (cmd : string) (ignoreError : bool) : Proc (option Z) :=
  status <- spawnSync cmd ;;
  when (negb (status_is_0 status) && negb ignoreError)
    (process_exit (status_or_1 status)) ;;;
  ret status.

Definition generateApiKey : string := randomKey env.

Definition flags : Flags :=
  let args := argv env in
  {| init := includes "--init" args;
     deploy := includes "--deploy" args;
     build := includes "--build" args;
     help := includes "--help" args || includes "-h" args |}.

Definition main : Proc unit :=
  if help flags then console_log HELP
  else
    log "=== Nakurity Backend Setup ===" blue ;;;
    when (init flags)
      (log "
→ Initializing repository..." green ;;;
       when (negb (existsSync env ".git"))
         (run "git init" false ;;;
          log "  ✓ Git initialized" green) ;;;
       writeFileSync ".env.example" (envExample generateApiKey) ;;;
       log "  ✓ Created .env.example" green ;;;
       writeFileSync ".gitignore" gitignore ;;;
       log "  ✓ Created .gitignore" green ;;;
       log "
→ Installing dependencies..." green ;;;
       run "npm install" false ;;;
       log "  ✓ Dependencies installed" green ;;;
       writeFileSync "README.md" readme ;;;
       log "  ✓ Created README.md" green ;;;
       log "
✓ Setup complete!" green ;;;
       log "
Next steps:" yellow ;;;
       log "  1. Copy .env.example to .env" yellow ;;;
       log "  2. Add your Groq API key to .env" yellow ;;;
       log "  3. Run: npm run deploy" yellow) ;;;
    when (deploy flags)
      (log "
→ Deploying to Vercel..." green ;;;
       when (negb (existsSync env ".env"))
         (log "⚠ Warning: .env file not found" yellow ;;;
          log "  Make sure to set secrets in Vercel dashboard:" yellow ;;;
          log "  - GROQ_API_KEY" yellow ;;;
          log "  - NEURO_OS_API_KEY" yellow) ;;;
       run "vercel --prod" false ;;;
       log "
✓ Deployed successfully!" green) ;;;
    when (build flags)
      (log "
→ Building standalone binary..." green ;;;
       run "npx pkg . --out-path dist" false ;;;
       log "
✓ Binary built in dist/" green ;;;
       log "  Run: ./dist/setup-win.exe (or setup-linux/setup-macos)" green) ;;;
    when (negb (init flags) && negb (deploy flags) && negb (build flags))
      (log "
No action specified. Use --help for usage." yellow).

(** The script itself: [main().catch(...)] *)
Definition script : Proc unit :=
  catch main (fun message =>
    log ("
✗ Error: " ++ message) red ;;;
    process_exit 1).

End WithEnv.

(** What a trace spawned and what it wrote *)
Definition spawned (t : list Action) : list string :=
  flat_map (fun a => match a with SpawnSync cmd => [cmd] | _ => [] end) t.

Definition written (t : list Action) : list (string * string) :=
  flat_map (fun a => match a with WriteFileSync f c => [(f, c)] | _ => [] end) t.

End Setup.

(** ** Vocabulary of the properties *)

(** The value the next [Date.now()] returns. *)
Definition now (env : Env) (w : World) : Z := clock env (ticks w).

(** Time does not run backwards. *)
Definition monotone (c : nat -> Z) : Prop :=
  forall i j : nat, (i <= j)%nat -> c i <= c j.

(** A session the sweep of [cleanupExpiredSessions] keeps at time [t]:
    it is deleted only once [t > expiresAt]. *)
Definition live (t : Z) (s : Session) : bool := negb (t >? expiresAt s).

(** The two inputs of the fingerprint hash. *)
Definition fingerprint_ip (req : Request) : string :=
  Js.or_lit (Js.or (x_forwarded_for req) (remoteAddress req)) "".

Definition fingerprint_userAgent (req : Request) : string :=
  Js.or_lit (user_agent req) "".

(** Routing tests of [api/session.js]. *)
Definition path (req : Request) : string :=
  Js.before_query (Js.or_lit (url req) "").

Definition isClaim (req : Request) : bool :=
  Js.endsWith (path req) "/claim" && (method req =? "GET")%string.

Definition isHeartbeat (req : Request) : bool :=
  Js.endsWith (path req) "/heartbeat" && (method req =? "POST")%string.

Definition isRelease (req : Request) : bool :=
  negb (Js.endsWith (path req) "/heartbeat")
  && Js.endsWith (path req) "/release" && (method req =? "POST")%string.

(** The process right after start. *)
Definition initial : World := mkWorld [] [] 0 0 [].

(** States the process can be in: any number of requests to the two
    endpoints that share the session store, in any order. *)
Inductive reachable (env : Env) : World -> Prop :=
| reach_initial : reachable env initial
| reach_session (req : Request) (w : World) :
    reachable env w -> reachable env (snd (SessionApi.handler env req w))
| reach_vision (req : Request) (w : World) :
    reachable env w -> reachable env (snd (Vision.handler env req w)).

(** Requests to the session endpoint, one after the other. *)
Fixpoint serve (env : Env) (reqs : list Request) (w : World) : list Response * World :=
  match reqs with
  | [] => ([], w)
  | req :: rest =>
      let (r, w1) := SessionApi.handler env req w in
      let (rs, w2) := serve env rest w1 in
      (r :: rs, w2)
  end.

(** [n] calls of [checkRateLimit] for one identifier, one after the other. *)
Fixpoint checks (env : Env) (identifier : string) (n : nat) (w : World)
  : list bool * World :=
  match n with
  | O => ([], w)
  | S n' =>
      let (b, w1) := Vision.checkRateLimit env identifier w in
      let (bs, w2) := checks env identifier n' w1 in
      (b :: bs, w2)
  end.

(** The session table as the sweep at the start of a request leaves it. *)
Definition sweptSessions (env : Env) (w : World) : JsMap.t Session :=
  SessionStore.cleanup_loop (now env w) (sessions w).

(** The world after that sweep: one clock reading made, the table swept. *)
Definition afterSweep (env : Env) (w : World) : World :=
  mkWorld (sweptSessions env w) (rateLimitMap w) (S (ticks w)) (draws w) (trace w).

(** The entry [(k, s)] is the one a claim with fingerprint [fp] arrives at:
    every entry before it with that fingerprint expired by time [t]. *)
Definition anchored (fp k : string) (s : Session) (t : Z) (ss : JsMap.t Session) : Prop :=
  exists pre post,
    ss = (pre ++ (k, s) :: post)%list
    /\ fingerprint s = fp
    /\ forall k' s', In (k', s') pre -> fingerprint s' = fp -> expiresAt s' <= t.

(** A computation leaves the component [f] of the world as it found it. *)
Definition frames {A X : Type} (f : World -> X) (m : M A) : Prop :=
  forall w, f (snd (m w)) = f w.

(** A computation keeps [P] true of the world. *)
Definition preserves {A : Type} (P : World -> Prop) (m : M A) : Prop :=
  forall w, P w -> P (snd (m w)).

(** No counter of the rate-limit table is above the limit. *)
Definition counts_bounded (rl : JsMap.t Limits) : Prop :=
  forall id l, In (id, l) rl -> 0 <= count l <= RATE_LIMIT.

(** The client identifier the vision endpoint rate-limits on. *)
Definition clientId (req : Request) : string :=
  Js.or_lit (Js.or (x_forwarded_for req) (remoteAddress req)) "unknown".

(** A request to one of the two endpoints that share the session store. *)
Inductive Call : Type :=
| ToSession (req : Request)
| ToVision (req : Request).

Definition call (env : Env) (c : Call) : M Response :=
  match c with
  | ToSession req => SessionApi.handler env req
  | ToVision req => Vision.handler env req
  end.

(** Calls made one after the other. *)
Fixpoint calls (env : Env) (cs : list Call) (w : World) : list Response * World :=
  match cs with
  | [] => ([], w)
  | c :: rest =>
      let (r, w1) := call env c w in
      let (rs, w2) := calls env rest w1 in
      (r :: rs, w2)
  end.

(** The request carries the session key [k]; it carries another one. *)
Definition carries (k : string) (req : Request) : bool :=
  match x_session_key req with
  | Some key => (key =? k)%string
  | None => false
  end.

Definition carries_other (k : string) (req : Request) : bool :=
  match x_session_key req with
  | Some key => negb (key =? k)%string
  | None => false
  end.

(** The calls that leave alone the hold of the fingerprint [fp] on its key
    [k]: all but two kinds of request to the session endpoint sent with that
    very fingerprint, a release of [k] and a heartbeat on another key. *)
Definition spares (env : Env) (fp k : string) (c : Call) : bool :=
  match c with
  | ToVision _ => true
  | ToSession req =>
      negb (SessionStore.generateFingerprint env req =? fp)%string
      || negb (isRelease req && carries k req)
         && negb (isHeartbeat req && carries_other k req)
  end.

(** The fingerprint [fp] holds the key [k] until [e] at least: the entry of
    [k] is the one a claim with that fingerprint arrives at, and it expires
    no earlier than [e]. *)
Definition holds (env : Env) (fp k : string) (e : Z) (w : World) : Prop :=
  exists s t,
    anchored fp k s t (sessions w) /\ t <= now env w /\ e <= expiresAt s.

(** ** Concrete processes *)

Module Scenario.

Definition decimal (i : nat) : string := NilEmpty.string_of_uint (Nat.to_uint i).

Definition no_model : GroqParams -> Completion + GroqError :=
  fun _ => inr (mkGroqError (Some 503) "service unavailable").

(** An environment whose hash is the identity and whose keys are numbered;
    the clock is left open. *)
Definition env_at (c : nat -> Z) : Env :=
  mkEnv c (fun i => "key-" ++ decimal i) (fun s => s) no_model.

(** The clock stands still. *)
Definition frozen : Env := env_at (fun _ => 0).

(** The clock stays at 0 for the first [n] readings and shows [t] afterwards. *)
Definition jump (n : nat) (t : Z) : Env :=
  env_at (fun i => if (i <? n)%nat then 0 else t).

Definition claimFrom (ip ua : string) : Request :=
  mkRequest "GET" (Some "/api/session/claim") (Some ip) None (Some ua) None Js.Undefined.

Definition heartbeatFrom (ip ua key : string) : Request :=
  mkRequest "POST" (Some "/api/session/heartbeat") (Some ip) None (Some ua)
            (Some key) Js.Undefined.

Definition releaseFrom (ip ua key : string) : Request :=
  mkRequest "POST" (Some "/api/session/release") (Some ip) None (Some ua)
            (Some key) Js.Undefined.

(** A screenshot sent to the vision endpoint. *)
Definition visionFrom (ip ua key : string) : Request :=
  mkRequest "POST" (Some "/api/neuro-os/vision") (Some ip) None (Some ua)
            (Some key) (Js.Obj [("image", Js.Str "aGk=")]).

(** The clock advances by one millisecond at every reading; the first key
    drawn is "key-0" and no later key repeats it. *)
Definition ticking : Env :=
  mkEnv (fun i => Z.of_nat i)
        (fun i => match i with O => "key-0" | S _ => "later-" ++ decimal i end)
        (fun s => s) no_model.

(** Client number [i]. *)
Definition client (i : nat) : Request := claimFrom ("10.0.0." ++ decimal i) "agent".

(** One claim from each of a hundred different clients. *)
Definition hundred : list Request := List.map client (seq 0 100).

End Scenario.

(** ** Vocabulary of the further properties *)

(** What every stored session satisfies at time [t] when the clock does not
    run backwards: it was created no later than its last heartbeat, which is
    not in the future, and it expires at most one timeout from now. *)
Definition session_timely (t : Z) (s : Session) : Prop :=
  claimed s = true
  /\ createdAt s <= lastHeartbeat s
  /\ lastHeartbeat s <= t
  /\ expiresAt s <= t + SESSION_TIMEOUT.

(** Every stored session is timely at the next clock reading. *)
Definition all_timely (env : Env) (w : World) : Prop :=
  forall k s, In (k, s) (sessions w) -> session_timely (now env w) s.

(** ** Vocabulary of the setup script's properties *)

(** A computation stops at the first command that does not report status 0:
    such a command is the last thing in its trace, and the computation ends
    by exiting with that status, or with 1 when there is none. *)
Definition stops_at_failure (env : Setup.Env) {A : Type} (m : Setup.Proc A) : Prop :=
  forall pre cmd post,
    snd m = (pre ++ Setup.SpawnSync cmd :: post)%list ->
    Setup.spawnStatus env cmd <> Some 0 ->
    post = []
    /\ fst m = Setup.Exited (Setup.status_or_1 (Setup.spawnStatus env cmd)).

Definition exits_nonzero {A : Type} (m : Setup.Proc A) : Prop :=
  forall c, fst m = Setup.Exited c -> c <> 0.

Definition writes_nothing {A : Type} (m : Setup.Proc A) : Prop :=
  Setup.written (snd m) = [].

Definition wantsHelp (env : Setup.Env) : Prop :=
  In "--help" (Setup.argv env) \/ In "-h" (Setup.argv env).

(** * Properties *)

(** ** Maps *)

Section MapFacts.
Context {V : Type}.
Implicit Types (m : JsMap.t V) (k : string) (v : V).

Lemma get_In m k v : JsMap.get k m = Some v -> In (k, v) m.
Proof.
  induction m as [|[k' v'] r IH]; simpl; [discriminate|].
  destruct (String.eqb_spec k' k) as [->|Hne].
  - intros [= ->]. now left.
  - intros H. right. now apply IH.
Qed.

Lemma get_None_keys m k : JsMap.get k m = None <-> ~ In k (JsMap.keys m).
Proof.
  induction m as [|[k' v'] r IH]; simpl.
  - split; [intros _ []|reflexivity].
  - destruct (String.eqb_spec k' k) as [->|Hne].
    + split; [discriminate|]. intros H. exfalso. apply H. now left.
    + rewrite IH. split.
      * intros H [E|I]; [now apply Hne|now apply H].
      * intros H I. apply H. now right.
Qed.

Lemma In_keys m k v : In (k, v) m -> In k (JsMap.keys m).
Proof. intros H. apply (in_map fst) in H. exact H. Qed.

Lemma wf_get_In m k v : JsMap.wf m -> In (k, v) m -> JsMap.get k m = Some v.
Proof.
  unfold JsMap.wf. induction m as [|[k' v'] r IH]; simpl; [intros _ []|].
  intros Hnd [E|I].
  - injection E as -> ->. now rewrite String.eqb_refl.
  - inversion Hnd as [|? ? Hnot Hnd']; subst.
    destruct (String.eqb_spec k' k) as [->|Hne].
    + exfalso. apply Hnot. eapply In_keys; eauto.
    + now apply IH.
Qed.

Lemma set_get_same m k v : JsMap.get k (JsMap.set k v m) = Some v.
Proof.
  induction m as [|[k' v'] r IH]; simpl.
  - now rewrite String.eqb_refl.
  - destruct (String.eqb_spec k' k) as [->|Hne]; simpl.
    + now rewrite String.eqb_refl.
    + destruct (String.eqb_spec k' k); [contradiction|exact IH].
Qed.

(** [set] rewrites one slot or appends one; the other entries stay put. *)
Lemma set_split m k v :
  exists pre post,
    JsMap.set k v m = (pre ++ (k, v) :: post)%list
    /\ (forall e, In e pre -> In e m) /\ (forall e, In e post -> In e m).
Proof.
  induction m as [|[k' v'] r IH]; simpl.
  - exists [], []. repeat split; intros e [].
  - destruct (String.eqb_spec k' k) as [->|Hne].
    + exists [], r. repeat split; [intros e []|]. intros e I. now right.
    + destruct IH as (pre & post & E & Hpre & Hpost).
      exists ((k', v') :: pre), post. rewrite E. repeat split.
      * intros e [<-|I]; [now left|right; now apply Hpre].
      * intros e I. right. now apply Hpost.
Qed.

Lemma set_length m k v :
  (List.length m <= List.length (JsMap.set k v m) <= S (List.length m))%nat.
Proof.
  induction m as [|[k' v'] r IH]; simpl; [lia|].
  destruct (k' =? k)%string; simpl; lia.
Qed.

End MapFacts.

(** ** The sweep *)

Section SweepFacts.
Implicit Types (ss : JsMap.t Session) (s : Session) (k : string).

Lemma cleanup_loop_In t ss k s :
  In (k, s) (SessionStore.cleanup_loop t ss) <-> In (k, s) ss /\ live t s = true.
Proof.
  unfold live. induction ss as [|[k' s'] r IH]; simpl.
  - tauto.
  - destruct (t >? expiresAt s') eqn:E; simpl; rewrite IH.
    + split; [tauto|]. intros [[H|H] L]; [|tauto].
      injection H as -> ->. rewrite E in L. discriminate.
    + split; [|tauto]. intros [H|H]; [|tauto].
      injection H as -> ->. rewrite E. tauto.
Qed.

Lemma cleanup_loop_length t ss :
  (List.length (SessionStore.cleanup_loop t ss) <= List.length ss)%nat.
Proof.
  induction ss as [|[k' s'] r IH]; simpl; [lia|].
  destruct (t >? expiresAt s'); simpl; lia.
Qed.

Lemma cleanup_loop_live t ss k s :
  In (k, s) (SessionStore.cleanup_loop t ss) -> t <= expiresAt s.
Proof.
  intros H. apply cleanup_loop_In in H as [_ L]. unfold live in L.
  destruct (Z.gtb_spec t (expiresAt s)); [discriminate|lia].
Qed.

Lemma cleanup_loop_keys t ss k :
  In k (JsMap.keys (SessionStore.cleanup_loop t ss)) -> In k (JsMap.keys ss).
Proof.
  unfold JsMap.keys. rewrite !in_map_iff.
  intros ([k' s] & E & I). apply cleanup_loop_In in I as [I _].
  exists (k', s). now split.
Qed.

Lemma cleanup_loop_wf t ss :
  JsMap.wf ss -> JsMap.wf (SessionStore.cleanup_loop t ss).
Proof.
  unfold JsMap.wf. induction ss as [|[k' s'] r IH]; simpl; [trivial|].
  intros Hnd. inversion Hnd as [|? ? Hnot Hnd']; subst.
  destruct (t >? expiresAt s'); simpl; [now apply IH|].
  constructor; [|now apply IH].
  intros I. apply Hnot. eapply cleanup_loop_keys. exact I.
Qed.

(** A live entry is still found under its key after the sweep. *)
Lemma cleanup_loop_get_live t ss k s :
  JsMap.get k ss = Some s -> live t s = true ->
  JsMap.get k (SessionStore.cleanup_loop t ss) = Some s.
Proof.
  unfold live. induction ss as [|[k' s'] r IH]; simpl; [discriminate|].
  destruct (String.eqb_spec k' k) as [->|Hne].
  - intros [= ->] L. destruct (t >? expiresAt s); [discriminate|].
    simpl. now rewrite String.eqb_refl.
  - intros G L. destruct (t >? expiresAt s'); simpl; [now apply IH|].
    destruct (String.eqb_spec k' k); [contradiction|now apply IH].
Qed.

(** An expired entry is gone after the sweep. *)
Lemma cleanup_loop_get_expired t ss k s :
  JsMap.wf ss -> JsMap.get k ss = Some s -> live t s = false ->
  JsMap.get k (SessionStore.cleanup_loop t ss) = None.
Proof.
  intros Hwf G L. apply get_None_keys. intros I.
  unfold JsMap.keys in I. apply in_map_iff in I as ([k' s'] & E & I).
  simpl in E. subst k'. apply cleanup_loop_In in I as [I L'].
  apply (wf_get_In _ _ _ Hwf) in I. congruence.
Qed.

(** Sweeping what is already swept at an earlier time removes more, never adds. *)
Lemma cleanup_loop_absent t ss k :
  JsMap.get k ss = None -> JsMap.get k (SessionStore.cleanup_loop t ss) = None.
Proof.
  rewrite !get_None_keys. intros H I. apply H. eapply cleanup_loop_keys. exact I.
Qed.

End SweepFacts.

(** ** Routing of [api/session.js] *)

Section Routing.
Variable env : Env.

Lemma cleanup_run w :
  SessionStore.cleanupExpiredSessions env w = (tt, afterSweep env w).
Proof. reflexivity. Qed.

Lemma method_not_options req m :
  (method req =? m)%string = true -> m <> "OPTIONS" ->
  (method req =? "OPTIONS")%string = false.
Proof.
  intros E Hm. apply String.eqb_eq in E. rewrite E.
  now apply String.eqb_neq.
Qed.

Lemma handler_claim req w :
  isClaim req = true ->
  SessionApi.handler env req w = SessionApi.claim env req (afterSweep env w).
Proof.
  unfold isClaim, path. intros H. apply andb_prop in H as [Hp Hm].
  unfold SessionApi.handler.
  rewrite (method_not_options _ _ Hm) by discriminate.
  unfold bind. rewrite cleanup_run, Hp, Hm. reflexivity.
Qed.

Lemma handler_heartbeat req w :
  isHeartbeat req = true ->
  SessionApi.handler env req w = SessionApi.heartbeat env req (afterSweep env w).
Proof.
  unfold isHeartbeat, path. intros H. apply andb_prop in H as [Hp Hm].
  unfold SessionApi.handler.
  rewrite (method_not_options _ _ Hm) by discriminate.
  unfold bind. rewrite cleanup_run, Hp, Hm.
  apply String.eqb_eq in Hm. rewrite Hm. simpl.
  now rewrite andb_false_r.
Qed.

Lemma handler_release req w :
  isRelease req = true ->
  SessionApi.handler env req w = SessionApi.release env req (afterSweep env w).
Proof.
  unfold isRelease, path. intros H.
  apply andb_prop in H as [H Hm]. apply andb_prop in H as [Hh Hp].
  apply negb_true_iff in Hh.
  unfold SessionApi.handler.
  rewrite (method_not_options _ _ Hm) by discriminate.
  unfold bind. rewrite cleanup_run, Hp, Hh, Hm.
  apply String.eqb_eq in Hm. rewrite Hm. simpl.
  now rewrite andb_false_r.
Qed.

Lemma truthy_key req k :
  x_session_key req = Some k -> k <> "" ->
  Js.truthy (x_session_key req) = true /\ Js.or_lit (x_session_key req) "" = k.
Proof.
  intros -> Hk. simpl. apply String.eqb_neq in Hk. now rewrite Hk.
Qed.

(** Heartbeat on a key the table does not hold. *)
Lemma heartbeat_absent req w k :
  x_session_key req = Some k -> JsMap.get k (sessions w) = None ->
  SessionApi.heartbeat env req w
  = (if (k =? "")%string
     then json 400 (ErrorBody "Missing X-Session-Key header" None)
     else json 404 (ErrorBody "Session not found or expired" None), w).
Proof.
  intros Hk G. unfold SessionApi.heartbeat. rewrite Hk. simpl.
  destruct (k =? "")%string eqn:E; simpl; [reflexivity|].
  unfold bind, getSessions. now rewrite G.
Qed.

(** Heartbeat and release that present the wrong fingerprint. *)
Lemma heartbeat_mismatch req w k s :
  x_session_key req = Some k -> k <> "" ->
  JsMap.get k (sessions w) = Some s ->
  fingerprint s <> SessionStore.generateFingerprint env req ->
  SessionApi.heartbeat env req w
  = (json 403 (ErrorBody "Session fingerprint mismatch" None), w).
Proof.
  intros Hk Hne G Hfp. destruct (truthy_key _ _ Hk Hne) as [T O].
  unfold SessionApi.heartbeat. rewrite T, O. simpl.
  unfold bind, getSessions. rewrite G.
  apply String.eqb_neq in Hfp. now rewrite Hfp.
Qed.

Lemma release_mismatch req w k s :
  x_session_key req = Some k -> k <> "" ->
  JsMap.get k (sessions w) = Some s ->
  fingerprint s <> SessionStore.generateFingerprint env req ->
  SessionApi.release env req w
  = (json 403 (ErrorBody "Cannot release session from different machine" None), w).
Proof.
  intros Hk Hne G Hfp. destruct (truthy_key _ _ Hk Hne) as [T O].
  unfold SessionApi.release. rewrite T, O. simpl.
  unfold bind, getSessions. rewrite G.
  apply String.eqb_neq in Hfp. now rewrite Hfp.
Qed.

End Routing.

(** ** The claim branch *)

Section ClaimFacts.
Variable env : Env.
Implicit Types (w : World) (req : Request) (fp : string).

(** The reuse loop only reads the clock, at most once per entry. *)
Lemma findExisting_frame fp entries w :
  exists n : nat,
    (n <= List.length entries)%nat
    /\ snd (SessionApi.findExisting env fp entries w)
       = mkWorld (sessions w) (rateLimitMap w) (ticks w + n) (draws w) (trace w).
Proof.
  revert w. induction entries as [|[k s] r IH]; intros w; simpl.
  - exists 0%nat. split; [lia|]. destruct w; simpl. now rewrite Nat.add_0_r.
  - destruct (fingerprint s =? fp)%string.
    + unfold bind, Date_now. destruct (clock env (ticks w) <? expiresAt s).
      * exists 1%nat. split; [lia|]. simpl. now rewrite Nat.add_1_r.
      * destruct (IH (mkWorld (sessions w) (rateLimitMap w) (S (ticks w))
                              (draws w) (trace w))) as (n & Hn & E).
        exists (S n). split; [lia|]. rewrite E. simpl.
        now rewrite Nat.add_succ_r.
    + destruct (IH w) as (n & Hn & E). exists n. split; [lia|exact E].
Qed.

(** What the loop returns is an entry with the wanted fingerprint that one
    of the loop's clock readings found unexpired. *)
Lemma findExisting_Some fp entries w k s :
  fst (SessionApi.findExisting env fp entries w) = Some (k, s) ->
  In (k, s) entries /\ fingerprint s = fp
  /\ exists i : nat, (ticks w <= i < ticks w + List.length entries)%nat
                     /\ clock env i < expiresAt s.
Proof.
  revert w. induction entries as [|[k' s'] r IH]; intros w; simpl; [discriminate|].
  destruct (String.eqb_spec (fingerprint s') fp) as [Hfp|Hfp].
  - unfold bind, Date_now.
    destruct (Z.ltb_spec (clock env (ticks w)) (expiresAt s')) as [Hlt|Hge].
    + simpl. intros [= -> ->]. repeat split; [now left|exact Hfp|].
      exists (ticks w). split; [lia|exact Hlt].
    + intros H. apply IH in H as (I & F & i & Hi & Hc). simpl in Hi.
      repeat split; [now right|exact F|]. exists i. split; [lia|exact Hc].
  - intros H. apply IH in H as (I & F & i & Hi & Hc).
    repeat split; [now right|exact F|]. exists i. split; [lia|exact Hc].
Qed.

(** When the loop returns nothing, every entry with the wanted fingerprint
    was found expired by one of the loop's clock readings. *)
Lemma findExisting_None fp entries w k s :
  fst (SessionApi.findExisting env fp entries w) = None ->
  In (k, s) entries -> fingerprint s = fp ->
  exists i : nat, (ticks w <= i < ticks w + List.length entries)%nat
                  /\ expiresAt s <= clock env i.
Proof.
  revert w. induction entries as [|[k' s'] r IH]; intros w; simpl; [intros _ []|].
  destruct (String.eqb_spec (fingerprint s') fp) as [Hfp|Hfp].
  - unfold bind, Date_now.
    destruct (Z.ltb_spec (clock env (ticks w)) (expiresAt s')) as [Hlt|Hge].
    + discriminate.
    + intros H [E|I] F.
      * injection E as -> ->. exists (ticks w). split; [lia|exact Hge].
      * destruct (IH _ H I F) as (i & Hi & Hc). simpl in Hi.
        exists i. split; [lia|exact Hc].
  - intros H [E|I] F.
    + injection E as -> ->. contradiction.
    + destruct (IH _ H I F) as (i & Hi & Hc). exists i. split; [lia|exact Hc].
Qed.

(** Claim answers 429 when the table it sees is full and 200 otherwise. *)
Lemma claim_status req w :
  status (fst (SessionApi.claim env req w))
  = if (MAX_SESSIONS <=? List.length (sessions w))%nat then 429 else 200.
Proof.
  unfold SessionApi.claim, bind, getSessions, JsMap.size.
  destruct (MAX_SESSIONS <=? List.length (sessions w))%nat; [reflexivity|].
  destruct (SessionApi.findExisting env _ (sessions w) w) as [[[k s]|] w1];
    reflexivity.
Qed.

(** A rejected or reusing claim leaves the table alone. *)
Lemma claim_full req w :
  (MAX_SESSIONS <=? List.length (sessions w))%nat = true ->
  SessionApi.claim env req w
  = (json 429 (ErrorBody "Session limit reached"
                 (Some "Too many active sessions. Try again later.")), w).
Proof.
  intros H. unfold SessionApi.claim, bind, getSessions, JsMap.size.
  now rewrite H.
Qed.

Lemma claim_reuse req w k s :
  (MAX_SESSIONS <=? List.length (sessions w))%nat = false ->
  fst (SessionApi.findExisting env (SessionStore.generateFingerprint env req)
         (sessions w) w) = Some (k, s) ->
  fst (SessionApi.claim env req w)
  = json 200 (ClaimBody k (expiresAt s) None "Existing session reused")
  /\ sessions (snd (SessionApi.claim env req w)) = sessions w.
Proof.
  intros Hcap Hf. unfold SessionApi.claim, bind, getSessions, JsMap.size.
  rewrite Hcap.
  destruct (findExisting_frame (SessionStore.generateFingerprint env req)
              (sessions w) w) as (n & _ & E).
  destruct (SessionApi.findExisting env _ (sessions w) w) as [found w1].
  simpl in Hf, E. subst found w1. simpl. split; reflexivity.
Qed.

End ClaimFacts.

(** ** Reachable states *)

Lemma serve_reachable env reqs w :
  reachable env w -> reachable env (snd (serve env reqs w)).
Proof.
  revert w. induction reqs as [|req rest IH]; intros w R; simpl; [exact R|].
  pose proof (reach_session env req w R) as R1.
  destruct (SessionApi.handler env req w) as [r w1]. simpl in R1.
  specialize (IH w1 R1). destruct (serve env rest w1) as [rs w2]. exact IH.
Qed.

(** ** Capacity (C3) *)

(** C3, as amended.  The handler sweeps before it checks capacity: the check
    counts the sessions the sweep left, each of them unexpired at the sweep's
    clock reading.  A claim is answered 429 exactly when that swept table
    holds [MAX_SESSIONS] sessions or more; with the swept table at capacity
    it fails, with one less it succeeds. *)
Theorem claim_capacity_counts_swept_table env req w :
  isClaim req = true ->
  (forall k s, In (k, s) (sweptSessions env w) -> now env w <= expiresAt s)
  /\ (status (fst (SessionApi.handler env req w)) = 429
      <-> (MAX_SESSIONS <= JsMap.size (sweptSessions env w))%nat)
  /\ (JsMap.size (sweptSessions env w) = MAX_SESSIONS ->
      status (fst (SessionApi.handler env req w)) = 429)
  /\ (S (JsMap.size (sweptSessions env w)) = MAX_SESSIONS ->
      status (fst (SessionApi.handler env req w)) = 200).
Proof.
  intros Hc. rewrite (handler_claim env req w Hc), claim_status.
  unfold JsMap.size. simpl sessions.
  split; [intros k s; apply cleanup_loop_live|].
  destruct (Nat.leb_spec MAX_SESSIONS (List.length (sweptSessions env w)))
    as [Hle|Hlt].
  - repeat split; auto; intros; lia.
  - repeat split; try discriminate; intros; lia.
Qed.

Lemma claim_capacity_counts_swept_table_witness :
  let w := snd (serve Scenario.frozen Scenario.hundred initial) in
  JsMap.size (sweptSessions Scenario.frozen w) = MAX_SESSIONS
  /\ status (fst (SessionApi.handler Scenario.frozen (Scenario.client 100) w)) = 429.
Proof.
  cbv zeta. split; [vm_compute; reflexivity|].
  apply (claim_capacity_counts_swept_table Scenario.frozen (Scenario.client 100)
           (snd (serve Scenario.frozen Scenario.hundred initial)));
    vm_compute; reflexivity.
Defined.

(** C3, as stated, fails.  A hundred sessions, all expired and none swept
    yet, fill the table to [MAX_SESSIONS]; the next claim is not rejected:
    the sweep at the head of the handler empties the table first. *)
Lemma claim_over_expired_sessions_succeeds :
  let env := Scenario.jump 400 300001 in
  let w := snd (serve env Scenario.hundred initial) in
  reachable env w
  /\ JsMap.size (sessions w) = MAX_SESSIONS
  /\ forallb (fun e => now env w >? expiresAt (snd e)) (sessions w) = true
  /\ status (fst (SessionApi.handler env (Scenario.client 100) w)) = 200.
Proof.
  split; [apply serve_reachable; constructor|].
  vm_compute. repeat split; reflexivity.
Qed.

(** ** Heartbeat on an expired key (C4) *)

(** C4.  A heartbeat on a key whose [expiresAt] has passed is answered 404,
    the entry is gone from the table afterwards, and so a further heartbeat
    on the same key is answered 404 as well. *)
Theorem heartbeat_expired_not_found env req w k s :
  isHeartbeat req = true ->
  x_session_key req = Some k -> k <> "" ->
  JsMap.wf (sessions w) ->
  JsMap.get k (sessions w) = Some s ->
  expiresAt s < now env w ->
  status (fst (SessionApi.handler env req w)) = 404
  /\ JsMap.get k (sessions (snd (SessionApi.handler env req w))) = None
  /\ forall req',
       isHeartbeat req' = true -> x_session_key req' = Some k ->
       status (fst (SessionApi.handler env req' (snd (SessionApi.handler env req w))))
       = 404.
Proof.
  intros Hh Hk Hne Hwf G Hexp.
  assert (L : live (now env w) s = false).
  { unfold live. destruct (Z.gtb_spec (now env w) (expiresAt s)); [reflexivity|lia]. }
  assert (Gone : JsMap.get k (sessions (afterSweep env w)) = None).
  { simpl. unfold sweptSessions. eapply cleanup_loop_get_expired; eauto. }
  apply String.eqb_neq in Hne.
  rewrite (handler_heartbeat env req w Hh).
  rewrite (heartbeat_absent env req _ k Hk Gone), Hne. simpl.
  repeat split; [exact Gone|].
  intros req' Hh' Hk'.
  rewrite (handler_heartbeat env req' _ Hh').
  rewrite (heartbeat_absent env req' _ k Hk'), ?Hne; [reflexivity|].
  simpl. unfold sweptSessions. now apply cleanup_loop_absent.
Qed.

Lemma heartbeat_expired_not_found_witness :
  let env := Scenario.env_at (fun _ => 20) in
  let w := mkWorld [("key-0", mkSession "ab" 0 10 0 true)] [] 0 0 [] in
  let req := Scenario.heartbeatFrom "a" "b" "key-0" in
  status (fst (SessionApi.handler env req w)) = 404
  /\ JsMap.get "key-0" (sessions (snd (SessionApi.handler env req w))) = None.
Proof.
  pose proof (heartbeat_expired_not_found
                (Scenario.env_at (fun _ => 20))
                (Scenario.heartbeatFrom "a" "b" "key-0")
                (mkWorld [("key-0", mkSession "ab" 0 10 0 true)] [] 0 0 [])
                "key-0" (mkSession "ab" 0 10 0 true)) as H.
  simpl. split; apply H; try reflexivity; try discriminate;
    repeat constructor; simpl; tauto.
Defined.

(** ** Fingerprint mismatch (C5) *)

(** C5.  Heartbeat and release that present the key of a live session with a
    fingerprint other than the stored one are answered 403, and the session
    is found under its key exactly as before; the table changes by the
    opening sweep only. *)
Theorem mismatch_leaves_session_untouched env req w k s :
  isHeartbeat req = true \/ isRelease req = true ->
  x_session_key req = Some k -> k <> "" ->
  JsMap.get k (sessions w) = Some s ->
  now env w <= expiresAt s ->
  fingerprint s <> SessionStore.generateFingerprint env req ->
  status (fst (SessionApi.handler env req w)) = 403
  /\ JsMap.get k (sessions (snd (SessionApi.handler env req w))) = Some s
  /\ sessions (snd (SessionApi.handler env req w)) = sweptSessions env w.
Proof.
  intros Hroute Hk Hne G Hlive Hfp.
  assert (L : live (now env w) s = true).
  { unfold live. destruct (Z.gtb_spec (now env w) (expiresAt s)); [lia|reflexivity]. }
  assert (Kept : JsMap.get k (sessions (afterSweep env w)) = Some s).
  { simpl. unfold sweptSessions. now apply cleanup_loop_get_live. }
  destruct Hroute as [Hh|Hr].
  - rewrite (handler_heartbeat env req w Hh).
    rewrite (heartbeat_mismatch env req _ k s Hk Hne Kept Hfp).
    simpl. repeat split. exact Kept.
  - rewrite (handler_release env req w Hr).
    rewrite (release_mismatch env req _ k s Hk Hne Kept Hfp).
    simpl. repeat split. exact Kept.
Qed.

Lemma mismatch_leaves_session_untouched_witness :
  let env := Scenario.env_at (fun _ => 5) in
  let s := mkSession "ab" 0 10 0 true in
  let w := mkWorld [("key-0", s)] [] 0 0 [] in
  (status (fst (SessionApi.handler env (Scenario.heartbeatFrom "x" "y" "key-0") w)) = 403
   /\ JsMap.get "key-0"
        (sessions (snd (SessionApi.handler env (Scenario.heartbeatFrom "x" "y" "key-0") w)))
      = Some s)
  /\ (status (fst (SessionApi.handler env (Scenario.releaseFrom "x" "y" "key-0") w)) = 403
      /\ JsMap.get "key-0"
           (sessions (snd (SessionApi.handler env (Scenario.releaseFrom "x" "y" "key-0") w)))
         = Some s).
Proof.
  simpl. split.
  - pose proof (mismatch_leaves_session_untouched
                  (Scenario.env_at (fun _ => 5))
                  (Scenario.heartbeatFrom "x" "y" "key-0")
                  (mkWorld [("key-0", mkSession "ab" 0 10 0 true)] [] 0 0 [])
                  "key-0" (mkSession "ab" 0 10 0 true)) as H.
    split; apply H; try reflexivity; try discriminate; try (left; reflexivity).
  - pose proof (mismatch_leaves_session_untouched
                  (Scenario.env_at (fun _ => 5))
                  (Scenario.releaseFrom "x" "y" "key-0")
                  (mkWorld [("key-0", mkSession "ab" 0 10 0 true)] [] 0 0 [])
                  "key-0" (mkSession "ab" 0 10 0 true)) as H.
    split; apply H; try reflexivity; try discriminate; try (right; reflexivity).
Defined.

(** ** Reuse (C1)

    The facts on one claim and on claims repeated back to back.  The theorem
    of C1 also covers runs with other requests in between; it is stated
    further down, after the facts on reachable states it rests on. *)

Local Open Scope list_scope.

Section ReuseFacts.
Variable env : Env.
Hypothesis clock_monotone : monotone (clock env).
Implicit Types (w : World) (req : Request) (fp : string).

Lemma now_le_after w (n : nat) :
  now env w
  <= clock env (ticks w + n).
Proof. apply clock_monotone. lia. Qed.

Lemma cleanup_loop_app t (a b : JsMap.t Session) :
  SessionStore.cleanup_loop t (a ++ b)
  = (SessionStore.cleanup_loop t a ++ SessionStore.cleanup_loop t b)%list.
Proof.
  induction a as [|[k s] r IH]; simpl; [reflexivity|].
  destruct (t >? expiresAt s); simpl; now rewrite IH.
Qed.

(** Entries that have expired by now are passed over by the reuse loop. *)
Lemma findExisting_skip fp pre rest w :
  (forall k s, In (k, s) pre -> fingerprint s = fp -> expiresAt s <= now env w) ->
  exists m : nat,
    SessionApi.findExisting env fp (pre ++ rest) w
    = SessionApi.findExisting env fp rest
        (mkWorld (sessions w) (rateLimitMap w) (ticks w + m) (draws w) (trace w)).
Proof.
  revert w. induction pre as [|[k s] r IH]; intros w Hdead; simpl.
  - exists 0%nat. destruct w; simpl. now rewrite Nat.add_0_r.
  - destruct (String.eqb_spec (fingerprint s) fp) as [Hfp|Hfp].
    + unfold bind, Date_now.
      assert (Hs : expiresAt s <= now env w) by (apply (Hdead k); [now left|exact Hfp]).
      unfold now in Hs.
      destruct (Z.ltb_spec (clock env (ticks w)) (expiresAt s)) as [Hlt|_]; [lia|].
      destruct (IH (mkWorld (sessions w) (rateLimitMap w) (S (ticks w))
                            (draws w) (trace w))) as (m & E).
      { intros k' s' I F. specialize (Hdead k' s' (or_intror I) F).
        unfold now in *. simpl. pose proof (clock_monotone (ticks w) (S (ticks w))).
        lia. }
      exists (S m). rewrite E. simpl. now rewrite Nat.add_succ_r.
    + apply IH. intros k' s' I F. apply (Hdead k' s'); [now right|exact F].
Qed.

(** Where the loop stops, and what it has passed over by then. *)
Lemma findExisting_anchor fp entries w :
  match fst (SessionApi.findExisting env fp entries w) with
  | Some (k, s) =>
      anchored fp k s (now env (snd (SessionApi.findExisting env fp entries w))) entries
  | None =>
      forall k s, In (k, s) entries -> fingerprint s = fp ->
                  expiresAt s <= now env (snd (SessionApi.findExisting env fp entries w))
  end.
Proof.
  revert w. induction entries as [|[k s] r IH]; intros w; simpl.
  - intros k s [].
  - destruct (String.eqb_spec (fingerprint s) fp) as [Hfp|Hfp].
    + unfold bind, Date_now.
      destruct (Z.ltb_spec (clock env (ticks w)) (expiresAt s)) as [Hlt|Hge].
      * simpl. exists [], r. repeat split; [exact Hfp|intros k' s' []].
      * set (w1 := mkWorld (sessions w) (rateLimitMap w) (S (ticks w))
                           (draws w) (trace w)).
        specialize (IH w1).
        destruct (findExisting_frame env fp r w1) as (n & _ & E).
        assert (Hs : expiresAt s
                     <= now env (snd (SessionApi.findExisting env fp r w1))).
        { rewrite E. unfold now. simpl.
          pose proof (clock_monotone (ticks w) (S (ticks w + n))). lia. }
        destruct (fst (SessionApi.findExisting env fp r w1)) as [[k1 s1]|].
        -- destruct IH as (pre & post & -> & F & D).
           exists ((k, s) :: pre), post. repeat split; [exact F|].
           intros k' s' [Eq|I] F'; [injection Eq as <- <-; exact Hs|eauto].
        -- intros k' s' [Eq|I] F'; [injection Eq as <- <-; exact Hs|eauto].
    + specialize (IH w).
      destruct (fst (SessionApi.findExisting env fp r w)) as [[k1 s1]|].
      * destruct IH as (pre & post & -> & F & D).
        exists ((k, s) :: pre), post. repeat split; [exact F|].
        intros k' s' [Eq|I] F'; [injection Eq as <- <-; contradiction|eauto].
      * intros k' s' [Eq|I] F'; [injection Eq as <- <-; contradiction|eauto].
Qed.

(** The claim branch, one case per outcome. *)
Lemma claim_unfold req w :
  SessionApi.claim env req w
  = if (MAX_SESSIONS <=? List.length (sessions w))%nat then
      (json 429 (ErrorBody "Session limit reached"
                   (Some "Too many active sessions. Try again later.")), w)
    else
      let fp := SessionStore.generateFingerprint env req in
      match SessionApi.findExisting env fp (sessions w) w with
      | (Some (k, s), w1) =>
          (json 200 (ClaimBody k (expiresAt s) None "Existing session reused"), w1)
      | (None, w1) =>
          let key := randomHex env (draws w1) in
          let fresh :=
            mkSession fp (clock env (S (ticks w1)))
                      (clock env (ticks w1) + SESSION_TIMEOUT)
                      (clock env (S (S (ticks w1)))) true in
          (json 200 (ClaimBody key (expiresAt fresh) (Some 60000)
                       "Session created successfully"),
           mkWorld (JsMap.set key fresh (sessions w)) (rateLimitMap w1)
                   (S (S (S (ticks w1)))) (S (draws w1)) (trace w1))
      end.
Proof.
  unfold SessionApi.claim, bind, getSessions, JsMap.size.
  destruct (MAX_SESSIONS <=? List.length (sessions w))%nat; [reflexivity|].
  cbv zeta.
  destruct (SessionApi.findExisting env _ (sessions w) w) as [[[k s]|] w1];
    reflexivity.
Qed.

Lemma claim_ticks req w :
  (ticks w <= ticks (snd (SessionApi.claim env req w)))%nat.
Proof.
  rewrite claim_unfold.
  destruct (MAX_SESSIONS <=? List.length (sessions w))%nat; [simpl; lia|].
  cbv zeta.
  destruct (findExisting_frame env (SessionStore.generateFingerprint env req)
              (sessions w) w) as (n & _ & E).
  destruct (SessionApi.findExisting env _ (sessions w) w) as [[[k s]|] w1];
    simpl in *; subst w1; simpl; lia.
Qed.

(** A claim that succeeds leaves its session anchored. *)
Lemma claim_anchors req w k e hb msg :
  fst (SessionApi.claim env req w) = json 200 (ClaimBody k e hb msg) ->
  exists s,
    expiresAt s = e
    /\ anchored (SessionStore.generateFingerprint env req) k s
         (now env (snd (SessionApi.claim env req w)))
         (sessions (snd (SessionApi.claim env req w))).
Proof.
  rewrite claim_unfold.
  destruct (MAX_SESSIONS <=? List.length (sessions w))%nat; [discriminate|].
  cbv zeta.
  pose proof (findExisting_anchor (SessionStore.generateFingerprint env req)
                (sessions w) w) as A.
  destruct (findExisting_frame env (SessionStore.generateFingerprint env req)
              (sessions w) w) as (n & _ & E).
  destruct (SessionApi.findExisting env _ (sessions w) w) as [[[k1 s1]|] w1];
    simpl in A, E; cbn [fst snd sessions].
  - intros [= -> <- <- <-]. exists s1. split; [reflexivity|].
    subst w1. exact A.
  - set (fresh := mkSession (SessionStore.generateFingerprint env req)
                    (clock env (S (ticks w1)))
                    (clock env (ticks w1) + SESSION_TIMEOUT)
                    (clock env (S (S (ticks w1)))) true).
    unfold json. intros H. injection H as Hk He _ _.
    exists fresh. split; [exact He|]. subst k.
    destruct (set_split (sessions w) (randomHex env (draws w1)) fresh)
      as (pre & post & Es & Hpre & _).
    exists pre, post. rewrite Es. repeat split.
    intros k' s' I F. specialize (A k' s' (Hpre _ I) F).
    unfold now in *. simpl.
    pose proof (clock_monotone (ticks w1) (S (S (S (ticks w1))))). lia.
Qed.

Lemma claim_ticks_find req w :
  (MAX_SESSIONS <=? List.length (sessions w))%nat = false ->
  (ticks (snd (SessionApi.findExisting env
                 (SessionStore.generateFingerprint env req) (sessions w) w))
   <= ticks (snd (SessionApi.claim env req w)))%nat.
Proof.
  intros Hcap. rewrite claim_unfold, Hcap. cbv zeta.
  destruct (SessionApi.findExisting env _ (sessions w) w) as [[[k s]|] w1];
    simpl; lia.
Qed.

(** The loop at an entry with the wanted fingerprint: it stops there, or
    its reading found the entry expired and the loop went on. *)
Lemma findExisting_head fp k s rest w :
  fingerprint s = fp ->
  (clock env (ticks w) < expiresAt s
   /\ SessionApi.findExisting env fp ((k, s) :: rest) w
      = (Some (k, s),
         mkWorld (sessions w) (rateLimitMap w) (S (ticks w)) (draws w) (trace w)))
  \/ (expiresAt s <= clock env (ticks w)
      /\ (ticks w < ticks (snd (SessionApi.findExisting env fp ((k, s) :: rest) w)))%nat).
Proof.
  intros F. simpl. apply String.eqb_eq in F. rewrite F.
  unfold bind, Date_now.
  destruct (Z.ltb_spec (clock env (ticks w)) (expiresAt s)) as [Hlt|Hge].
  - left. split; [exact Hlt|reflexivity].
  - right. split; [exact Hge|].
    destruct (findExisting_frame env fp rest
                (mkWorld (sessions w) (rateLimitMap w) (S (ticks w))
                         (draws w) (trace w))) as (n & _ & E).
    rewrite E. simpl. lia.
Qed.

(** A claim that finds the table below capacity and its session anchored
    and unexpired is answered with that session. *)
Lemma claim_at_anchor req a k s t :
  (MAX_SESSIONS <=? List.length (sessions a))%nat = false ->
  anchored (SessionStore.generateFingerprint env req) k s t (sessions a) ->
  t <= now env a ->
  now env (snd (SessionApi.claim env req a)) < expiresAt s ->
  fst (SessionApi.claim env req a)
  = json 200 (ClaimBody k (expiresAt s) None "Existing session reused")
  /\ sessions (snd (SessionApi.claim env req a)) = sessions a.
Proof.
  intros Hcap (pre & post & Es & F & D) Ht Hwin.
  pose proof (claim_ticks_find req a Hcap) as Hfind.
  destruct (findExisting_skip (SessionStore.generateFingerprint env req)
              pre ((k, s) :: post) a) as (m & Eskip).
  { intros k' s' I F'. specialize (D k' s' I F'). lia. }
  rewrite <- Es in Eskip.
  destruct (findExisting_head (SessionStore.generateFingerprint env req) k s post
              (mkWorld (sessions a) (rateLimitMap a) (ticks a + m)
                       (draws a) (trace a)) F)
    as [[Hlt Ehead]|[Hge Hlate]].
  - rewrite <- Eskip in Ehead. apply claim_reuse; [exact Hcap|].
    now rewrite Ehead.
  - exfalso. rewrite <- Eskip in Hlate. simpl in Hge, Hlate.
    assert (M : clock env (ticks a + m)
                <= now env (snd (SessionApi.claim env req a)))
      by (apply clock_monotone; lia).
    lia.
Qed.

(** A further claim with the same fingerprint, before the anchored session
    expires: rejected for capacity or answered with the same key; the table
    is swept and nothing is inserted. *)
Lemma claim_again req w k s t :
  isClaim req = true ->
  anchored (SessionStore.generateFingerprint env req) k s t (sessions w) ->
  t <= now env w ->
  now env (snd (SessionApi.handler env req w)) < expiresAt s ->
  (status (fst (SessionApi.handler env req w)) = 429
   \/ fst (SessionApi.handler env req w)
      = json 200 (ClaimBody k (expiresAt s) None "Existing session reused"))
  /\ sessions (snd (SessionApi.handler env req w)) = sweptSessions env w
  /\ anchored (SessionStore.generateFingerprint env req) k s t
       (sessions (snd (SessionApi.handler env req w))).
Proof.
  intros Hc (pre & post & Es & F & D) Ht.
  rewrite (handler_claim env req w Hc). intros Hwin.
  pose proof (claim_ticks req (afterSweep env w)) as Hticks.
  assert (Hsweep : now env w <= now env (afterSweep env w))
    by (apply clock_monotone; simpl; lia).
  assert (Hkeep : (now env w >? expiresAt s) = false).
  { assert (M : now env (afterSweep env w)
                <= now env (snd (SessionApi.claim env req (afterSweep env w))))
      by (apply clock_monotone; exact Hticks).
    destruct (Z.gtb_spec (now env w) (expiresAt s)); [lia|reflexivity]. }
  assert (Anch : anchored (SessionStore.generateFingerprint env req) k s t
                   (sessions (afterSweep env w))).
  { exists (SessionStore.cleanup_loop (now env w) pre),
           (SessionStore.cleanup_loop (now env w) post).
    repeat split; [|exact F|].
    - simpl. unfold sweptSessions. rewrite Es, cleanup_loop_app.
      simpl. now rewrite Hkeep.
    - intros k' s' I F'. apply cleanup_loop_In in I as [I _].
      exact (D k' s' I F'). }
  destruct (MAX_SESSIONS <=? List.length (sessions (afterSweep env w)))%nat eqn:Hcap.
  - rewrite (claim_full env req _ Hcap). simpl. repeat split; auto.
  - destruct (claim_at_anchor req (afterSweep env w) k s t Hcap Anch) as [Er Es'];
      [lia|exact Hwin|].
    rewrite Es'. repeat split; auto.
Qed.

Lemma serve_repeat_ticks req n w :
  isClaim req = true ->
  (ticks w <= ticks (snd (serve env (repeat req n) w)))%nat.
Proof.
  intros Hc. revert w. induction n as [|n IH]; intros w; simpl; [lia|].
  pose proof (claim_ticks req (afterSweep env w)) as T.
  rewrite <- (handler_claim env req w Hc) in T. simpl in T.
  destruct (SessionApi.handler env req w) as [r w1]. simpl in T.
  specialize (IH w1). destruct (serve env (repeat req n) w1) as [rs w2].
  simpl in *. lia.
Qed.

(** A claim for which a session with the same fingerprint stays unexpired
    through every clock reading of the request. *)
Lemma claim_finds_live req w k s :
  isClaim req = true ->
  In (k, s) (sessions w) ->
  fingerprint s = SessionStore.generateFingerprint env req ->
  clock env (ticks w + List.length (sessions w)) < expiresAt s ->
  sessions (snd (SessionApi.handler env req w)) = sweptSessions env w
  /\ ((MAX_SESSIONS <= JsMap.size (sweptSessions env w))%nat ->
      status (fst (SessionApi.handler env req w)) = 429)
  /\ ((JsMap.size (sweptSessions env w) < MAX_SESSIONS)%nat ->
      exists k' s',
        In (k', s') (sessions w)
        /\ In (k', s') (sessions (snd (SessionApi.handler env req w)))
        /\ fingerprint s' = fingerprint s
        /\ fst (SessionApi.handler env req w)
           = json 200 (ClaimBody k' (expiresAt s') None "Existing session reused")
        /\ ((forall k2 s2, In (k2, s2) (sessions w) ->
                           fingerprint s2 = fingerprint s -> k2 = k) -> k' = k)).
Proof.
  intros Hc I F Hwin. rewrite (handler_claim env req w Hc).
  unfold JsMap.size.
  assert (Isw : In (k, s) (sweptSessions env w)).
  { apply cleanup_loop_In. split; [exact I|]. unfold live.
    pose proof (now_le_after w (List.length (sessions w))).
    destruct (Z.gtb_spec (now env w) (expiresAt s)); [lia|reflexivity]. }
  destruct (Nat.leb_spec MAX_SESSIONS (List.length (sweptSessions env w)))
    as [Hfull|Hroom].
  - assert (Hcap : (MAX_SESSIONS <=? List.length (sessions (afterSweep env w)))%nat = true)
      by (apply Nat.leb_le; exact Hfull).
    rewrite (claim_full env req _ Hcap). simpl.
    split; [reflexivity|]. split; [reflexivity|]. intros; lia.
  - assert (Hcap : (MAX_SESSIONS <=? List.length (sessions (afterSweep env w)))%nat = false)
      by (apply Nat.leb_gt; exact Hroom).
    destruct (fst (SessionApi.findExisting env
                     (SessionStore.generateFingerprint env req)
                     (sessions (afterSweep env w)) (afterSweep env w)))
      as [[k' s']|] eqn:Efind.
    + destruct (claim_reuse env req _ k' s' Hcap Efind) as [Er Es].
      apply findExisting_Some in Efind as (I' & F' & _).
      rewrite Er, Es. simpl.
      split; [reflexivity|]. split; [intros; lia|]. intros _.
      exists k', s'. apply cleanup_loop_In in I' as [I' L'].
      repeat split.
      * exact I'.
      * apply cleanup_loop_In. now split.
      * congruence.
      * intros U. apply (U k' s' I'). congruence.
    + exfalso.
      destruct (findExisting_None env _ _ _ k s Efind Isw F) as (i & Hi & Hexp).
      simpl in Hi.
      pose proof (cleanup_loop_length (now env w) (sessions w)) as Hlen.
      fold (sweptSessions env w) in Hlen.
      pose proof (clock_monotone i (ticks w + List.length (sessions w))%nat).
      lia.
Qed.

(** Further claims with the same request, all made before the session expires. *)
Lemma claims_repeat req k s t n w :
  isClaim req = true ->
  anchored (SessionStore.generateFingerprint env req) k s t (sessions w) ->
  t <= now env w ->
  now env (snd (serve env (repeat req n) w)) < expiresAt s ->
  Forall (fun r => status r = 429
                   \/ r = json 200 (ClaimBody k (expiresAt s) None
                                      "Existing session reused"))
         (fst (serve env (repeat req n) w))
  /\ (forall x, In x (sessions (snd (serve env (repeat req n) w))) -> In x (sessions w))
  /\ (List.length (sessions (snd (serve env (repeat req n) w)))
      <= List.length (sessions w))%nat.
Proof.
  intros Hc. revert w. induction n as [|n IH]; intros w A Ht; simpl.
  - intros _. repeat split; auto.
  - pose proof (claim_again req w k s t Hc A Ht) as Step.
    pose proof (claim_ticks req (afterSweep env w)) as T.
    rewrite <- (handler_claim env req w Hc) in T. simpl in T.
    destruct (SessionApi.handler env req w) as [r w1]. simpl in Step, T.
    pose proof (serve_repeat_ticks req n w1 Hc) as T1.
    specialize (IH w1).
    destruct (serve env (repeat req n) w1) as [rs w2]. simpl in *.
    intros Hwin.
    assert (M1 : now env w1 <= now env w2) by (apply clock_monotone; exact T1).
    assert (M0 : now env w <= now env w1) by (apply clock_monotone; lia).
    destruct Step as (Hr & Hs & A1); [lia|].
    destruct IH as (Hrs & Hin & Hlen); [exact A1|lia|exact Hwin|].
    repeat split.
    + constructor; [exact Hr|exact Hrs].
    + intros x Ix. apply Hin in Ix. rewrite Hs in Ix.
      destruct x as [kx sx]. apply cleanup_loop_In in Ix. tauto.
    + rewrite Hs in Hlen.
      pose proof (cleanup_loop_length (now env w) (sessions w)).
      unfold sweptSessions in Hlen. lia.
Qed.

End ReuseFacts.

Lemma frozen_monotone : monotone (clock Scenario.frozen).
Proof. intros i j _. simpl. lia. Qed.

Lemma ticking_monotone : monotone (clock Scenario.ticking).
Proof. intros i j H. simpl. lia. Qed.

(** ** One live session per fingerprint (C2) *)

(** C2 fails on the code.  A client claims at time 0 and again at the very
    millisecond its session expires (300000).  The sweep keeps the session
    ([now > expiresAt] is false) and [validateSession] accepts it, yet the
    reuse loop asks for [now < expiresAt] and so a second session with the
    same fingerprint is inserted.  A heartbeat on the first key then extends
    it: two sessions of one fingerprint, both expiring at 600000. *)
Theorem second_session_at_expiry_instant :
  let env := Scenario.jump 4 300000 in
  let c := Scenario.claimFrom "10.0.0.1" "agent" in
  let w1 := snd (SessionApi.handler env c initial) in
  let w2 := snd (SessionApi.handler env c w1) in
  let w3 := snd (SessionApi.handler env (Scenario.heartbeatFrom "10.0.0.1" "agent" "key-0") w2) in
  sessions w1 = [("key-0", mkSession "10.0.0.1agent" 0 300000 0 true)]
  /\ now env w1 = 300000
  /\ fst (SessionStore.validateSession env "key-0" c w1) = SessionStore.Valid
  /\ fst (SessionApi.handler env c w1)
     = json 200 (ClaimBody "key-1" 600000 (Some 60000) "Session created successfully")
  /\ sessions w2 = [("key-0", mkSession "10.0.0.1agent" 0 300000 0 true);
                    ("key-1", mkSession "10.0.0.1agent" 300000 600000 300000 true)]
  /\ sessions w3 = [("key-0", mkSession "10.0.0.1agent" 0 600000 300000 true);
                    ("key-1", mkSession "10.0.0.1agent" 300000 600000 300000 true)]
  /\ now env w3 = 300000
  /\ reachable env w3.
Proof.
  cbv zeta. repeat split; try reflexivity.
  repeat apply reach_session. constructor.
Qed.

(** ** Frames *)

Section Frames.
Context {X : Type} (f : World -> X).

Lemma frames_ret {A} (a : A) : frames f (ret a).
Proof. intros w. reflexivity. Qed.

Lemma frames_bind {A B} (m : M A) (k : A -> M B) :
  frames f m -> (forall a, frames f (k a)) -> frames f (bind m k).
Proof.
  intros Hm Hk w. unfold bind. specialize (Hm w).
  destruct (m w) as [a w1]. simpl in Hm. rewrite <- Hm. apply Hk.
Qed.

End Frames.

Lemma preserves_ret {A} (P : World -> Prop) (a : A) : preserves P (ret a).
Proof. intros w H. exact H. Qed.

Lemma preserves_bind {A B} (P : World -> Prop) (m : M A) (k : A -> M B) :
  preserves P m -> (forall a, preserves P (k a)) -> preserves P (bind m k).
Proof.
  intros Hm Hk w H. unfold bind. specialize (Hm w H).
  destruct (m w) as [a w1]. simpl in Hm. now apply Hk.
Qed.

(** A computation that frames [f] preserves what depends on [f] alone. *)
Lemma frames_preserves {A X} (f : World -> X) (Q : X -> Prop) (m : M A) :
  frames f m -> preserves (fun w => Q (f w)) m.
Proof. intros Hf w H. now rewrite Hf. Qed.

(** Splits a framing goal along the structure of the computation. *)
Ltac frame_step :=
  first
    [ apply frames_ret
    | apply frames_bind; [|intros ?]
    | match goal with
      | |- frames _ (if ?b then _ else _) => destruct b
      | |- frames _ (match ?x with _ => _ end) => destruct x
      | |- frames _ (let (_, _) := ?x in _) => destruct x
      end
    | (intros ?; reflexivity) ].

Section SessionFrames.
Variable env : Env.

Lemma findExisting_frames_rateLimitMap fp entries :
  frames rateLimitMap (SessionApi.findExisting env fp entries).
Proof.
  intros w. destruct (findExisting_frame env fp entries w) as (n & _ & E).
  now rewrite E.
Qed.

Lemma findExisting_frames_trace fp entries :
  frames trace (SessionApi.findExisting env fp entries).
Proof.
  intros w. destruct (findExisting_frame env fp entries w) as (n & _ & E).
  now rewrite E.
Qed.

(** The session endpoint neither touches the rate-limit table nor makes an
    observed call. *)
Lemma session_handler_frames_rateLimitMap req :
  frames rateLimitMap (SessionApi.handler env req).
Proof.
  unfold SessionApi.handler, SessionApi.claim, SessionApi.heartbeat,
    SessionApi.release, SessionStore.cleanupExpiredSessions,
    SessionApi.generateSessionKey.
  repeat first [apply findExisting_frames_rateLimitMap | frame_step].
Qed.

Lemma session_handler_frames_trace req :
  frames trace (SessionApi.handler env req).
Proof.
  unfold SessionApi.handler, SessionApi.claim, SessionApi.heartbeat,
    SessionApi.release, SessionStore.cleanupExpiredSessions,
    SessionApi.generateSessionKey.
  repeat first [apply findExisting_frames_trace | frame_step].
Qed.

Lemma validateSessionKey_frames_rateLimitMap req :
  frames rateLimitMap (Vision.validateSessionKey env req).
Proof.
  unfold Vision.validateSessionKey, SessionStore.validateSession.
  repeat frame_step.
Qed.

Lemma validateSessionKey_frames_trace req :
  frames trace (Vision.validateSessionKey env req).
Proof.
  unfold Vision.validateSessionKey, SessionStore.validateSession.
  repeat frame_step.
Qed.

End SessionFrames.

(** ** The rate limiter (C6) *)

Section MapFacts2.
Context {V : Type}.
Implicit Types (m : JsMap.t V) (k : string) (v : V).

Lemma set_same m k v : JsMap.get k m = Some v -> JsMap.set k v m = m.
Proof.
  induction m as [|[k' v'] r IH]; simpl; [discriminate|].
  destruct (String.eqb_spec k' k) as [->|Hne].
  - now intros [= ->].
  - intros G. now rewrite IH.
Qed.

Lemma set_set m k v v' : JsMap.set k v' (JsMap.set k v m) = JsMap.set k v' m.
Proof.
  induction m as [|[k1 v1] r IH]; simpl.
  - now rewrite String.eqb_refl.
  - destruct (String.eqb_spec k1 k) as [->|Hne]; simpl.
    + now rewrite String.eqb_refl.
    + destruct (String.eqb_spec k1 k); [contradiction|]. now rewrite IH.
Qed.

Lemma set_In m k v e : In e (JsMap.set k v m) -> e = (k, v) \/ In e m.
Proof.
  destruct (set_split m k v) as (pre & post & E & Hpre & Hpost).
  rewrite E, in_app_iff. simpl. intros [I|[<-|I]]; auto.
Qed.

End MapFacts2.

Section RateLimit.
Variable env : Env.
Implicit Types (w : World) (identifier : string).

(** The window a call at time [t] counts in, given what the table holds. *)
Lemma checkRateLimit_unfold identifier w :
  Vision.checkRateLimit env identifier w
  = let t := now env w in
    let rl := rateLimitMap w in
    let u1 :=
      match JsMap.get identifier rl with
      | Some l => if t >? resetAt l then mkLimits 0 (t + RATE_WINDOW) else l
      | None => mkLimits 0 (t + RATE_WINDOW)
      end in
    if count u1 >=? RATE_LIMIT then
      (false, mkWorld (sessions w) rl (S (ticks w)) (draws w)
                      (CheckRateLimit identifier :: trace w))
    else
      (true, mkWorld (sessions w)
                     (JsMap.set identifier (mkLimits (count u1 + 1) (resetAt u1)) rl)
                     (S (ticks w)) (draws w)
                     (CheckRateLimit identifier :: trace w)).
Proof.
  unfold Vision.checkRateLimit, bind, emit, Date_now, getRateLimitMap,
    putRateLimitMap, ret, now. cbn [fst snd sessions rateLimitMap ticks draws trace].
  destruct (JsMap.get identifier (rateLimitMap w)) as [l|] eqn:G.
  - destruct (Z.gtb_spec (clock env (ticks w)) (resetAt l)) as [Hgt|Hle].
    + cbn. now rewrite set_set.
    + destruct (count l >=? RATE_LIMIT).
      * now rewrite (set_same _ _ _ G).
      * now rewrite set_set.
  - cbn [resetAt count].
    destruct (Z.gtb_spec (clock env (ticks w)) (clock env (ticks w) + RATE_WINDOW))
      as [Hgt|Hle]; [unfold RATE_WINDOW in Hgt; lia|].
    cbn. reflexivity.
Qed.

Lemma check_fresh identifier w :
  JsMap.get identifier (rateLimitMap w) = None ->
  Vision.checkRateLimit env identifier w
  = (true, mkWorld (sessions w)
             (JsMap.set identifier (mkLimits 1 (now env w + RATE_WINDOW)) (rateLimitMap w))
             (S (ticks w)) (draws w) (CheckRateLimit identifier :: trace w)).
Proof. intros G. rewrite checkRateLimit_unfold. cbv zeta. now rewrite G. Qed.

Lemma check_reset identifier w l :
  JsMap.get identifier (rateLimitMap w) = Some l ->
  resetAt l < now env w ->
  Vision.checkRateLimit env identifier w
  = (true, mkWorld (sessions w)
             (JsMap.set identifier (mkLimits 1 (now env w + RATE_WINDOW)) (rateLimitMap w))
             (S (ticks w)) (draws w) (CheckRateLimit identifier :: trace w)).
Proof.
  intros G H. rewrite checkRateLimit_unfold. cbv zeta. rewrite G.
  destruct (Z.gtb_spec (now env w) (resetAt l)); [reflexivity|lia].
Qed.

Lemma check_admit identifier w l :
  JsMap.get identifier (rateLimitMap w) = Some l ->
  now env w <= resetAt l ->
  count l < RATE_LIMIT ->
  Vision.checkRateLimit env identifier w
  = (true, mkWorld (sessions w)
             (JsMap.set identifier (mkLimits (count l + 1) (resetAt l)) (rateLimitMap w))
             (S (ticks w)) (draws w) (CheckRateLimit identifier :: trace w)).
Proof.
  intros G H C. rewrite checkRateLimit_unfold. cbv zeta. rewrite G.
  destruct (Z.gtb_spec (now env w) (resetAt l)); [lia|].
  destruct (Z.geb_spec (count l) RATE_LIMIT); [lia|reflexivity].
Qed.

Lemma check_reject identifier w l :
  JsMap.get identifier (rateLimitMap w) = Some l ->
  now env w <= resetAt l ->
  RATE_LIMIT <= count l ->
  Vision.checkRateLimit env identifier w
  = (false, mkWorld (sessions w) (rateLimitMap w)
              (S (ticks w)) (draws w) (CheckRateLimit identifier :: trace w)).
Proof.
  intros G H C. rewrite checkRateLimit_unfold. cbv zeta. rewrite G.
  destruct (Z.gtb_spec (now env w) (resetAt l)); [lia|].
  destruct (Z.geb_spec (count l) RATE_LIMIT); [reflexivity|lia].
Qed.

(** Calls inside a window that already counts [c]. *)
Lemma checks_in_window identifier n :
  forall w c R,
    JsMap.get identifier (rateLimitMap w) = Some (mkLimits c R) ->
    0 <= c <= RATE_LIMIT ->
    (forall i : nat, (i < n)%nat -> clock env (ticks w + i) <= R) ->
    fst (checks env identifier n w)
    = List.map (fun i : nat => c + Z.of_nat i <? RATE_LIMIT) (seq 0 n)
    /\ JsMap.get identifier (rateLimitMap (snd (checks env identifier n w)))
       = Some (mkLimits (Z.min (c + Z.of_nat n) RATE_LIMIT) R).
Proof.
  induction n as [|n IH]; intros w c R G Hc Hw.
  - simpl. split; [reflexivity|]. rewrite G. f_equal. f_equal. lia.
  - assert (H0 : now env w <= R).
    { specialize (Hw 0%nat). rewrite Nat.add_0_r in Hw. apply Hw. lia. }
    assert (Hw' : forall i : nat, (i < n)%nat -> clock env (S (ticks w) + i) <= R).
    { intros i Hi. replace (S (ticks w) + i)%nat with (ticks w + S i)%nat by lia.
      apply Hw. lia. }
    cbn [checks seq List.map]. rewrite <- seq_shift, map_map.
    destruct (Z.ltb_spec c RATE_LIMIT) as [Hlt|Hge].
    + rewrite (check_admit identifier w _ G H0 Hlt). cbn [count resetAt].
      match goal with |- context [checks env identifier n ?w1] =>
        destruct (IH w1 (c + 1) R) as [Er Eg]; [apply set_get_same|lia|exact Hw'|];
        destruct (checks env identifier n w1) as [bs w2] end.
      cbn [fst snd] in *. rewrite Er, Eg. split.
      * rewrite Z.add_0_r. destruct (Z.ltb_spec c RATE_LIMIT); [|lia].
        f_equal. apply map_ext. intros i. f_equal. lia.
      * f_equal. f_equal. lia.
    + rewrite (check_reject identifier w _ G H0 Hge).
      match goal with |- context [checks env identifier n ?w1] =>
        destruct (IH w1 c R) as [Er Eg]; [exact G|lia|exact Hw'|];
        destruct (checks env identifier n w1) as [bs w2] end.
      cbn [fst snd] in *. rewrite Er, Eg. split.
      * rewrite Z.add_0_r. destruct (Z.ltb_spec c RATE_LIMIT); [lia|].
        f_equal. apply map_ext. intros i.
        destruct (Z.ltb_spec (c + Z.of_nat i) RATE_LIMIT);
          destruct (Z.ltb_spec (c + Z.of_nat (S i)) RATE_LIMIT); try reflexivity; lia.
      * f_equal. f_equal. lia.
Qed.

(** Calls from the one that opens a window on. *)
Lemma checks_from_opening identifier n w :
  (JsMap.get identifier (rateLimitMap w) = None
   \/ exists l, JsMap.get identifier (rateLimitMap w) = Some l /\ resetAt l < now env w) ->
  (forall i : nat, (i < n)%nat -> clock env (ticks w + i) <= now env w + RATE_WINDOW) ->
  fst (checks env identifier n w)
  = List.map (fun i : nat => Z.of_nat i <? RATE_LIMIT) (seq 0 n)
  /\ ((0 < n)%nat ->
      JsMap.get identifier (rateLimitMap (snd (checks env identifier n w)))
      = Some (mkLimits (Z.min (Z.of_nat n) RATE_LIMIT) (now env w + RATE_WINDOW))).
Proof.
  intros Hopen Hw. destruct n as [|n]; [split; [reflexivity|lia]|].
  assert (E : Vision.checkRateLimit env identifier w
              = (true, mkWorld (sessions w)
                         (JsMap.set identifier (mkLimits 1 (now env w + RATE_WINDOW))
                                    (rateLimitMap w))
                         (S (ticks w)) (draws w) (CheckRateLimit identifier :: trace w))).
  { destruct Hopen as [G|(l & G & H)]; [now apply check_fresh|now apply (check_reset _ _ l)]. }
  cbn [checks seq List.map]. rewrite E. rewrite <- seq_shift, map_map.
  match goal with |- context [checks env identifier n ?w1] =>
    destruct (checks_in_window identifier n w1 1 (now env w + RATE_WINDOW))
      as [Er Eg];
    [apply set_get_same|unfold RATE_LIMIT; lia| |];
    [|destruct (checks env identifier n w1) as [bs w2]] end.
  - intros i Hi. cbn [ticks].
    replace (S (ticks w) + i)%nat with (ticks w + S i)%nat by lia. apply Hw. lia.
  - cbn [fst snd] in *. rewrite Er, Eg. split.
    + f_equal. apply map_ext. intros i. f_equal. lia.
    + intros _. f_equal. f_equal. lia.
Qed.

(** The limiter keeps every counter within the limit. *)
Lemma checkRateLimit_preserves_counts identifier :
  preserves (fun w => counts_bounded (rateLimitMap w))
            (Vision.checkRateLimit env identifier).
Proof.
  intros w H. rewrite checkRateLimit_unfold. cbv zeta.
  set (u1 := match JsMap.get identifier (rateLimitMap w) with
             | Some l => if now env w >? resetAt l
                         then mkLimits 0 (now env w + RATE_WINDOW) else l
             | None => mkLimits 0 (now env w + RATE_WINDOW)
             end).
  assert (Hu : 0 <= count u1).
  { unfold u1. destruct (JsMap.get identifier (rateLimitMap w)) as [l|] eqn:G;
      [|simpl; lia].
    destruct (now env w >? resetAt l); [simpl; lia|].
    apply get_In in G. apply H in G. lia. }
  destruct (Z.geb_spec (count u1) RATE_LIMIT) as [Hge|Hlt]; cbn [snd rateLimitMap].
  - exact H.
  - intros id l I. apply set_In in I as [[= -> ->]|I]; [simpl; lia|].
    exact (H id l I).
Qed.

Lemma vision_handler_preserves_counts req :
  preserves (fun w => counts_bounded (rateLimitMap w)) (Vision.handler env req).
Proof.
  unfold Vision.handler.
  repeat first
    [ apply preserves_ret
    | apply checkRateLimit_preserves_counts
    | apply (frames_preserves rateLimitMap counts_bounded);
      first [apply validateSessionKey_frames_rateLimitMap | intros ?; reflexivity]
    | apply preserves_bind; [|intros ?]
    | match goal with
      | |- preserves _ (if ?b then _ else _) => destruct b
      | |- preserves _ (match ?x with _ => _ end) => destruct x
      end ].
Qed.

Lemma reachable_counts_bounded w :
  reachable env w -> counts_bounded (rateLimitMap w).
Proof.
  induction 1 as [|req w R IH|req w R IH].
  - intros id l [].
  - now rewrite session_handler_frames_rateLimitMap.
  - now apply vision_handler_preserves_counts.
Qed.

End RateLimit.

(** C6.  For any identifier:
    - from the call that opens a window (no entry yet, or the previous
      window has elapsed), the calls made while the clock has not passed
      [resetAt] return [true] for the first [RATE_LIMIT] of them and [false]
      from the next on, and the counter ends at the smaller of the number of
      calls and [RATE_LIMIT];
    - a call that finds the counter at the limit inside the window returns
      [false] and leaves the table as it was;
    - the first call after [resetAt] returns [true], and leaves the counter
      at 1 and [resetAt] one window after that call's clock reading;
    - in every reachable state every counter is between 0 and [RATE_LIMIT]. *)
Theorem rate_limit_fixed_window env identifier :
  (forall w n,
     (JsMap.get identifier (rateLimitMap w) = None
      \/ exists l, JsMap.get identifier (rateLimitMap w) = Some l
                   /\ resetAt l < now env w) ->
     (forall i : nat, (i < n)%nat ->
                      clock env (ticks w + i) <= now env w + RATE_WINDOW) ->
     fst (checks env identifier n w)
     = List.map (fun i : nat => Z.of_nat i <? RATE_LIMIT) (seq 0 n)
     /\ ((0 < n)%nat ->
         JsMap.get identifier (rateLimitMap (snd (checks env identifier n w)))
         = Some (mkLimits (Z.min (Z.of_nat n) RATE_LIMIT) (now env w + RATE_WINDOW))))
  /\ (forall w l,
        JsMap.get identifier (rateLimitMap w) = Some l ->
        now env w <= resetAt l ->
        RATE_LIMIT <= count l ->
        fst (Vision.checkRateLimit env identifier w) = false
        /\ rateLimitMap (snd (Vision.checkRateLimit env identifier w)) = rateLimitMap w)
  /\ (forall w l,
        JsMap.get identifier (rateLimitMap w) = Some l ->
        resetAt l < now env w ->
        fst (Vision.checkRateLimit env identifier w) = true
        /\ JsMap.get identifier
             (rateLimitMap (snd (Vision.checkRateLimit env identifier w)))
           = Some (mkLimits 1 (now env w + RATE_WINDOW)))
  /\ (forall w, reachable env w -> counts_bounded (rateLimitMap w)).
Proof.
  split; [intros w n; apply checks_from_opening|].
  split.
  { intros w l G Hin Hc. rewrite (check_reject env identifier w l G Hin Hc).
    split; reflexivity. }
  split.
  { intros w l G Hr. rewrite (check_reset env identifier w l G Hr).
    split; [reflexivity|apply set_get_same]. }
  intros w. apply reachable_counts_bounded.
Qed.

Lemma rate_limit_fixed_window_witness :
  fst (checks Scenario.frozen "10.0.0.1" 11 initial)
  = [true; true; true; true; true; true; true; true; true; true; false].
Proof.
  rewrite (proj1 (proj1 (rate_limit_fixed_window Scenario.frozen "10.0.0.1")
                    initial 11%nat (or_introl eq_refl)
                    (fun i _ => ltac:(simpl; unfold RATE_WINDOW; lia)))).
  reflexivity.
Defined.

(** ** The vision gate (C7) *)

Section Gate.
Variable env : Env.

Lemma checkRateLimit_trace identifier w :
  trace (snd (Vision.checkRateLimit env identifier w))
  = CheckRateLimit identifier :: trace w.
Proof.
  rewrite checkRateLimit_unfold. cbv zeta.
  match goal with |- context [if ?b then _ else _] => destruct b end; reflexivity.
Qed.

End Gate.

(** C7.  For a POST to the vision endpoint: when the session key is missing
    or the session does not validate, the answer is 401 and no observed call
    is made, the rate limiter included (its table is untouched); when the
    session validates and the rate limiter rejects, the answer is 429 and
    the only observed call is that of the rate limiter: the external model
    is not called. *)
Theorem vision_gate_order env req w :
  method req = "POST" ->
  (SessionStore.valid (fst (Vision.validateSessionKey env req w)) = false ->
   status (fst (Vision.handler env req w)) = 401
   /\ trace (snd (Vision.handler env req w)) = trace w
   /\ rateLimitMap (snd (Vision.handler env req w)) = rateLimitMap w)
  /\ (SessionStore.valid (fst (Vision.validateSessionKey env req w)) = true ->
      fst (Vision.checkRateLimit env (clientId req)
             (snd (Vision.validateSessionKey env req w))) = false ->
      status (fst (Vision.handler env req w)) = 429
      /\ trace (snd (Vision.handler env req w))
         = CheckRateLimit (clientId req) :: trace w).
Proof.
  intros Hm. unfold Vision.handler. rewrite Hm. cbn [String.eqb Ascii.eqb Bool.eqb negb].
  unfold bind. fold (clientId req).
  pose proof (validateSessionKey_frames_trace env req w) as Ft.
  pose proof (validateSessionKey_frames_rateLimitMap env req w) as Fr.
  destruct (Vision.validateSessionKey env req w) as [v w1]. cbn [fst snd] in *.
  split.
  - destruct v as [|reason]; [discriminate|]. intros _. simpl. auto.
  - destruct v as [|reason]; [|discriminate]. intros _ Hrej.
    pose proof (checkRateLimit_trace env (clientId req) w1) as Tc.
    destruct (Vision.checkRateLimit env (clientId req) w1) as [allowed w2].
    cbn [fst snd] in *. subst allowed. simpl. split; [reflexivity|congruence].
Qed.

Lemma vision_gate_order_witness :
  let req := mkRequest "POST" (Some "/api/neuro-os/vision") (Some "10.0.0.1")
                       None (Some "agent") None
                       (Js.Obj [("image", Js.Str "aGk=")]) in
  status (fst (Vision.handler Scenario.frozen req initial)) = 401
  /\ trace (snd (Vision.handler Scenario.frozen req initial)) = trace initial
  /\ rateLimitMap (snd (Vision.handler Scenario.frozen req initial)) = rateLimitMap initial.
Proof.
  cbv zeta.
  apply (proj1 (vision_gate_order Scenario.frozen
                  (mkRequest "POST" (Some "/api/neuro-os/vision") (Some "10.0.0.1")
                             None (Some "agent") None
                             (Js.Obj [("image", Js.Str "aGk=")]))
                  initial eq_refl)).
  reflexivity.
Defined.

(** ** The fingerprint (C10) *)

(** C10.  The fingerprint is the hash of the forwarded-IP value followed
    directly by the user-agent value.  Two requests for which that
    concatenation is the same string get the same fingerprint, validate
    against the same sessions, and, method, path and session key being
    equal, are answered alike by claim, heartbeat and release. *)
Theorem fingerprint_of_concatenation env req1 req2 :
  (fingerprint_ip req1 ++ fingerprint_userAgent req1
   = fingerprint_ip req2 ++ fingerprint_userAgent req2)%string ->
  SessionStore.generateFingerprint env req1 = SessionStore.generateFingerprint env req2
  /\ (forall k w,
        SessionStore.validateSession env k req1 w
        = SessionStore.validateSession env k req2 w)
  /\ (method req1 = method req2 -> url req1 = url req2 ->
      x_session_key req1 = x_session_key req2 ->
      forall w, SessionApi.handler env req1 w = SessionApi.handler env req2 w).
Proof.
  intros Hcat.
  assert (Hfp : SessionStore.generateFingerprint env req1
                = SessionStore.generateFingerprint env req2).
  { unfold SessionStore.generateFingerprint.
    fold (fingerprint_ip req1) (fingerprint_ip req2)
         (fingerprint_userAgent req1) (fingerprint_userAgent req2).
    cbv zeta. now rewrite Hcat. }
  split; [exact Hfp|]. split.
  - intros k w. unfold SessionStore.validateSession. now rewrite Hfp.
  - intros Hm Hu Hk w.
    unfold SessionApi.handler, SessionApi.claim, SessionApi.heartbeat,
      SessionApi.release.
    now rewrite Hm, Hu, Hk, Hfp.
Qed.

Lemma fingerprint_of_concatenation_witness :
  let r1 := Scenario.claimFrom "ab" "c" in
  let r2 := Scenario.claimFrom "a" "bc" in
  SessionStore.generateFingerprint Scenario.frozen r1
  = SessionStore.generateFingerprint Scenario.frozen r2
  /\ fst (SessionApi.handler Scenario.frozen r2
            (snd (SessionApi.handler Scenario.frozen r1 initial)))
     = json 200 (ClaimBody "key-0" 300000 None "Existing session reused").
Proof.
  cbv zeta.
  pose proof (fingerprint_of_concatenation Scenario.frozen
                (Scenario.claimFrom "ab" "c") (Scenario.claimFrom "a" "bc") eq_refl)
    as (Hfp & _ & Hh).
  split; [exact Hfp|].
  rewrite <- (Hh eq_refl eq_refl eq_refl). reflexivity.
Defined.

(** ** The schedule file (C8, C9) *)

Section ScheduleFacts.
Import Schedule.
Variable env : Schedule.Env.
Implicit Types (w : Schedule.World) (req : Schedule.Request).

Lemma pickRandomInterval_run w :
  exists gap,
    In gap intervals
    /\ pickRandomInterval env w
       = (Returned gap, Schedule.mkWorld (disk w) (Schedule.ticks w) (S (rolls w))).
Proof.
  unfold pickRandomInterval, Schedule.bind, random_below, Schedule.ret.
  exists (nth (dice env (rolls w) mod List.length intervals) intervals 0).
  split; [|reflexivity].
  apply nth_In. apply Nat.mod_upper_bound. discriminate.
Qed.

Lemma intervals_positive gap : In gap intervals -> 3600000 <= gap.
Proof. unfold intervals. simpl. intros [<-|[<-|[<-|[]]]]; lia. Qed.

(** [loadSchedule] on a missing file: [null], nothing touched. *)
Lemma loadSchedule_missing w :
  file (disk w) = None -> loadSchedule env w = (Returned None, w).
Proof.
  intros Hf. unfold loadSchedule, Schedule.bind, existsSync_file. now rewrite Hf.
Qed.

(** [ensureDir] when the directory is there or can be made. *)
Lemma ensureDir_run w :
  dir (disk w) = true \/ writable (disk w) = true ->
  ensureDir w
  = (Returned tt,
     Schedule.mkWorld (mkDisk true (file (disk w)) (readable (disk w)) (writable (disk w)))
                      (Schedule.ticks w) (rolls w)).
Proof.
  destruct w as [[d f r wr] t n]. simpl.
  unfold ensureDir, Schedule.bind, existsSync_dir, mkdirSync. simpl.
  intros [->| ->]; simpl; [reflexivity|]. destruct d; reflexivity.
Qed.

Lemma legacy_get_missing req w :
  Schedule.method req = "GET" -> file (disk w) = None ->
  Legacy.handler req w
  = (Returned (Schedule.mkResponse 200 (Json Legacy.DEFAULT_SCHEDULE)), w).
Proof.
  intros Hm Hf. unfold Legacy.handler. rewrite Hm. simpl.
  unfold Schedule.bind at 1. unfold Legacy.loadSchedule, Schedule.bind, try_catch,
    existsSync_file. now rewrite Hf.
Qed.

Lemma handler_missing req w :
  file (disk w) = None ->
  dir (disk w) = true \/ writable (disk w) = true ->
  Schedule.handler env req w
  = (Returned (Schedule.mkResponse 500 (errorBody NO_SCHEDULE)),
     Schedule.mkWorld (mkDisk true None (readable (disk w)) (writable (disk w)))
                      (S (Schedule.ticks w)) (rolls w)).
Proof.
  intros Hf Hd. unfold Schedule.handler.
  unfold Schedule.bind at 1. rewrite (ensureDir_run w Hd).
  unfold Schedule.bind at 1. rewrite loadSchedule_missing by now simpl.
  rewrite Hf. reflexivity.
Qed.

(** The current handler answers 500 exactly when [loadSchedule] yields [null]. *)
Lemma handler_500_iff_no_schedule req w r w' :
  Schedule.handler env req w = (Returned r, w') ->
  (Schedule.status r = 500
   <-> fst (loadSchedule env (snd (ensureDir w))) = Returned None).
Proof.
  unfold Schedule.handler.
  unfold Schedule.bind at 1. destruct (ensureDir w) as [[[]|e] w1]; [|discriminate].
  unfold Schedule.bind at 1. cbn [snd].
  destruct (loadSchedule env w1) as [[[data0|]|e] w2]; cbn [fst]; [| |discriminate].
  - intros H. split; [|discriminate]. intros Hs. exfalso. revert H Hs.
    unfold Schedule.bind, Date_now, Schedule.ret.
    repeat match goal with
           | |- context [match ?x with _ => _ end] => destruct x
           end;
      intros [= <- <-]; discriminate.
  - unfold Schedule.bind, Date_now, Schedule.ret. intros [= <- <-].
    split; reflexivity.
Qed.

(** [loadSchedule] on a bare array, with a disk that reads and writes. *)
Lemma loadSchedule_array w items :
  file (disk w) = Some (Text (JArr items)) ->
  readable (disk w) = true -> dir (disk w) = true -> writable (disk w) = true ->
  exists gap,
    In gap intervals
    /\ loadSchedule env w
       = (Returned (Some (JObj [("schedule", JArr items);
                                ("nextRefresh", JNum (Schedule.clock env (Schedule.ticks w) + gap))])),
          Schedule.mkWorld
            (mkDisk true
               (Some (Text (JObj [("schedule", JArr items);
                                  ("nextRefresh",
                                   JNum (Schedule.clock env (Schedule.ticks w) + gap))])))
               true true)
            (S (Schedule.ticks w)) (S (rolls w))).
Proof.
  destruct w as [[d f r wr] t n]. cbn [disk file readable dir writable Schedule.ticks rolls].
  intros -> -> -> ->.
  exists (nth (dice env n mod List.length intervals) intervals 0). split.
  - apply nth_In. apply Nat.mod_upper_bound. discriminate.
  - reflexivity.
Qed.

(** [loadSchedule] on the object shape the migration writes. *)
Lemma loadSchedule_wrapped w items n :
  file (disk w) = Some (Text (JObj [("schedule", JArr items); ("nextRefresh", JNum n)])) ->
  readable (disk w) = true -> dir (disk w) = true -> writable (disk w) = true ->
  exists n',
    fst (loadSchedule env w)
    = Returned (Some (JObj [("schedule", JArr items); ("nextRefresh", JNum n')])).
Proof.
  destruct w as [[d f r wr] t k]. cbn [disk file readable dir writable].
  intros -> -> -> ->.
  destruct (n =? 0) eqn:E.
  - eexists. unfold loadSchedule, Schedule.bind, try_catch, existsSync_file,
      readFileSync, JSON_parse, Schedule.ret. cbn. rewrite E. cbn. reflexivity.
  - exists n. unfold loadSchedule, Schedule.bind, try_catch, existsSync_file,
      readFileSync, JSON_parse, Schedule.ret. cbn. rewrite E. reflexivity.
Qed.

Lemma ensureDir_present w :
  dir (disk w) = true -> ensureDir w = (Returned tt, w).
Proof.
  intros Hd. unfold ensureDir, Schedule.bind, existsSync_dir. now rewrite Hd.
Qed.

(** A GET that loads a schedule whose refresh time is still ahead. *)
Lemma handler_get_loaded req w data n w1 :
  Schedule.method req = "GET" ->
  dir (disk w) = true ->
  loadSchedule env w = (Returned (Some data), w1) ->
  prop data "nextRefresh" = Some (JNum n) ->
  Schedule.clock env (Schedule.ticks w1) < n ->
  fst (Schedule.handler env req w) = Returned (Schedule.mkResponse 200 (Json data)).
Proof.
  intros Hm Hd Hl Hp Hc. unfold Schedule.handler.
  unfold Schedule.bind at 1. rewrite (ensureDir_present w Hd).
  unfold Schedule.bind at 1. rewrite Hl.
  unfold Schedule.bind at 1. unfold Date_now at 1.
  rewrite Hp.
  destruct (Z.geb_spec (Schedule.clock env (Schedule.ticks w1)) n) as [Hge|_]; [lia|].
  unfold Schedule.bind, Schedule.ret. now rewrite Hm.
Qed.

(** [ensureDir] when the directory is missing and cannot be made. *)
Lemma ensureDir_fails w :
  dir (disk w) = false -> writable (disk w) = false ->
  ensureDir w = (Thrown "EACCES: permission denied, mkdir", w).
Proof.
  destruct w as [[d f r wr] t n]. cbn [disk dir writable].
  intros -> ->. reflexivity.
Qed.

(** The handler throws what [ensureDir] throws. *)
Lemma handler_no_dir req w :
  dir (disk w) = false -> writable (disk w) = false ->
  Schedule.handler env req w = (Thrown "EACCES: permission denied, mkdir", w).
Proof.
  intros Hd Hw. unfold Schedule.handler.
  unfold Schedule.bind at 1. now rewrite (ensureDir_fails w Hd Hw).
Qed.

(** The handler when [loadSchedule] yields [null]. *)
Lemma handler_no_schedule req w w1 :
  dir (disk w) = true ->
  loadSchedule env w = (Returned None, w1) ->
  Schedule.handler env req w
  = (Returned (Schedule.mkResponse 500 (errorBody NO_SCHEDULE)),
     Schedule.mkWorld (disk w1) (S (Schedule.ticks w1)) (rolls w1)).
Proof.
  intros Hd Hl. unfold Schedule.handler.
  unfold Schedule.bind at 1. rewrite (ensureDir_present w Hd).
  unfold Schedule.bind at 1. rewrite Hl. reflexivity.
Qed.

(** [loadSchedule] on a bare array that cannot be read, or cannot be
    written back: [null], and the disk as it was. *)
Lemma loadSchedule_array_stuck w items :
  file (disk w) = Some (Text (JArr items)) ->
  readable (disk w) = false \/ writable (disk w) = false ->
  exists w1,
    loadSchedule env w = (Returned None, w1) /\ disk w1 = disk w.
Proof.
  destruct w as [[d f r wr] t n]. cbn [disk file readable writable].
  intros -> [-> | ->].
  - eexists. split; reflexivity.
  - destruct r.
    + unfold loadSchedule, Schedule.bind, try_catch, existsSync_file, readFileSync,
        JSON_parse, Schedule.ret, Date_now, pickRandomInterval, random_below,
        writeFileSync.
      cbn. destruct d; cbn; eexists; split; reflexivity.
    + eexists. split; reflexivity.
Qed.

End ScheduleFacts.

(** C8, as amended.  With the schedule file missing:
    - the earlier version of the handler answers a GET with 200 and the
      default schedule, touching nothing;
    - the current version, when the data directory is there or can be
      created, answers every request with 500 and the hint to seed the file
      (it only makes sure the directory exists, and creates no file);
    - the current version, when the data directory is missing and cannot be
      created, throws the error of [mkdirSync] and answers nothing.
    And, whatever the disk holds, a response the current version returns is
    a 500 exactly when [loadSchedule], run after [ensureDir], yielded no
    schedule. *)
Theorem schedule_missing_file_by_version env req w :
  Schedule.file (Schedule.disk w) = None ->
  (Schedule.method req = "GET" ->
   Schedule.Legacy.handler req w
   = (Schedule.Returned
        (Schedule.mkResponse 200 (Schedule.Json Schedule.Legacy.DEFAULT_SCHEDULE)), w))
  /\ (Schedule.dir (Schedule.disk w) = true \/ Schedule.writable (Schedule.disk w) = true ->
      fst (Schedule.handler env req w)
      = Schedule.Returned
          (Schedule.mkResponse 500 (Schedule.errorBody Schedule.NO_SCHEDULE))
      /\ Schedule.file (Schedule.disk (snd (Schedule.handler env req w))) = None)
  /\ (forall w0 r w',
        Schedule.handler env req w0 = (Schedule.Returned r, w') ->
        (Schedule.status r = 500
         <-> fst (Schedule.loadSchedule env (snd (Schedule.ensureDir w0)))
             = Schedule.Returned None))
  /\ (Schedule.dir (Schedule.disk w) = false ->
      Schedule.writable (Schedule.disk w) = false ->
      Schedule.handler env req w
      = (Schedule.Thrown "EACCES: permission denied, mkdir", w)).
Proof.
  intros Hf. split; [|split; [|split]].
  - intros Hm. now apply legacy_get_missing.
  - intros Hd. rewrite (handler_missing env req w Hf Hd). split; reflexivity.
  - intros w0 r w'. apply handler_500_iff_no_schedule.
  - intros Hd Hw. now apply handler_no_dir.
Qed.

Lemma schedule_missing_file_by_version_witness :
  let w := Schedule.mkWorld (Schedule.mkDisk true None true true) 0 0 in
  Schedule.Legacy.handler (Schedule.mkRequest "GET" Schedule.JNull) w
  = (Schedule.Returned
       (Schedule.mkResponse 200 (Schedule.Json Schedule.Legacy.DEFAULT_SCHEDULE)), w).
Proof.
  cbv zeta.
  apply (proj1 (schedule_missing_file_by_version
                  (Schedule.mkEnv (fun _ => 0) (fun _ => 0%nat))
                  (Schedule.mkRequest "GET" Schedule.JNull)
                  (Schedule.mkWorld (Schedule.mkDisk true None true true) 0 0)
                  eq_refl)).
  reflexivity.
Defined.

(** C8, as stated, fails: with no schedule file on disk the current handler
    answers a GET with 500; it does not fall back to a default schedule. *)
Lemma get_without_schedule_file_is_500 :
  let env := Schedule.mkEnv (fun _ => 0) (fun _ => 0%nat) in
  let w := Schedule.mkWorld (Schedule.mkDisk true None true true) 0 0 in
  Schedule.existsSync_file w = (Schedule.Returned false, w)
  /\ Schedule.handler env (Schedule.mkRequest "GET" Schedule.JNull) w
     = (Schedule.Returned
          (Schedule.mkResponse 500
             (Schedule.Json
                (Schedule.JObj
                   [("error",
                     Schedule.JStr "No valid schedule found on disk. Please seed data/ncom/videoSchedule.json with an array of items or the object { schedule, nextRefresh }.")]))),
        Schedule.mkWorld (Schedule.mkDisk true None true true) 1 0).
Proof. split; reflexivity. Qed.

(** C9, as amended.  The schedule file holds a bare array.
    - On a disk that reads and writes, [loadSchedule] turns it into the
      object [{schedule, nextRefresh}] whose [schedule] is that very array,
      [nextRefresh] lying one of the three intervals after the clock
      reading; the file then holds the same object.  A second read returns
      an object with the same [schedule], and a GET answers 200 with the
      object when the clock has not run an hour ahead between the two
      readings.
    - When the file cannot be read, or cannot be written back, nothing is
      migrated: [loadSchedule] yields [null] and leaves the disk as it was,
      and the handler answers every request with 500 and the hint to seed
      the file, the file still holding the bare array. *)
Theorem legacy_array_migration env w items :
  Schedule.file (Schedule.disk w) = Some (Schedule.Text (Schedule.JArr items)) ->
  Schedule.dir (Schedule.disk w) = true ->
  (Schedule.readable (Schedule.disk w) = true ->
   Schedule.writable (Schedule.disk w) = true ->
   exists gap,
     In gap Schedule.intervals
     /\ let wrapped :=
          Schedule.JObj
            [("schedule", Schedule.JArr items);
             ("nextRefresh",
              Schedule.JNum (Schedule.clock env (Schedule.ticks w) + gap))] in
        fst (Schedule.loadSchedule env w) = Schedule.Returned (Some wrapped)
        /\ Schedule.file (Schedule.disk (snd (Schedule.loadSchedule env w)))
           = Some (Schedule.Text wrapped)
        /\ Schedule.prop wrapped "schedule" = Some (Schedule.JArr items)
        /\ (exists n,
              fst (Schedule.loadSchedule env (snd (Schedule.loadSchedule env w)))
              = Schedule.Returned
                  (Some (Schedule.JObj [("schedule", Schedule.JArr items);
                                        ("nextRefresh", Schedule.JNum n)])))
        /\ (Schedule.clock env (S (Schedule.ticks w))
            < Schedule.clock env (Schedule.ticks w) + 3600000 ->
            forall b,
              fst (Schedule.handler env (Schedule.mkRequest "GET" b) w)
              = Schedule.Returned (Schedule.mkResponse 200 (Schedule.Json wrapped))))
  /\ (Schedule.readable (Schedule.disk w) = false
      \/ Schedule.writable (Schedule.disk w) = false ->
      fst (Schedule.loadSchedule env w) = Schedule.Returned None
      /\ Schedule.disk (snd (Schedule.loadSchedule env w)) = Schedule.disk w
      /\ forall req,
           fst (Schedule.handler env req w)
           = Schedule.Returned
               (Schedule.mkResponse 500 (Schedule.errorBody Schedule.NO_SCHEDULE))
           /\ Schedule.file (Schedule.disk (snd (Schedule.handler env req w)))
              = Some (Schedule.Text (Schedule.JArr items))).
Proof.
  intros Hf Hd. split.
  - intros Hr Hw.
    destruct (loadSchedule_array env w items Hf Hr Hd Hw) as (gap & Hgap & El).
    exists gap. split; [exact Hgap|]. cbv zeta. rewrite El. cbn [fst snd].
    split; [reflexivity|]. split; [reflexivity|]. split; [reflexivity|]. split.
    + eapply loadSchedule_wrapped; reflexivity.
    + intros Hclock b.
      apply (handler_get_loaded env (Schedule.mkRequest "GET" b) w _
               (Schedule.clock env (Schedule.ticks w) + gap) _ eq_refl Hd El);
        [reflexivity|].
      cbn [Schedule.ticks]. pose proof (intervals_positive gap Hgap). lia.
  - intros Hstuck.
    destruct (loadSchedule_array_stuck env w items Hf Hstuck) as (w1 & El & Ed).
    rewrite El. cbn [fst snd]. split; [reflexivity|]. split; [exact Ed|].
    intros req. rewrite (handler_no_schedule env req w w1 Hd El).
    cbn [fst snd Schedule.disk]. split; [reflexivity|]. now rewrite Ed.
Qed.

Lemma legacy_array_migration_witness :
  let env := Schedule.mkEnv (fun _ => 1000) (fun _ => 1%nat) in
  let items := [Schedule.JObj [("videoIndex", Schedule.JNum 0);
                               ("delay", Schedule.JNum 1000)]] in
  let w := Schedule.mkWorld
             (Schedule.mkDisk true (Some (Schedule.Text (Schedule.JArr items))) true true)
             0 0 in
  exists gap,
    In gap Schedule.intervals
    /\ fst (Schedule.loadSchedule env w)
       = Schedule.Returned
           (Some (Schedule.JObj [("schedule", Schedule.JArr items);
                                 ("nextRefresh", Schedule.JNum (1000 + gap))])).
Proof.
  cbv zeta.
  destruct (proj1 (legacy_array_migration
                     (Schedule.mkEnv (fun _ => 1000) (fun _ => 1%nat))
                     (Schedule.mkWorld
                        (Schedule.mkDisk true
                           (Some (Schedule.Text
                                    (Schedule.JArr
                                       [Schedule.JObj [("videoIndex", Schedule.JNum 0);
                                                       ("delay", Schedule.JNum 1000)]])))
                           true true) 0 0)
                     [Schedule.JObj [("videoIndex", Schedule.JNum 0);
                                     ("delay", Schedule.JNum 1000)]]
                     eq_refl eq_refl) eq_refl eq_refl)
    as (gap & Hgap & Hload & _).
  exists gap. split; [exact Hgap|exact Hload].
Defined.

(** C9, as stated, fails.  The file holds a bare array and can be read, but
    the disk cannot be written (a read-only deployment).  The write-back of
    the migration throws inside the [try] of [loadSchedule], which answers
    [null]: a GET is answered 500 instead of the object shape, and the file
    keeps the bare array. *)
Lemma migration_fails_on_read_only_disk :
  let env := Schedule.mkEnv (fun _ => 1000) (fun _ => 1%nat) in
  let items := [Schedule.JObj [("videoIndex", Schedule.JNum 0);
                               ("delay", Schedule.JNum 45000)]] in
  let w := Schedule.mkWorld
             (Schedule.mkDisk true (Some (Schedule.Text (Schedule.JArr items))) true false)
             0 0 in
  fst (Schedule.readFileSync w) = Schedule.Returned (Schedule.Text (Schedule.JArr items))
  /\ fst (Schedule.writeFileSync (Schedule.JArr items) w)
     = Schedule.Thrown "EACCES: permission denied, open"
  /\ fst (Schedule.loadSchedule env w) = Schedule.Returned None
  /\ fst (Schedule.handler env (Schedule.mkRequest "GET" Schedule.JNull) w)
     = Schedule.Returned
         (Schedule.mkResponse 500 (Schedule.errorBody Schedule.NO_SCHEDULE))
  /\ Schedule.file
       (Schedule.disk
          (snd (Schedule.handler env (Schedule.mkRequest "GET" Schedule.JNull) w)))
     = Some (Schedule.Text (Schedule.JArr items)).
Proof. cbv zeta. repeat split; reflexivity. Qed.

(** ** The table stays a map *)

Section WellFormed.
Variable env : Env.

Lemma set_keys {V} (m : JsMap.t V) k v x :
  In x (JsMap.keys (JsMap.set k v m)) -> x = k \/ In x (JsMap.keys m).
Proof.
  unfold JsMap.keys. rewrite in_map_iff. intros ([k' v'] & <- & I).
  apply set_In in I as [[= -> ->]|I]; [now left|right].
  apply (in_map fst) in I. exact I.
Qed.

Lemma set_wf {V} (m : JsMap.t V) k v : JsMap.wf m -> JsMap.wf (JsMap.set k v m).
Proof.
  unfold JsMap.wf. induction m as [|[k' v'] r IH]; simpl.
  - intros _. repeat constructor. intros [].
  - intros Hnd. inversion Hnd as [|? ? Hnot Hnd']; subst.
    destruct (String.eqb_spec k' k) as [->|Hne]; simpl.
    + now constructor.
    + constructor; [|now apply IH].
      intros I. apply set_keys in I as [->|I]; [now apply Hne|now apply Hnot].
Qed.

Lemma delete_keys {V} (m : JsMap.t V) k x :
  In x (JsMap.keys (JsMap.delete k m)) -> In x (JsMap.keys m).
Proof.
  induction m as [|[k' v'] r IH]; simpl; [trivial|].
  destruct (k' =? k)%string; simpl; [now right|].
  intros [->|I]; [now left|right; now apply IH].
Qed.

Lemma delete_wf {V} (m : JsMap.t V) k : JsMap.wf m -> JsMap.wf (JsMap.delete k m).
Proof.
  unfold JsMap.wf. induction m as [|[k' v'] r IH]; simpl; [trivial|].
  intros Hnd. inversion Hnd as [|? ? Hnot Hnd']; subst.
  destruct (k' =? k)%string; [exact Hnd'|]. simpl.
  constructor; [|now apply IH]. intros I. apply Hnot. eapply delete_keys. exact I.
Qed.

Lemma claim_wf req w :
  JsMap.wf (sessions w) -> JsMap.wf (sessions (snd (SessionApi.claim env req w))).
Proof.
  intros Hwf. unfold SessionApi.claim, bind, getSessions, JsMap.size.
  destruct (MAX_SESSIONS <=? List.length (sessions w))%nat; [exact Hwf|].
  destruct (findExisting_frame env (SessionStore.generateFingerprint env req)
              (sessions w) w) as (n & _ & E).
  destruct (SessionApi.findExisting env _ (sessions w) w) as [[[k s]|] w1];
    simpl in E; subst w1; simpl; [exact Hwf|now apply set_wf].
Qed.

Lemma heartbeat_wf req w :
  JsMap.wf (sessions w) -> JsMap.wf (sessions (snd (SessionApi.heartbeat env req w))).
Proof.
  intros Hwf. unfold SessionApi.heartbeat, bind, getSessions.
  destruct (negb (Js.truthy (x_session_key req))); [exact Hwf|].
  destruct (JsMap.get _ (sessions w)) as [s|]; [|exact Hwf].
  destruct (negb (fingerprint s =? _)%string); [exact Hwf|].
  simpl. now apply set_wf.
Qed.

Lemma release_wf req w :
  JsMap.wf (sessions w) -> JsMap.wf (sessions (snd (SessionApi.release env req w))).
Proof.
  intros Hwf. unfold SessionApi.release, bind, getSessions.
  destruct (negb (Js.truthy (x_session_key req))); [exact Hwf|].
  destruct (JsMap.get _ (sessions w)) as [s|]; [|exact Hwf].
  destruct (fingerprint s =? _)%string; [|exact Hwf].
  simpl. now apply delete_wf.
Qed.

Lemma session_handler_wf req :
  preserves (fun w => JsMap.wf (sessions w)) (SessionApi.handler env req).
Proof.
  intros w Hwf. unfold SessionApi.handler.
  destruct (method req =? "OPTIONS")%string; [exact Hwf|].
  unfold bind. rewrite cleanup_run.
  assert (Hsw : JsMap.wf (sessions (afterSweep env w)))
    by (simpl; now apply cleanup_loop_wf).
  repeat match goal with
         | |- context [if ?b then _ else _] => destruct b
         end;
    [now apply claim_wf|now apply heartbeat_wf|now apply release_wf|exact Hsw].
Qed.

Lemma validateSession_wf k req :
  preserves (fun w => JsMap.wf (sessions w)) (SessionStore.validateSession env k req).
Proof.
  intros w Hwf. unfold SessionStore.validateSession, bind, getSessions.
  destruct (JsMap.get k (sessions w)) as [s|]; [|exact Hwf].
  unfold Date_now. destruct (clock env (ticks w) >? expiresAt s).
  - simpl. now apply delete_wf.
  - destruct (negb (fingerprint s =? _)%string); exact Hwf.
Qed.

Lemma checkRateLimit_frames_sessions identifier :
  frames sessions (Vision.checkRateLimit env identifier).
Proof.
  intros w. rewrite checkRateLimit_unfold. cbv zeta.
  match goal with |- context [if ?b then _ else _] => destruct b end; reflexivity.
Qed.

Lemma vision_handler_wf req :
  preserves (fun w => JsMap.wf (sessions w)) (Vision.handler env req).
Proof.
  unfold Vision.handler, Vision.validateSessionKey.
  repeat first
    [ apply preserves_ret
    | apply validateSession_wf
    | apply (frames_preserves sessions JsMap.wf);
      first [apply checkRateLimit_frames_sessions | intros ?; reflexivity]
    | apply preserves_bind; [|intros ?]
    | match goal with
      | |- preserves _ (if ?b then _ else _) => destruct b
      | |- preserves _ (match ?x with _ => _ end) => destruct x
      end ].
Qed.

(** In every reachable state the session table has one entry per key. *)
Lemma reachable_sessions_wf w : reachable env w -> JsMap.wf (sessions w).
Proof.
  induction 1 as [|req w R IH|req w R IH].
  - constructor.
  - now apply session_handler_wf.
  - now apply vision_handler_wf.
Qed.

End WellFormed.

(** * Further properties of the handlers *)

(** ** More on maps *)

Section MapFacts3.
Context {V : Type}.
Implicit Types (m : JsMap.t V) (k : string) (v : V).

Lemma get_set_other m k k' v :
  k' <> k -> JsMap.get k' (JsMap.set k v m) = JsMap.get k' m.
Proof.
  intros Hne. induction m as [|[k1 v1] r IH]; simpl.
  - destruct (String.eqb_spec k k'); [congruence|reflexivity].
  - destruct (String.eqb_spec k1 k) as [->|Hk]; simpl.
    + destruct (String.eqb_spec k k'); [congruence|reflexivity].
    + destruct (String.eqb_spec k1 k'); [reflexivity|exact IH].
Qed.

Lemma set_existing_keys m k v v0 :
  JsMap.get k m = Some v0 -> JsMap.keys (JsMap.set k v m) = JsMap.keys m.
Proof.
  induction m as [|[k1 v1] r IH]; simpl; [discriminate|].
  destruct (String.eqb_spec k1 k) as [->|Hk]; simpl; [reflexivity|].
  intros G. f_equal. now apply IH.
Qed.

Lemma set_fresh m k v :
  JsMap.get k m = None -> JsMap.set k v m = m ++ [(k, v)].
Proof.
  induction m as [|[k1 v1] r IH]; simpl; [reflexivity|].
  destruct (String.eqb_spec k1 k) as [->|Hk]; [discriminate|].
  intros G. f_equal. now apply IH.
Qed.

Lemma get_delete_other m k k' :
  k' <> k -> JsMap.get k' (JsMap.delete k m) = JsMap.get k' m.
Proof.
  intros Hne. induction m as [|[k1 v1] r IH]; simpl; [reflexivity|].
  destruct (String.eqb_spec k1 k) as [->|Hk]; simpl.
  - destruct (String.eqb_spec k k'); [congruence|reflexivity].
  - destruct (String.eqb_spec k1 k'); [reflexivity|exact IH].
Qed.

Lemma get_delete_same m k :
  JsMap.wf m -> JsMap.get k (JsMap.delete k m) = None.
Proof.
  unfold JsMap.wf. induction m as [|[k1 v1] r IH]; simpl; [reflexivity|].
  intros Hnd. inversion Hnd as [|? ? Hnot Hnd']; subst.
  destruct (String.eqb_spec k1 k) as [->|Hk]; simpl.
  - now apply get_None_keys.
  - destruct (String.eqb_spec k1 k); [contradiction|now apply IH].
Qed.

Lemma delete_In m k e : In e (JsMap.delete k m) -> In e m.
Proof.
  induction m as [|[k1 v1] r IH]; simpl; [trivial|].
  destruct (k1 =? k)%string; simpl; [now right|].
  intros [<-|I]; [now left|right; now apply IH].
Qed.

Lemma delete_length m k :
  (List.length (JsMap.delete k m) <= List.length m)%nat.
Proof.
  induction m as [|[k1 v1] r IH]; simpl; [lia|].
  destruct (k1 =? k)%string; simpl; lia.
Qed.

Lemma set_existing_length m k v v0 :
  JsMap.get k m = Some v0 -> List.length (JsMap.set k v m) = List.length m.
Proof.
  intros G. pose proof (set_existing_keys m k v v0 G) as E.
  apply (f_equal (@List.length _)) in E.
  unfold JsMap.keys in E. now rewrite !length_map in E.
Qed.

End MapFacts3.

(** ** The three branches of [api/session.js], accepted *)

Section Branches.
Variable env : Env.
Implicit Types (w : World) (req : Request).

Lemma live_spec t s : live t s = true <-> t <= expiresAt s.
Proof.
  unfold live. destruct (Z.gtb_spec t (expiresAt s)); simpl; split;
    intros; try lia; try discriminate; reflexivity.
Qed.

Lemma heartbeat_accept req w k s :
  x_session_key req = Some k -> k <> "" ->
  JsMap.get k (sessions w) = Some s ->
  fingerprint s = SessionStore.generateFingerprint env req ->
  SessionApi.heartbeat env req w
  = (json 200 (HeartbeatBody (clock env (S (ticks w)) + SESSION_TIMEOUT)),
     mkWorld (JsMap.set k (mkSession (fingerprint s) (createdAt s)
                                     (clock env (S (ticks w)) + SESSION_TIMEOUT)
                                     (clock env (ticks w)) (claimed s))
                        (sessions w))
             (rateLimitMap w) (S (S (ticks w))) (draws w) (trace w)).
Proof.
  intros Hk Hne G Hfp. destruct (truthy_key _ _ Hk Hne) as [T O].
  unfold SessionApi.heartbeat. rewrite T, O. cbn [negb].
  unfold bind, getSessions. rewrite G.
  apply String.eqb_eq in Hfp. rewrite Hfp. reflexivity.
Qed.

Lemma release_accept req w k s :
  x_session_key req = Some k -> k <> "" ->
  JsMap.get k (sessions w) = Some s ->
  fingerprint s = SessionStore.generateFingerprint env req ->
  SessionApi.release env req w
  = (json 200 (ReleaseBody "Session released"),
     mkWorld (JsMap.delete k (sessions w)) (rateLimitMap w) (ticks w) (draws w) (trace w)).
Proof.
  intros Hk Hne G Hfp. destruct (truthy_key _ _ Hk Hne) as [T O].
  unfold SessionApi.release. rewrite T, O. cbn [negb].
  unfold bind, getSessions. rewrite G.
  apply String.eqb_eq in Hfp. rewrite Hfp. reflexivity.
Qed.

Lemma release_absent req w k :
  x_session_key req = Some k -> k <> "" ->
  JsMap.get k (sessions w) = None ->
  SessionApi.release env req w = (json 404 (ErrorBody "Session not found" None), w).
Proof.
  intros Hk Hne G. destruct (truthy_key _ _ Hk Hne) as [T O].
  unfold SessionApi.release. rewrite T, O. cbn [negb].
  unfold bind, getSessions. now rewrite G.
Qed.

(** The reuse loop over a table that holds no session of the fingerprint. *)
Lemma findExisting_no_match fp entries w :
  (forall k s, In (k, s) entries -> fingerprint s <> fp) ->
  SessionApi.findExisting env fp entries w = (None, w).
Proof.
  induction entries as [|[k s] r IH]; intros H; simpl; [reflexivity|].
  destruct (String.eqb_spec (fingerprint s) fp) as [E|_].
  - exfalso. apply (H k s); [now left|exact E].
  - apply IH. intros k' s' I. apply (H k' s'). now right.
Qed.

End Branches.

(** X1.  A heartbeat with the key and the fingerprint of a session the
    sweep keeps is answered 200; the session keeps its place, fingerprint and
    creation time, its [lastHeartbeat] is the handler's second clock reading
    and its [expiresAt] the third plus [SESSION_TIMEOUT], which is also the
    expiry returned; no other entry of the swept table changes. *)
Theorem heartbeat_extends_session env req w k s :
  isHeartbeat req = true ->
  x_session_key req = Some k -> k <> "" ->
  JsMap.get k (sessions w) = Some s ->
  now env w <= expiresAt s ->
  fingerprint s = SessionStore.generateFingerprint env req ->
  fst (SessionApi.handler env req w)
  = json 200 (HeartbeatBody (clock env (ticks w + 2) + SESSION_TIMEOUT))
  /\ JsMap.get k (sessions (snd (SessionApi.handler env req w)))
     = Some (mkSession (fingerprint s) (createdAt s)
                       (clock env (ticks w + 2) + SESSION_TIMEOUT)
                       (clock env (ticks w + 1)) (claimed s))
  /\ JsMap.keys (sessions (snd (SessionApi.handler env req w)))
     = JsMap.keys (sweptSessions env w)
  /\ forall k', k' <> k ->
       JsMap.get k' (sessions (snd (SessionApi.handler env req w)))
       = JsMap.get k' (sweptSessions env w).
Proof.
  intros Hh Hk Hne G Hlive Hfp.
  assert (Kept : JsMap.get k (sessions (afterSweep env w)) = Some s).
  { simpl. unfold sweptSessions. apply cleanup_loop_get_live; [exact G|].
    now apply live_spec. }
  rewrite (handler_heartbeat env req w Hh).
  rewrite (heartbeat_accept env req _ k s Hk Hne Kept Hfp).
  cbn [fst snd sessions afterSweep ticks].
  replace (ticks w + 2)%nat with (S (S (ticks w))) by lia.
  replace (ticks w + 1)%nat with (S (ticks w)) by lia.
  simpl in Kept.
  split; [reflexivity|]. split; [apply set_get_same|]. split.
  - eapply set_existing_keys. exact Kept.
  - intros k' Hk'. now apply get_set_other.
Qed.

Lemma heartbeat_extends_session_witness :
  let env := Scenario.env_at (fun i => Z.of_nat i) in
  let w := mkWorld [("key-0", mkSession "ab" 0 10 0 true)] [] 0 0 [] in
  fst (SessionApi.handler env (Scenario.heartbeatFrom "a" "b" "key-0") w)
  = json 200 (HeartbeatBody 300002).
Proof.
  cbv zeta.
  apply (heartbeat_extends_session
           (Scenario.env_at (fun i => Z.of_nat i))
           (Scenario.heartbeatFrom "a" "b" "key-0")
           (mkWorld [("key-0", mkSession "ab" 0 10 0 true)] [] 0 0 [])
           "key-0" (mkSession "ab" 0 10 0 true));
    try reflexivity; try discriminate.
Defined.

(** X2.  A release with the key and the fingerprint of a session the sweep
    keeps is answered 200 and removes that entry and no other; a second
    release with the same key is answered 404. *)
Theorem release_removes_session env req w k s :
  isRelease req = true ->
  x_session_key req = Some k -> k <> "" ->
  JsMap.wf (sessions w) ->
  JsMap.get k (sessions w) = Some s ->
  now env w <= expiresAt s ->
  fingerprint s = SessionStore.generateFingerprint env req ->
  fst (SessionApi.handler env req w) = json 200 (ReleaseBody "Session released")
  /\ JsMap.get k (sessions (snd (SessionApi.handler env req w))) = None
  /\ (forall k', k' <> k ->
        JsMap.get k' (sessions (snd (SessionApi.handler env req w)))
        = JsMap.get k' (sweptSessions env w))
  /\ fst (SessionApi.handler env req (snd (SessionApi.handler env req w)))
     = json 404 (ErrorBody "Session not found" None).
Proof.
  intros Hr Hk Hne Hwf G Hlive Hfp.
  assert (Kept : JsMap.get k (sessions (afterSweep env w)) = Some s).
  { simpl. unfold sweptSessions. apply cleanup_loop_get_live; [exact G|].
    now apply live_spec. }
  assert (Hwf' : JsMap.wf (sweptSessions env w)) by now apply cleanup_loop_wf.
  rewrite (handler_release env req w Hr).
  rewrite (release_accept env req _ k s Hk Hne Kept Hfp).
  cbn [fst snd sessions afterSweep].
  split; [reflexivity|]. split; [now apply get_delete_same|]. split.
  - intros k' Hk'. now apply get_delete_other.
  - rewrite (handler_release env req _ Hr).
    rewrite (release_absent env req _ k Hk Hne); [reflexivity|].
    simpl. unfold sweptSessions at 1. apply cleanup_loop_absent.
    now apply get_delete_same.
Qed.

Lemma release_removes_session_witness :
  let env := Scenario.env_at (fun _ => 5) in
  let w := mkWorld [("key-0", mkSession "ab" 0 10 0 true)] [] 0 0 [] in
  fst (SessionApi.handler env (Scenario.releaseFrom "a" "b" "key-0") w)
  = json 200 (ReleaseBody "Session released")
  /\ JsMap.get "key-0"
       (sessions (snd (SessionApi.handler env (Scenario.releaseFrom "a" "b" "key-0") w)))
     = None.
Proof.
  cbv zeta.
  pose proof (release_removes_session
                (Scenario.env_at (fun _ => 5))
                (Scenario.releaseFrom "a" "b" "key-0")
                (mkWorld [("key-0", mkSession "ab" 0 10 0 true)] [] 0 0 [])
                "key-0" (mkSession "ab" 0 10 0 true)) as H.
  split; apply H; try reflexivity; try discriminate;
    repeat constructor; simpl; tauto.
Defined.

(** X3.  A claim that finds the swept table below capacity and without a
    session of the client's fingerprint creates one: the key is the next
    random key, the expiry the handler's second clock reading plus
    [SESSION_TIMEOUT], the creation time and [lastHeartbeat] the third and
    fourth readings.  The answer is 200 with that key and expiry and a
    heartbeat interval of 60000.  When the key is new to the table the
    session goes last. *)
Theorem claim_creates_session env req w :
  isClaim req = true ->
  (JsMap.size (sweptSessions env w) < MAX_SESSIONS)%nat ->
  (forall k s, In (k, s) (sweptSessions env w) ->
               fingerprint s <> SessionStore.generateFingerprint env req) ->
  fst (SessionApi.handler env req w)
  = json 200 (ClaimBody (randomHex env (draws w))
                        (clock env (ticks w + 1) + SESSION_TIMEOUT)
                        (Some 60000) "Session created successfully")
  /\ sessions (snd (SessionApi.handler env req w))
     = JsMap.set (randomHex env (draws w))
         (mkSession (SessionStore.generateFingerprint env req)
                    (clock env (ticks w + 2))
                    (clock env (ticks w + 1) + SESSION_TIMEOUT)
                    (clock env (ticks w + 3)) true)
         (sweptSessions env w)
  /\ (JsMap.get (randomHex env (draws w)) (sweptSessions env w) = None ->
      sessions (snd (SessionApi.handler env req w))
      = sweptSessions env w
        ++ [(randomHex env (draws w),
             mkSession (SessionStore.generateFingerprint env req)
                       (clock env (ticks w + 2))
                       (clock env (ticks w + 1) + SESSION_TIMEOUT)
                       (clock env (ticks w + 3)) true)])
  /\ ticks (snd (SessionApi.handler env req w)) = (ticks w + 4)%nat
  /\ draws (snd (SessionApi.handler env req w)) = S (draws w).
Proof.
  intros Hc Hroom Hnone.
  rewrite (handler_claim env req w Hc), claim_unfold.
  assert (Hcap : (MAX_SESSIONS <=? List.length (sessions (afterSweep env w)))%nat = false)
    by (apply Nat.leb_gt; exact Hroom).
  rewrite Hcap. cbv zeta.
  rewrite (findExisting_no_match env _ (sessions (afterSweep env w)) _ Hnone).
  cbn [fst snd sessions afterSweep ticks draws expiresAt].
  replace (ticks w + 1)%nat with (S (ticks w)) by lia.
  replace (ticks w + 2)%nat with (S (S (ticks w))) by lia.
  replace (ticks w + 3)%nat with (S (S (S (ticks w)))) by lia.
  repeat split.
  - intros G. now apply set_fresh.
  - lia.
Qed.

Lemma claim_creates_session_witness :
  let env := Scenario.env_at (fun i => Z.of_nat i) in
  fst (SessionApi.handler env (Scenario.claimFrom "a" "b") initial)
  = json 200 (ClaimBody "key-0" 300001 (Some 60000) "Session created successfully")
  /\ sessions (snd (SessionApi.handler env (Scenario.claimFrom "a" "b") initial))
     = [("key-0", mkSession "ab" 2 300001 3 true)].
Proof.
  cbv zeta.
  pose proof (claim_creates_session
                (Scenario.env_at (fun i => Z.of_nat i))
                (Scenario.claimFrom "a" "b") initial eq_refl) as H.
  destruct H as (Hr & Hs & _).
  - unfold JsMap.size, MAX_SESSIONS. simpl. lia.
  - intros k s [].
  - split; [exact Hr|exact Hs].
Defined.

(** X4.  A heartbeat or a release whose [X-Session-Key] header is missing or
    empty is answered 400; the table changes by the opening sweep only. *)
Theorem missing_session_key_rejected env req w :
  isHeartbeat req = true \/ isRelease req = true ->
  Js.truthy (x_session_key req) = false ->
  SessionApi.handler env req w
  = (json 400 (ErrorBody "Missing X-Session-Key header" None), afterSweep env w).
Proof.
  intros [Hh|Hr] Hk.
  - rewrite (handler_heartbeat env req w Hh).
    unfold SessionApi.heartbeat. now rewrite Hk.
  - rewrite (handler_release env req w Hr).
    unfold SessionApi.release. now rewrite Hk.
Qed.

Lemma missing_session_key_rejected_witness :
  status (fst (SessionApi.handler Scenario.frozen
                 (mkRequest "POST" (Some "/api/session/release?x=1") (Some "a") None
                            (Some "b") (Some "") Js.Undefined)
                 initial)) = 400.
Proof.
  rewrite (missing_session_key_rejected Scenario.frozen
             (mkRequest "POST" (Some "/api/session/release?x=1") (Some "a") None
                        (Some "b") (Some "") Js.Undefined)
             initial (or_intror eq_refl) eq_refl).
  reflexivity.
Defined.

(** X5.  An OPTIONS request is answered 200 with no body before anything
    else happens: no sweep, no clock reading.  Any other request that is not
    GET .../claim, POST .../heartbeat or POST .../release is answered 404
    "Not found" after the sweep; so is a claim sent as POST. *)
Theorem preflight_and_unknown_route env req w :
  (method req = "OPTIONS" ->
   SessionApi.handler env req w = (mkResponse 200 NoBody, w))
  /\ (method req <> "OPTIONS" ->
      isClaim req = false -> isHeartbeat req = false ->
      Js.endsWith (path req) "/release" && (method req =? "POST")%string = false ->
      SessionApi.handler env req w
      = (json 404 (ErrorBody "Not found" None), afterSweep env w)).
Proof.
  split.
  - intros Hm. unfold SessionApi.handler. now rewrite Hm.
  - intros Hm Hc Hh Hr. unfold SessionApi.handler.
    apply String.eqb_neq in Hm. rewrite Hm.
    unfold bind. rewrite cleanup_run.
    unfold isClaim, isHeartbeat, path in *. now rewrite Hc, Hh, Hr.
Qed.

Lemma preflight_and_unknown_route_witness :
  SessionApi.handler Scenario.frozen
    (mkRequest "POST" (Some "/api/session/claim") (Some "a") None (Some "b") None Js.Undefined)
    initial
  = (json 404 (ErrorBody "Not found" None), afterSweep Scenario.frozen initial).
Proof.
  apply (proj2 (preflight_and_unknown_route Scenario.frozen
                  (mkRequest "POST" (Some "/api/session/claim") (Some "a") None
                             (Some "b") None Js.Undefined)
                  initial)); try reflexivity.
  discriminate.
Defined.

(** ** The size of the table *)

Section Bounded.
Variable env : Env.

Lemma claim_bounded req w :
  (List.length (sessions w) <= MAX_SESSIONS)%nat ->
  (List.length (sessions (snd (SessionApi.claim env req w))) <= MAX_SESSIONS)%nat.
Proof.
  intros Hb. rewrite claim_unfold.
  destruct (Nat.leb_spec MAX_SESSIONS (List.length (sessions w))) as [_|Hroom];
    [exact Hb|].
  cbv zeta.
  destruct (findExisting_frame env (SessionStore.generateFingerprint env req)
              (sessions w) w) as (n & _ & E).
  destruct (SessionApi.findExisting env _ (sessions w) w) as [[[k s]|] w1];
    simpl in E; subst w1; cbn [snd sessions]; [exact Hb|].
  match goal with |- context [JsMap.set ?k ?v ?m] =>
    pose proof (set_length m k v) end. lia.
Qed.

Lemma heartbeat_bounded req w :
  (List.length (sessions w) <= MAX_SESSIONS)%nat ->
  (List.length (sessions (snd (SessionApi.heartbeat env req w))) <= MAX_SESSIONS)%nat.
Proof.
  intros Hb. unfold SessionApi.heartbeat, bind, getSessions.
  destruct (negb (Js.truthy (x_session_key req))); [exact Hb|].
  destruct (JsMap.get _ (sessions w)) as [s|] eqn:G; [|exact Hb].
  destruct (negb (fingerprint s =? _)%string); [exact Hb|].
  cbn [snd sessions Date_now putSessions ret fst].
  simpl. now rewrite (set_existing_length _ _ _ _ G).
Qed.

Lemma release_bounded req w :
  (List.length (sessions w) <= MAX_SESSIONS)%nat ->
  (List.length (sessions (snd (SessionApi.release env req w))) <= MAX_SESSIONS)%nat.
Proof.
  intros Hb. unfold SessionApi.release, bind, getSessions.
  destruct (negb (Js.truthy (x_session_key req))); [exact Hb|].
  destruct (JsMap.get _ (sessions w)) as [s|]; [|exact Hb].
  destruct (fingerprint s =? _)%string; [|exact Hb].
  simpl. match goal with |- context [JsMap.delete ?k ?m] =>
    pose proof (delete_length m k) end. lia.
Qed.

Lemma session_handler_bounded req :
  preserves (fun w => (List.length (sessions w) <= MAX_SESSIONS)%nat)
            (SessionApi.handler env req).
Proof.
  intros w Hb. unfold SessionApi.handler.
  destruct (method req =? "OPTIONS")%string; [exact Hb|].
  unfold bind. rewrite cleanup_run.
  assert (Hsw : (List.length (sessions (afterSweep env w)) <= MAX_SESSIONS)%nat).
  { simpl. unfold sweptSessions.
    pose proof (cleanup_loop_length (now env w) (sessions w)). lia. }
  repeat match goal with
         | |- context [if ?b then _ else _] => destruct b
         end;
    [now apply claim_bounded|now apply heartbeat_bounded
    |now apply release_bounded|exact Hsw].
Qed.

Lemma validateSession_bounded k req :
  preserves (fun w => (List.length (sessions w) <= MAX_SESSIONS)%nat)
            (SessionStore.validateSession env k req).
Proof.
  intros w Hb. unfold SessionStore.validateSession, bind, getSessions.
  destruct (JsMap.get k (sessions w)) as [s|]; [|exact Hb].
  unfold Date_now. destruct (clock env (ticks w) >? expiresAt s).
  - simpl. pose proof (delete_length (sessions w) k). lia.
  - destruct (negb (fingerprint s =? _)%string); exact Hb.
Qed.

Lemma vision_handler_bounded req :
  preserves (fun w => (List.length (sessions w) <= MAX_SESSIONS)%nat)
            (Vision.handler env req).
Proof.
  unfold Vision.handler, Vision.validateSessionKey.
  repeat first
    [ apply preserves_ret
    | apply validateSession_bounded
    | apply (frames_preserves sessions
               (fun ss => (List.length ss <= MAX_SESSIONS)%nat));
      first [apply checkRateLimit_frames_sessions | intros ?; reflexivity]
    | apply preserves_bind; [|intros ?]
    | match goal with
      | |- preserves _ (if ?b then _ else _) => destruct b
      | |- preserves _ (match ?x with _ => _ end) => destruct x
      end ].
Qed.

End Bounded.

(** X6.  In every state the process can reach, the session table holds at
    most [MAX_SESSIONS] sessions. *)
Theorem session_table_bounded env w :
  reachable env w -> (JsMap.size (sessions w) <= MAX_SESSIONS)%nat.
Proof.
  unfold JsMap.size. induction 1 as [|req w R IH|req w R IH].
  - simpl. unfold MAX_SESSIONS. lia.
  - now apply session_handler_bounded.
  - now apply vision_handler_bounded.
Qed.

Lemma session_table_bounded_witness :
  (JsMap.size (sessions (snd (serve Scenario.frozen
                                (Scenario.hundred ++ [Scenario.client 100]) initial)))
   <= MAX_SESSIONS)%nat.
Proof.
  apply (session_table_bounded Scenario.frozen).
  apply serve_reachable. constructor.
Defined.

(** ** The sweep and the validation *)

Lemma cleanup_loop_filter t ss :
  SessionStore.cleanup_loop t ss = filter (fun e => live t (snd e)) ss.
Proof.
  unfold live. induction ss as [|[k s] r IH]; simpl; [reflexivity|].
  destruct (t >? expiresAt s); simpl; now rewrite IH.
Qed.

Lemma cleanup_loop_twice t1 t2 ss :
  t1 <= t2 ->
  SessionStore.cleanup_loop t2 (SessionStore.cleanup_loop t1 ss)
  = SessionStore.cleanup_loop t2 ss.
Proof.
  intros Ht. induction ss as [|[k s] r IH]; simpl; [reflexivity|].
  destruct (Z.gtb_spec t1 (expiresAt s)) as [H1|H1]; simpl.
  - destruct (Z.gtb_spec t2 (expiresAt s)); [exact IH|lia].
  - destruct (t2 >? expiresAt s); now rewrite IH.
Qed.

(** X7.  The sweep keeps, in their order, exactly the sessions with
    [now <= expiresAt]; a second sweep right after the first leaves what one
    sweep at the second clock reading leaves, provided the clock did not run
    backwards between the two. *)
Theorem sweep_keeps_live_and_composes env w :
  sessions (snd (SessionStore.cleanupExpiredSessions env w))
  = filter (fun e => live (now env w) (snd e)) (sessions w)
  /\ (clock env (ticks w) <= clock env (S (ticks w)) ->
      sessions (snd (SessionStore.cleanupExpiredSessions env
                       (snd (SessionStore.cleanupExpiredSessions env w))))
      = filter (fun e => live (clock env (S (ticks w))) (snd e)) (sessions w)).
Proof.
  rewrite !cleanup_run. cbn [snd sessions afterSweep]. unfold sweptSessions.
  split; [apply cleanup_loop_filter|].
  intros Hm. unfold now. cbn [ticks afterSweep sessions].
  unfold sweptSessions, now.
  rewrite cleanup_loop_twice by exact Hm. apply cleanup_loop_filter.
Qed.

Lemma sweep_keeps_live_and_composes_witness :
  let env := Scenario.env_at (fun i => 10 * Z.of_nat i) in
  let w := mkWorld [("a", mkSession "x" 0 5 0 true); ("b", mkSession "y" 0 10 0 true);
                    ("c", mkSession "z" 0 20 0 true)] [] 1 0 [] in
  sessions (snd (SessionStore.cleanupExpiredSessions env
                   (snd (SessionStore.cleanupExpiredSessions env w))))
  = [("c", mkSession "z" 0 20 0 true)].
Proof.
  cbv zeta.
  rewrite (proj2 (sweep_keeps_live_and_composes
                    (Scenario.env_at (fun i => 10 * Z.of_nat i))
                    (mkWorld [("a", mkSession "x" 0 5 0 true);
                              ("b", mkSession "y" 0 10 0 true);
                              ("c", mkSession "z" 0 20 0 true)] [] 1 0 []))).
  - reflexivity.
  - simpl. lia.
Defined.

Section Validation.
Variable env : Env.

Lemma validateSession_unfold k req w :
  SessionStore.validateSession env k req w
  = match JsMap.get k (sessions w) with
    | None => (SessionStore.Invalid "Session not found or expired", w)
    | Some s =>
        if now env w >? expiresAt s then
          (SessionStore.Invalid "Session expired",
           mkWorld (JsMap.delete k (sessions w)) (rateLimitMap w) (S (ticks w))
                   (draws w) (trace w))
        else if (fingerprint s =? SessionStore.generateFingerprint env req)%string then
          (SessionStore.Valid,
           mkWorld (sessions w) (rateLimitMap w) (S (ticks w)) (draws w) (trace w))
        else
          (SessionStore.Invalid "Session fingerprint mismatch",
           mkWorld (sessions w) (rateLimitMap w) (S (ticks w)) (draws w) (trace w))
    end.
Proof.
  unfold SessionStore.validateSession, bind, getSessions, Date_now, now.
  destruct (JsMap.get k (sessions w)) as [s|]; [|reflexivity].
  destruct (clock env (ticks w) >? expiresAt s); [reflexivity|].
  destruct (fingerprint s =? _)%string; reflexivity.
Qed.

End Validation.

(** X8.  [validateSession] says valid exactly when the key is in the table,
    its session has not expired ([now <= expiresAt]) and the fingerprints
    agree, and then it leaves the table alone.  It never touches another
    key, and it removes the presented key only when its session has expired;
    in a well-formed table the expired session is then gone, so that a second
    validation reports the key as not found. *)
Theorem validateSession_outcomes env k req w :
  (fst (SessionStore.validateSession env k req w) = SessionStore.Valid
   <-> exists s, JsMap.get k (sessions w) = Some s
                 /\ now env w <= expiresAt s
                 /\ fingerprint s = SessionStore.generateFingerprint env req)
  /\ (fst (SessionStore.validateSession env k req w) = SessionStore.Valid ->
      sessions (snd (SessionStore.validateSession env k req w)) = sessions w)
  /\ (forall k', k' <> k ->
        JsMap.get k' (sessions (snd (SessionStore.validateSession env k req w)))
        = JsMap.get k' (sessions w))
  /\ (JsMap.get k (sessions (snd (SessionStore.validateSession env k req w)))
      = JsMap.get k (sessions w)
      \/ exists s, JsMap.get k (sessions w) = Some s /\ expiresAt s < now env w)
  /\ (JsMap.wf (sessions w) ->
      forall s, JsMap.get k (sessions w) = Some s -> expiresAt s < now env w ->
        fst (SessionStore.validateSession env k req w)
        = SessionStore.Invalid "Session expired"
        /\ fst (SessionStore.validateSession env k req
                  (snd (SessionStore.validateSession env k req w)))
           = SessionStore.Invalid "Session not found or expired").
Proof.
  rewrite validateSession_unfold.
  destruct (JsMap.get k (sessions w)) as [s|] eqn:G.
  - destruct (Z.gtb_spec (now env w) (expiresAt s)) as [Hexp|Hlive].
    + cbn [fst snd sessions]. split; [|split; [|split; [|split]]].
      * split; [discriminate|]. intros (s' & E & H & _).
        injection E as <-. lia.
      * discriminate.
      * intros k' Hk'. now apply get_delete_other.
      * right. exists s. split; [reflexivity|lia].
      * intros Hwf s' E _. split; [reflexivity|].
        rewrite validateSession_unfold. cbn [sessions].
        now rewrite (get_delete_same _ _ Hwf).
    + destruct (String.eqb_spec (fingerprint s)
                  (SessionStore.generateFingerprint env req)) as [Hfp|Hfp];
        cbn [fst snd sessions].
      * split; [|split; [|split; [|split]]].
        -- split; [|reflexivity]. intros _. exists s. repeat split; assumption.
        -- reflexivity.
        -- reflexivity.
        -- left. exact G.
        -- intros _ s' E H. injection E as <-. lia.
      * split; [|split; [|split; [|split]]].
        -- split; [discriminate|]. intros (s' & E & _ & H).
           injection E as <-. contradiction.
        -- discriminate.
        -- reflexivity.
        -- left. exact G.
        -- intros _ s' E H. injection E as <-. lia.
  - cbn [fst snd]. split; [|split; [|split; [|split]]].
    + split; [discriminate|]. intros (s' & E & _). discriminate.
    + discriminate.
    + reflexivity.
    + left. exact G.
    + intros _ s' E. discriminate.
Qed.

(** ** Stored sessions and the clock *)

Section Timely.
Variable env : Env.
Hypothesis clock_monotone : monotone (clock env).

Lemma session_timely_later t t' s :
  t <= t' -> session_timely t s -> session_timely t' s.
Proof. unfold session_timely. intros Ht (C & A & B & E). repeat split; auto; lia. Qed.

(** A step that adds no session and does not turn the clock back. *)
Lemma all_timely_step w w' :
  (ticks w <= ticks w')%nat ->
  (forall e, In e (sessions w') -> In e (sessions w)) ->
  all_timely env w -> all_timely env w'.
Proof.
  intros Ht Hsub H k s I.
  apply (session_timely_later (now env w)); [now apply clock_monotone|].
  apply (H k). now apply Hsub.
Qed.

Lemma afterSweep_timely w : all_timely env w -> all_timely env (afterSweep env w).
Proof.
  apply all_timely_step; [simpl; lia|].
  intros [k s] I. simpl in I. apply cleanup_loop_In in I. tauto.
Qed.

Lemma claim_timely req w :
  all_timely env w -> all_timely env (snd (SessionApi.claim env req w)).
Proof.
  intros H. rewrite claim_unfold.
  destruct (MAX_SESSIONS <=? List.length (sessions w))%nat; [exact H|].
  cbv zeta.
  destruct (findExisting_frame env (SessionStore.generateFingerprint env req)
              (sessions w) w) as (n & _ & E).
  destruct (SessionApi.findExisting env _ (sessions w) w) as [[[k s]|] w1];
    simpl in E; subst w1; cbn [snd].
  - revert H. apply all_timely_step; [simpl; lia|auto].
  - intros k s I. cbn [sessions] in I. unfold now. cbn [ticks].
    apply set_In in I as [[= -> ->]|I].
    + unfold session_timely. cbn [claimed createdAt lastHeartbeat expiresAt].
      pose proof (clock_monotone (S (ticks w + n)) (S (S (ticks w + n)))).
      pose proof (clock_monotone (S (S (ticks w + n))) (S (S (S (ticks w + n))))).
      pose proof (clock_monotone (ticks w + n)%nat (S (S (S (ticks w + n))))).
      repeat split; lia.
    + apply (session_timely_later (now env w));
        [apply clock_monotone; lia|exact (H k s I)].
Qed.

Lemma heartbeat_timely req w :
  all_timely env w -> all_timely env (snd (SessionApi.heartbeat env req w)).
Proof.
  intros H. unfold SessionApi.heartbeat, bind, getSessions.
  destruct (negb (Js.truthy (x_session_key req))); [exact H|].
  destruct (JsMap.get _ (sessions w)) as [s|] eqn:G; [|exact H].
  destruct (negb (fingerprint s =? _)%string); [exact H|].
  cbn [Date_now putSessions ret fst snd sessions ticks].
  intros k' s' I. cbn [sessions] in I. unfold now. cbn [ticks].
  apply get_In in G. destruct (H _ _ G) as (C & A & B & E). unfold now in *.
  pose proof (clock_monotone (ticks w) (S (ticks w))).
  pose proof (clock_monotone (S (ticks w)) (S (S (ticks w)))).
  apply set_In in I as [[= -> ->]|I].
  - unfold session_timely. cbn [claimed createdAt lastHeartbeat expiresAt].
    repeat split; auto; lia.
  - apply (session_timely_later (clock env (ticks w))); [lia|exact (H k' s' I)].
Qed.

Lemma release_timely req w :
  all_timely env w -> all_timely env (snd (SessionApi.release env req w)).
Proof.
  intros H. unfold SessionApi.release, bind, getSessions.
  destruct (negb (Js.truthy (x_session_key req))); [exact H|].
  destruct (JsMap.get _ (sessions w)) as [s|]; [|exact H].
  destruct (fingerprint s =? _)%string; [|exact H].
  revert H. apply all_timely_step; [simpl; lia|].
  intros e I. simpl in I. eapply delete_In. exact I.
Qed.

Lemma session_handler_timely req : preserves (all_timely env) (SessionApi.handler env req).
Proof.
  intros w H. unfold SessionApi.handler.
  destruct (method req =? "OPTIONS")%string; [exact H|].
  unfold bind. rewrite cleanup_run.
  pose proof (afterSweep_timely w H) as Hsw.
  repeat match goal with
         | |- context [if ?b then _ else _] => destruct b
         end;
    [now apply claim_timely|now apply heartbeat_timely
    |now apply release_timely|exact Hsw].
Qed.

Lemma validateSession_timely k req :
  preserves (all_timely env) (SessionStore.validateSession env k req).
Proof.
  intros w H. rewrite validateSession_unfold.
  destruct (JsMap.get k (sessions w)) as [s|]; [|exact H].
  destruct (now env w >? expiresAt s);
    [|destruct (fingerprint s =? _)%string];
    revert H; apply all_timely_step; simpl; auto.
  intros e I. eapply delete_In. exact I.
Qed.

(** A computation that leaves the table alone and only reads the clock. *)
Lemma reader_timely {A} (m : M A) :
  (forall w, sessions (snd (m w)) = sessions w
             /\ (ticks w <= ticks (snd (m w)))%nat) ->
  preserves (all_timely env) m.
Proof.
  intros Hm w. destruct (Hm w) as [Es Et].
  apply all_timely_step; [exact Et|]. now rewrite Es.
Qed.

Lemma checkRateLimit_timely identifier :
  preserves (all_timely env) (Vision.checkRateLimit env identifier).
Proof.
  apply reader_timely. intros w. rewrite checkRateLimit_unfold. cbv zeta.
  match goal with |- context [if ?b then _ else _] => destruct b end;
    simpl; split; auto.
Qed.

Lemma vision_handler_timely req : preserves (all_timely env) (Vision.handler env req).
Proof.
  unfold Vision.handler, Vision.validateSessionKey.
  repeat first
    [ apply preserves_ret
    | apply validateSession_timely
    | apply checkRateLimit_timely
    | apply preserves_bind; [|intros ?]
    | match goal with
      | |- preserves _ (if ?b then _ else _) => destruct b
      | |- preserves _ (match ?x with _ => _ end) => destruct x
      end
    | (apply reader_timely; intros ?; simpl; split; [reflexivity|lia]) ].
Qed.

Lemma reachable_all_timely w : reachable env w -> all_timely env w.
Proof.
  induction 1 as [|req w R IH|req w R IH].
  - intros k s [].
  - now apply session_handler_timely.
  - now apply vision_handler_timely.
Qed.

End Timely.

(** X9.  With a clock that does not run backwards, every session of every
    reachable state is marked claimed, was created no later than its last
    heartbeat, has its last heartbeat no later than the present, and expires
    at most [SESSION_TIMEOUT] after the present: without a heartbeat no
    session outlives the timeout. *)
Theorem stored_sessions_timely env w k s :
  monotone (clock env) ->
  reachable env w ->
  In (k, s) (sessions w) ->
  session_timely (now env w) s.
Proof.
  intros Hm R I. exact (reachable_all_timely env Hm w R k s I).
Qed.

Lemma stored_sessions_timely_witness :
  let w := snd (serve Scenario.frozen [Scenario.client 0] initial) in
  session_timely (now Scenario.frozen w) (mkSession "10.0.0.0agent" 0 300000 0 true).
Proof.
  cbv zeta.
  apply (stored_sessions_timely Scenario.frozen _ "key-0").
  - exact frozen_monotone.
  - apply serve_reachable. constructor.
  - simpl. left. reflexivity.
Defined.

(** ** A client's hold on its key, across requests (C1) *)

Section MapSplits.
Context {V : Type}.
Implicit Types (m pre post : JsMap.t V) (k : string) (v : V).

(** Deleting another key leaves an entry where it is, between what is left
    of its predecessors and of its successors. *)
Lemma delete_split m k' pre k v post :
  m = pre ++ (k, v) :: post -> k' <> k ->
  exists pre' post',
    JsMap.delete k' m = pre' ++ (k, v) :: post'
    /\ (forall e, In e pre' -> In e pre).
Proof.
  intros -> Hne. induction pre as [|[k1 v1] r IH]; simpl.
  - destruct (String.eqb_spec k k') as [E|_]; [now contradiction Hne|].
    exists [], (JsMap.delete k' post). split; [reflexivity|intros x []].
  - destruct (String.eqb_spec k1 k') as [Heq|Hneq].
    + exists r, post. split; [reflexivity|]. intros x I. now right.
    + destruct IH as (pre' & post' & E & Hin).
      exists ((k1, v1) :: pre'), post'. rewrite E. split; [reflexivity|].
      intros x [<-|I]; [now left|right; now apply Hin].
Qed.

(** Setting another key does the same, the new value possibly among the
    predecessors. *)
Lemma set_split_other m k' v' pre k v post :
  m = pre ++ (k, v) :: post -> k' <> k ->
  exists pre' post',
    JsMap.set k' v' m = pre' ++ (k, v) :: post'
    /\ (forall e, In e pre' -> In e pre \/ e = (k', v')).
Proof.
  intros -> Hne. induction pre as [|[k1 v1] r IH]; simpl.
  - destruct (String.eqb_spec k k') as [E|_]; [now contradiction Hne|].
    exists [], (JsMap.set k' v' post). split; [reflexivity|intros x []].
  - destruct (String.eqb_spec k1 k') as [Heq|Hneq].
    + exists ((k', v') :: r), post. split; [reflexivity|].
      intros x [<-|I]; [now right|left; now right].
    + destruct IH as (pre' & post' & E & Hin).
      exists ((k1, v1) :: pre'), post'. rewrite E. split; [reflexivity|].
      intros x [<-|I]; [left; now left|].
      destruct (Hin x I) as [I' | ->]; [left; now right|now right].
Qed.

(** Setting the key of an entry of a well-formed map rewrites that entry. *)
Lemma set_at m pre k v v' post :
  JsMap.wf m -> m = pre ++ (k, v) :: post ->
  JsMap.set k v' m = pre ++ (k, v') :: post.
Proof.
  intros Hwf ->. unfold JsMap.wf, JsMap.keys in Hwf.
  induction pre as [|[k1 v1] r IH]; simpl in *.
  - now rewrite String.eqb_refl.
  - inversion Hwf as [|? ? Hnot Hnd]; subst.
    destruct (String.eqb_spec k1 k) as [->|_].
    + exfalso. apply Hnot. rewrite map_app, in_app_iff. right. now left.
    + now rewrite IH.
Qed.

Lemma split_get m pre k v post :
  JsMap.wf m -> m = pre ++ (k, v) :: post -> JsMap.get k m = Some v.
Proof.
  intros Hwf ->. apply wf_get_In; [exact Hwf|].
  apply in_or_app. right. now left.
Qed.

End MapSplits.

Section Hold.
Variable env : Env.
Hypothesis clock_monotone : monotone (clock env).
Implicit Types (w : World) (req : Request) (fp k : string) (s : Session).

Lemma anchored_get fp k s t ss :
  JsMap.wf ss -> anchored fp k s t ss -> JsMap.get k ss = Some s.
Proof. intros Hwf (pre & post & E & _). exact (split_get ss pre k s post Hwf E). Qed.

Lemma anchored_sweep fp k s t t' ss :
  anchored fp k s t ss -> t' <= expiresAt s ->
  anchored fp k s t (SessionStore.cleanup_loop t' ss).
Proof.
  intros (pre & post & -> & F & D) Hlive.
  exists (SessionStore.cleanup_loop t' pre), (SessionStore.cleanup_loop t' post).
  repeat split; [|exact F|].
  - rewrite cleanup_loop_app. simpl.
    destruct (Z.gtb_spec t' (expiresAt s)); [lia|reflexivity].
  - intros k' s' I F'. apply cleanup_loop_In in I as [I _]. exact (D k' s' I F').
Qed.

Lemma anchored_delete fp k s t ss k' :
  anchored fp k s t ss -> k' <> k -> anchored fp k s t (JsMap.delete k' ss).
Proof.
  intros (pre & post & E & F & D) Hne.
  destruct (delete_split ss k' pre k s post E Hne) as (pre' & post' & E' & Hin).
  exists pre', post'. repeat split; [exact E'|exact F|].
  intros k1 s1 I. apply (D k1 s1). now apply Hin.
Qed.

Lemma anchored_set_other fp k s t ss k' s' :
  anchored fp k s t ss -> k' <> k -> fingerprint s' <> fp ->
  anchored fp k s t (JsMap.set k' s' ss).
Proof.
  intros (pre & post & E & F & D) Hne Hfp.
  destruct (set_split_other ss k' s' pre k s post E Hne) as (pre' & post' & E' & Hin).
  exists pre', post'. repeat split; [exact E'|exact F|].
  intros k1 s1 I F1. destruct (Hin _ I) as [I' | [= -> ->]]; [eauto|contradiction].
Qed.

Lemma anchored_set_same fp k s t ss s' :
  JsMap.wf ss -> anchored fp k s t ss -> fingerprint s' = fp ->
  anchored fp k s' t (JsMap.set k s' ss).
Proof.
  intros Hwf (pre & post & E & F & D) Hfp.
  exists pre, post. repeat split; [|exact Hfp|exact D].
  exact (set_at ss pre k s s' post Hwf E).
Qed.

(** *** The session endpoint, route by route *)

Lemma handler_routes req w :
  SessionApi.handler env req w
  = if (method req =? "OPTIONS")%string then (mkResponse 200 NoBody, w)
    else if isClaim req then SessionApi.claim env req (afterSweep env w)
    else if isHeartbeat req then SessionApi.heartbeat env req (afterSweep env w)
    else if isRelease req then SessionApi.release env req (afterSweep env w)
    else (json 404 (ErrorBody "Not found" None), afterSweep env w).
Proof.
  destruct (isClaim req) eqn:Ec.
  { rewrite (handler_claim env req w Ec).
    apply andb_prop in Ec as [_ Hm].
    now rewrite (method_not_options _ _ Hm) by discriminate. }
  destruct (isHeartbeat req) eqn:Eh.
  { rewrite (handler_heartbeat env req w Eh).
    apply andb_prop in Eh as [_ Hm].
    now rewrite (method_not_options _ _ Hm) by discriminate. }
  destruct (isRelease req) eqn:Er.
  { rewrite (handler_release env req w Er).
    apply andb_prop in Er as [_ Hm].
    now rewrite (method_not_options _ _ Hm) by discriminate. }
  unfold SessionApi.handler.
  destruct (method req =? "OPTIONS")%string; [reflexivity|].
  unfold bind. rewrite cleanup_run.
  unfold isClaim, isHeartbeat, isRelease, path in Ec, Eh, Er.
  rewrite Ec, Eh.
  destruct (Js.endsWith _ "/release" && (method req =? "POST")%string) eqn:E;
    [|reflexivity].
  exfalso. apply andb_prop in E as [Ep Em]. rewrite Ep, Em in *.
  rewrite andb_true_r in Eh. rewrite Eh in Er. discriminate.
Qed.

(** What a heartbeat does to the table. *)
Lemma heartbeat_sessions req a :
  sessions (snd (SessionApi.heartbeat env req a)) = sessions a
  \/ exists key s0,
       x_session_key req = Some key
       /\ JsMap.get key (sessions a) = Some s0
       /\ fingerprint s0 = SessionStore.generateFingerprint env req
       /\ sessions (snd (SessionApi.heartbeat env req a))
          = JsMap.set key
              (mkSession (fingerprint s0) (createdAt s0)
                         (clock env (S (ticks a)) + SESSION_TIMEOUT)
                         (clock env (ticks a)) (claimed s0))
              (sessions a).
Proof.
  unfold SessionApi.heartbeat.
  destruct (x_session_key req) as [key|] eqn:Ek; cbn [Js.truthy Js.or_lit negb];
    [|now left].
  destruct (key =? "")%string; cbn [negb]; [now left|].
  unfold bind, getSessions. cbn [fst snd].
  destruct (JsMap.get key (sessions a)) as [s0|] eqn:G; [|now left].
  destruct (String.eqb_spec (fingerprint s0) (SessionStore.generateFingerprint env req))
    as [F|_]; cbn [negb]; [|now left].
  right. exists key, s0. repeat split; auto.
Qed.

(** What a release does to the table. *)
Lemma release_sessions req a :
  sessions (snd (SessionApi.release env req a)) = sessions a
  \/ exists key s0,
       x_session_key req = Some key
       /\ JsMap.get key (sessions a) = Some s0
       /\ fingerprint s0 = SessionStore.generateFingerprint env req
       /\ sessions (snd (SessionApi.release env req a)) = JsMap.delete key (sessions a).
Proof.
  unfold SessionApi.release.
  destruct (x_session_key req) as [key|] eqn:Ek; cbn [Js.truthy Js.or_lit negb];
    [|now left].
  destruct (key =? "")%string; cbn [negb]; [now left|].
  unfold bind, getSessions. cbn [fst snd].
  destruct (JsMap.get key (sessions a)) as [s0|] eqn:G; [|now left].
  destruct (String.eqb_spec (fingerprint s0) (SessionStore.generateFingerprint env req))
    as [F|_]; [|now left].
  right. exists key, s0. repeat split; auto.
Qed.

(** What a claim does to the table. *)
Lemma claim_sessions req a :
  sessions (snd (SessionApi.claim env req a)) = sessions a
  \/ sessions (snd (SessionApi.claim env req a))
     = JsMap.set (randomHex env (draws a))
         (mkSession (SessionStore.generateFingerprint env req)
            (clock env (S (ticks (snd (SessionApi.findExisting env
                                         (SessionStore.generateFingerprint env req)
                                         (sessions a) a)))))
            (clock env (ticks (snd (SessionApi.findExisting env
                                      (SessionStore.generateFingerprint env req)
                                      (sessions a) a)))
             + SESSION_TIMEOUT)
            (clock env (S (S (ticks (snd (SessionApi.findExisting env
                                            (SessionStore.generateFingerprint env req)
                                            (sessions a) a))))))
            true)
         (sessions a).
Proof.
  rewrite (claim_unfold env).
  destruct (MAX_SESSIONS <=? List.length (sessions a))%nat; [now left|].
  cbv zeta.
  destruct (findExisting_frame env (SessionStore.generateFingerprint env req)
              (sessions a) a) as (n & _ & E).
  destruct (SessionApi.findExisting env _ (sessions a) a) as [[[k1 s1]|] w1];
    cbn [fst snd] in *; subst w1; cbn [sessions draws ticks]; [now left|now right].
Qed.

(** The endpoints never set the clock or the key counter back. *)
Lemma heartbeat_ticks req a :
  (ticks a <= ticks (snd (SessionApi.heartbeat env req a)))%nat
  /\ draws (snd (SessionApi.heartbeat env req a)) = draws a.
Proof.
  unfold SessionApi.heartbeat.
  destruct (negb (Js.truthy (x_session_key req))); [simpl; lia|].
  unfold bind, getSessions. cbn [fst snd].
  destruct (JsMap.get _ (sessions a)) as [s0|]; [|simpl; lia].
  destruct (negb (fingerprint s0 =? _)%string); simpl; lia.
Qed.

Lemma release_ticks req a :
  ticks (snd (SessionApi.release env req a)) = ticks a
  /\ draws (snd (SessionApi.release env req a)) = draws a.
Proof.
  unfold SessionApi.release.
  destruct (negb (Js.truthy (x_session_key req))); [now simpl|].
  unfold bind, getSessions. cbn [fst snd].
  destruct (JsMap.get _ (sessions a)) as [s0|]; [|now simpl].
  destruct (fingerprint s0 =? _)%string; now simpl.
Qed.

Lemma claim_draws req a :
  (draws a <= draws (snd (SessionApi.claim env req a)))%nat.
Proof.
  rewrite (claim_unfold env).
  destruct (MAX_SESSIONS <=? List.length (sessions a))%nat; [simpl; lia|].
  cbv zeta.
  destruct (findExisting_frame env (SessionStore.generateFingerprint env req)
              (sessions a) a) as (n & _ & E).
  destruct (SessionApi.findExisting env _ (sessions a) a) as [[[k1 s1]|] w1];
    cbn [fst snd] in *; subst w1; simpl; lia.
Qed.

Lemma session_handler_ticks req w :
  (ticks w <= ticks (snd (SessionApi.handler env req w)))%nat
  /\ (draws w <= draws (snd (SessionApi.handler env req w)))%nat.
Proof.
  rewrite handler_routes.
  destruct (method req =? "OPTIONS")%string; [simpl; lia|].
  destruct (isClaim req).
  { pose proof (claim_ticks env req (afterSweep env w)).
    pose proof (claim_draws req (afterSweep env w)). simpl in *. lia. }
  destruct (isHeartbeat req).
  { pose proof (heartbeat_ticks req (afterSweep env w)). simpl in *. lia. }
  destruct (isRelease req).
  { pose proof (release_ticks req (afterSweep env w)). simpl in *. lia. }
  simpl. lia.
Qed.

(** *** The vision endpoint *)

(** The vision endpoint leaves the table alone, or deletes one entry that
    its reading of the clock found expired. *)
Lemma vision_handler_sessions req w :
  (ticks w <= ticks (snd (Vision.handler env req w)))%nat
  /\ draws (snd (Vision.handler env req w)) = draws w
  /\ (sessions (snd (Vision.handler env req w)) = sessions w
      \/ exists key s0,
           JsMap.get key (sessions w) = Some s0
           /\ expiresAt s0 < now env w
           /\ sessions (snd (Vision.handler env req w))
              = JsMap.delete key (sessions w)).
Proof.
  set (P := fun w' : World =>
              (ticks w <= ticks w')%nat
              /\ draws w' = draws w
              /\ (sessions w' = sessions w
                  \/ exists key s0,
                       JsMap.get key (sessions w) = Some s0
                       /\ expiresAt s0 < now env w
                       /\ sessions w' = JsMap.delete key (sessions w))).
  change (P (snd (Vision.handler env req w))).
  assert (P0 : P w) by (unfold P; auto).
  assert (Reader : forall (A : Type) (m : M A),
             (forall a, sessions (snd (m a)) = sessions a
                        /\ draws (snd (m a)) = draws a
                        /\ (ticks a <= ticks (snd (m a)))%nat) ->
             preserves P m).
  { intros A m Hm a (T & D & S). destruct (Hm a) as (Es & Ed & Et).
    unfold P. rewrite Es, Ed. repeat split; [lia|exact D|exact S]. }
  unfold Vision.handler.
  destruct (method req =? "OPTIONS")%string; [exact P0|].
  destruct (negb (method req =? "POST")%string); [exact P0|].
  unfold bind at 1.
  assert (V : P (snd (Vision.validateSessionKey env req w))).
  { unfold Vision.validateSessionKey.
    destruct (negb (Js.truthy (x_session_key req))); [exact P0|].
    rewrite validateSession_unfold.
    destruct (JsMap.get _ (sessions w)) as [s0|] eqn:G; [|exact P0].
    destruct (Z.gtb_spec (now env w) (expiresAt s0)) as [Hgt|_].
    - unfold P. cbn [snd ticks draws sessions]. split; [lia|]. split; [reflexivity|].
      right. exists (Js.or_lit (x_session_key req) ""), s0.
      split; [exact G|]. split; [lia|reflexivity].
    - destruct (fingerprint s0 =? _)%string; unfold P;
        cbn [snd ticks draws sessions]; (split; [lia|auto]). }
  destruct (Vision.validateSessionKey env req w) as [v w1]. cbn [snd] in V.
  refine ((_ : preserves P _) w1 V).
  destruct v as [|reason]; [|apply preserves_ret].
  cbv zeta.
  repeat first
    [ apply preserves_ret
    | match goal with
      | |- preserves _ (Vision.checkRateLimit _ ?id) =>
          apply Reader; intros wx; rewrite checkRateLimit_unfold; cbv zeta;
          match goal with |- context [if ?b then _ else _] => destruct b end;
          cbn [snd sessions draws ticks]; repeat split; lia
      | |- preserves _ (emit _) => apply Reader; intros wx; cbn; repeat split; lia
      | |- preserves _ (Date_now _) => apply Reader; intros wx; cbn; repeat split; lia
      | |- preserves _ (if ?b then _ else _) => destruct b
      | |- preserves _ (match ?x with _ => _ end) => destruct x
      end
    | apply preserves_bind; [|intros ?] ].
Qed.

(** *** One call *)

Lemma call_ticks c w :
  (ticks w <= ticks (snd (call env c w)))%nat
  /\ (draws w <= draws (snd (call env c w)))%nat.
Proof.
  destruct c as [req|req]; cbn [call].
  - apply session_handler_ticks.
  - destruct (vision_handler_sessions req w) as (T & D & _). lia.
Qed.

Lemma call_reachable c w : reachable env w -> reachable env (snd (call env c w)).
Proof. destruct c; cbn [call]; now constructor. Qed.

Lemma calls_ticks cs w :
  (ticks w <= ticks (snd (calls env cs w)))%nat
  /\ (draws w <= draws (snd (calls env cs w)))%nat.
Proof.
  revert w. induction cs as [|c cs IH]; intros w; cbn [calls]; [simpl; lia|].
  pose proof (call_ticks c w) as T.
  destruct (call env c w) as [r w1]. cbn [snd] in T.
  specialize (IH w1). destruct (calls env cs w1) as [rs w2]. cbn [snd] in *. lia.
Qed.

Lemma calls_reachable cs w : reachable env w -> reachable env (snd (calls env cs w)).
Proof.
  revert w. induction cs as [|c cs IH]; intros w R; cbn [calls]; [exact R|].
  pose proof (call_reachable c w R) as R1.
  destruct (call env c w) as [r w1]. cbn [snd] in R1.
  specialize (IH w1 R1). now destruct (calls env cs w1) as [rs w2].
Qed.

(** A call that spares the hold leaves it in place, as long as the clock
    stays before [e]. *)
Lemma call_keeps_hold c w fp k e :
  reachable env w ->
  (forall i, (draws w <= i)%nat -> randomHex env i <> k) ->
  holds env fp k e w ->
  spares env fp k c = true ->
  now env (snd (call env c w)) < e ->
  holds env fp k e (snd (call env c w)).
Proof.
  intros R Hfresh (s & t & A & Ht & He) Hsp Hwin.
  pose proof (reachable_sessions_wf env w R) as Hwf.
  pose proof (reachable_all_timely env clock_monotone w R) as Htimely.
  pose proof (call_ticks c w) as [Tk _].
  assert (Mono : now env w <= now env (snd (call env c w)))
    by (apply clock_monotone; exact Tk).
  assert (Later : forall w', (ticks w <= ticks w')%nat -> t <= now env w').
  { intros w' Hw'. pose proof (clock_monotone _ _ Hw'). unfold now in *. lia. }
  assert (Gk : JsMap.get k (sessions w) = Some s) by exact (anchored_get _ _ _ _ _ Hwf A).
  unfold holds. destruct c as [req|req]; cbn [call spares] in *.
  - (* the session endpoint *)
    rewrite handler_routes in *.
    destruct (method req =? "OPTIONS")%string.
    { exists s, t. auto. }
    assert (Asw : anchored fp k s t (sessions (afterSweep env w)))
      by (apply anchored_sweep; [exact A|lia]).
    assert (Wsw : JsMap.wf (sessions (afterSweep env w)))
      by (simpl; now apply cleanup_loop_wf).
    assert (Gsw : JsMap.get k (sessions (afterSweep env w)) = Some s)
      by exact (anchored_get _ _ _ _ _ Wsw Asw).
    destruct (isClaim req) eqn:Ec.
    { (* a claim *)
      destruct (String.eqb_spec (SessionStore.generateFingerprint env req) fp)
        as [Efp|Nfp].
      - subst fp.
        destruct (claim_again env clock_monotone req w k s t Ec A Ht) as (_ & _ & A').
        { rewrite (handler_claim env req w Ec). lia. }
        rewrite (handler_claim env req w Ec) in A'.
        exists s, t. repeat split; [exact A'|apply Later; exact Tk|exact He].
      - exists s, t. repeat split; [|apply Later; exact Tk|exact He].
        destruct (claim_sessions req (afterSweep env w)) as [-> | ->];
          [exact Asw|].
        apply anchored_set_other; [exact Asw| |exact Nfp].
        apply Hfresh. simpl. lia. }
    destruct (isHeartbeat req) eqn:Eh.
    { (* a heartbeat *)
      destruct (heartbeat_sessions req (afterSweep env w))
        as [Es|(key & s0 & Ek & G & F & Es)]; rewrite Es.
      - exists s, t. repeat split; [exact Asw|apply Later; exact Tk|exact He].
      - destruct (String.eqb_spec key k) as [->|Nk].
        + rewrite Gsw in G. injection G as <-.
          eexists _, t. repeat split;
            [apply (anchored_set_same fp k s t _ _ Wsw Asw)
            |apply Later; exact Tk|].
          * cbn [fingerprint]. destruct Asw as (_ & _ & _ & Fs & _). exact Fs.
          * cbn [expiresAt].
            destruct (Htimely k s (get_In _ _ _ Gk)) as (_ & _ & _ & Hexp).
            pose proof (clock_monotone (ticks w) (S (ticks (afterSweep env w)))).
            unfold now in *. simpl in *. lia.
        + exists s, t. repeat split; [|apply Later; exact Tk|exact He].
          apply anchored_set_other; [exact Asw|exact Nk|].
          cbn [fingerprint]. rewrite F.
          unfold carries_other in Hsp. rewrite Ek in Hsp.
          apply String.eqb_neq in Nk. rewrite Nk in Hsp.
          rewrite andb_true_r, andb_false_r, orb_false_r in Hsp.
          apply negb_true_iff, String.eqb_neq in Hsp. exact Hsp. }
    destruct (isRelease req) eqn:Er.
    { (* a release *)
      destruct (release_sessions req (afterSweep env w))
        as [Es|(key & s0 & Ek & G & F & Es)]; rewrite Es.
      - exists s, t. repeat split; [exact Asw|apply Later; exact Tk|exact He].
      - exists s, t. repeat split; [|apply Later; exact Tk|exact He].
        apply anchored_delete; [exact Asw|].
        intros ->. rewrite Gsw in G. injection G as <-.
        unfold carries in Hsp. rewrite Ek, String.eqb_refl in Hsp.
        destruct Asw as (_ & _ & _ & Fs & _). rewrite Fs in F.
        rewrite <- F, String.eqb_refl in Hsp. discriminate Hsp. }
    exists s, t. repeat split; [exact Asw|apply Later; exact Tk|exact He].
  - (* the vision endpoint *)
    destruct (vision_handler_sessions req w) as (_ & _ & [Es|(key & s0 & G & Hexp & Es)]);
      rewrite Es; exists s, t; (repeat split; [|apply Later; exact Tk|exact He]).
    + exact A.
    + apply anchored_delete; [exact A|]. intros ->.
      rewrite Gk in G. injection G as <-. lia.
Qed.

(** The same over a run of calls. *)
Lemma calls_keep_hold cs w fp k e :
  reachable env w ->
  (forall i, (draws w <= i)%nat -> randomHex env i <> k) ->
  holds env fp k e w ->
  forallb (spares env fp k) cs = true ->
  now env (snd (calls env cs w)) < e ->
  holds env fp k e (snd (calls env cs w)).
Proof.
  revert w. induction cs as [|c cs IH]; intros w R Hfresh H Hsp Hwin;
    cbn [calls forallb] in *; [exact H|].
  apply andb_prop in Hsp as [Hc Hcs].
  pose proof (call_keeps_hold c w fp k e R Hfresh H Hc) as H1.
  pose proof (call_reachable c w R) as R1.
  pose proof (call_ticks c w) as [_ D1].
  destruct (call env c w) as [r w1]. cbn [snd] in *.
  pose proof (calls_ticks cs w1) as [T2 _].
  specialize (IH w1 R1).
  destruct (calls env cs w1) as [rs w2]. cbn [snd] in *.
  apply IH; [|apply H1|exact Hcs|exact Hwin].
  - intros i Hi. apply Hfresh. lia.
  - pose proof (clock_monotone _ _ T2). unfold now in *. lia.
Qed.

End Hold.

(** C1, as amended.  With a clock that does not run backwards:
    - a claim whose fingerprint matches a session that stays unexpired
      through the request is answered 429 when the swept table is at
      capacity, and otherwise succeeds with the key and expiry of a stored
      session of that fingerprint (of that very session when it is the only
      one), the table changing by the sweep alone;
    - after a successful claim, the same request repeated any number of
      times with nothing in between, all before the returned expiry, is each
      time either rejected for capacity or answered with the same key and
      the same expiry, and none of these claims inserts a session;
    - after a successful claim made in a reachable state and answered with
      key [k] and expiry [e], let any requests to the session and vision
      endpoints follow, except, sent with the claimer's fingerprint, a
      release of [k] or a heartbeat on another key, and let no key drawn
      later equal [k]: a claim with the claimer's fingerprint whose clock
      readings all lie before [e] is either rejected for capacity or
      answered with [k] and an expiry of [e] or later, the table changing by
      the sweep alone. *)
Theorem claim_reuses_below_capacity env :
  monotone (clock env) ->
  (forall req w k s,
     isClaim req = true ->
     In (k, s) (sessions w) ->
     fingerprint s = SessionStore.generateFingerprint env req ->
     clock env (ticks w + List.length (sessions w)) < expiresAt s ->
     sessions (snd (SessionApi.handler env req w)) = sweptSessions env w
     /\ ((MAX_SESSIONS <= JsMap.size (sweptSessions env w))%nat ->
         status (fst (SessionApi.handler env req w)) = 429)
     /\ ((JsMap.size (sweptSessions env w) < MAX_SESSIONS)%nat ->
         exists k' s',
           In (k', s') (sessions w)
           /\ In (k', s') (sessions (snd (SessionApi.handler env req w)))
           /\ fingerprint s' = fingerprint s
           /\ fst (SessionApi.handler env req w)
              = json 200 (ClaimBody k' (expiresAt s') None "Existing session reused")
           /\ ((forall k2 s2, In (k2, s2) (sessions w) ->
                              fingerprint s2 = fingerprint s -> k2 = k) -> k' = k)))
  /\ (forall req w k e hb msg n,
        isClaim req = true ->
        fst (SessionApi.handler env req w) = json 200 (ClaimBody k e hb msg) ->
        now env (snd (serve env (repeat req n) (snd (SessionApi.handler env req w)))) < e ->
        Forall (fun r => status r = 429
                         \/ r = json 200 (ClaimBody k e None "Existing session reused"))
               (fst (serve env (repeat req n) (snd (SessionApi.handler env req w))))
        /\ (forall x,
              In x (sessions (snd (serve env (repeat req n)
                                     (snd (SessionApi.handler env req w))))) ->
              In x (sessions (snd (SessionApi.handler env req w))))
        /\ (List.length (sessions (snd (serve env (repeat req n)
                                          (snd (SessionApi.handler env req w)))))
            <= List.length (sessions (snd (SessionApi.handler env req w))))%nat)
  /\ (forall req w k e hb msg cs req',
        reachable env w ->
        isClaim req = true ->
        fst (SessionApi.handler env req w) = json 200 (ClaimBody k e hb msg) ->
        (forall i, (draws (snd (SessionApi.handler env req w)) <= i)%nat ->
                   randomHex env i <> k) ->
        forallb (spares env (SessionStore.generateFingerprint env req) k) cs = true ->
        isClaim req' = true ->
        SessionStore.generateFingerprint env req'
        = SessionStore.generateFingerprint env req ->
        now env (snd (SessionApi.handler env req'
                        (snd (calls env cs (snd (SessionApi.handler env req w))))))
        < e ->
        (status (fst (SessionApi.handler env req'
                        (snd (calls env cs (snd (SessionApi.handler env req w))))))
         = 429
         \/ exists e',
              e <= e'
              /\ fst (SessionApi.handler env req'
                        (snd (calls env cs (snd (SessionApi.handler env req w)))))
                 = json 200 (ClaimBody k e' None "Existing session reused"))
        /\ sessions (snd (SessionApi.handler env req'
                            (snd (calls env cs (snd (SessionApi.handler env req w))))))
           = sweptSessions env
               (snd (calls env cs (snd (SessionApi.handler env req w))))).
Proof.
  intros Hmono. split; [|split].
  - intros req w k s. now apply claim_finds_live.
  - intros req w k e hb msg n Hc Hfst Hwin.
    rewrite (handler_claim env req w Hc) in *.
    destruct (claim_anchors env Hmono req _ k e hb msg Hfst) as (s & <- & A).
    apply (claims_repeat env Hmono req k s _ n _ Hc A); [lia|exact Hwin].
  - intros req w k e hb msg cs req' R Hc Hfst Hfresh Hsp Hc' Hfp Hwin.
    pose proof (reach_session env req w R) as R1.
    set (w1 := snd (SessionApi.handler env req w)) in *.
    assert (H1 : holds env (SessionStore.generateFingerprint env req) k e w1).
    { unfold w1. rewrite (handler_claim env req w Hc) in *.
      destruct (claim_anchors env Hmono req _ k e hb msg Hfst) as (s & <- & A).
      exists s, (now env (snd (SessionApi.claim env req (afterSweep env w)))).
      split; [exact A|]. split; lia. }
    set (w2 := snd (calls env cs w1)) in *.
    pose proof (session_handler_ticks env req' w2) as [T2 _].
    assert (M2 : now env w2 <= now env (snd (SessionApi.handler env req' w2)))
      by (apply Hmono; exact T2).
    destruct (calls_keep_hold env Hmono cs w1 _ k e R1 Hfresh H1 Hsp)
      as (s & t & A & Ht & He); [fold w2; lia|].
    fold w2 in A, Ht. rewrite <- Hfp in A.
    destruct (claim_again env Hmono req' w2 k s t Hc' A Ht) as (Hr & Hs & _);
      [lia|].
    split; [|exact Hs].
    destruct Hr as [Hr|Hr]; [now left|right]. exists (expiresAt s). now split.
Qed.

Lemma claim_reuses_below_capacity_witness :
  let env := Scenario.frozen in
  let req := Scenario.client 0 in
  let w1 := snd (SessionApi.handler env req initial) in
  let visit := Scenario.claimFrom "10.0.0.1" "agent" in
  let v1 := snd (SessionApi.handler Scenario.ticking visit initial) in
  let v2 :=
    snd (calls Scenario.ticking
           [ToVision (Scenario.visionFrom "10.0.0.1" "agent" "key-0");
            ToSession (Scenario.heartbeatFrom "10.0.0.1" "agent" "key-0");
            ToSession (Scenario.claimFrom "10.0.0.2" "agent")]
           v1) in
  sessions (snd (SessionApi.handler env req w1)) = sweptSessions env w1
  /\ Forall (fun r => status r = 429
                      \/ r = json 200 (ClaimBody "key-0" 300000 None
                                         "Existing session reused"))
            (fst (serve env (repeat req 2) w1))
  /\ (status (fst (SessionApi.handler Scenario.ticking visit v2)) = 429
      \/ exists e',
           300001 <= e'
           /\ fst (SessionApi.handler Scenario.ticking visit v2)
              = json 200 (ClaimBody "key-0" e' None "Existing session reused"))
  /\ sessions (snd (SessionApi.handler Scenario.ticking visit v2))
     = sweptSessions Scenario.ticking v2.
Proof.
  cbv zeta. split; [|split].
  - apply (proj1 (claim_reuses_below_capacity Scenario.frozen frozen_monotone)
             (Scenario.client 0)
             (snd (SessionApi.handler Scenario.frozen (Scenario.client 0) initial))
             "key-0" (mkSession "10.0.0.0agent" 0 300000 0 true)).
    + reflexivity.
    + simpl. left. reflexivity.
    + reflexivity.
    + reflexivity.
  - apply (proj1 (proj2 (claim_reuses_below_capacity Scenario.frozen frozen_monotone))
             (Scenario.client 0) initial "key-0" 300000 (Some 60000)
             "Session created successfully" 2%nat).
    + reflexivity.
    + reflexivity.
    + reflexivity.
  - apply (proj2 (proj2 (claim_reuses_below_capacity Scenario.ticking ticking_monotone))
             (Scenario.claimFrom "10.0.0.1" "agent") initial "key-0" 300001
             (Some 60000) "Session created successfully"
             [ToVision (Scenario.visionFrom "10.0.0.1" "agent" "key-0");
              ToSession (Scenario.heartbeatFrom "10.0.0.1" "agent" "key-0");
              ToSession (Scenario.claimFrom "10.0.0.2" "agent")]
             (Scenario.claimFrom "10.0.0.1" "agent")).
    + constructor.
    + reflexivity.
    + reflexivity.
    + intros [|i] Hi; [simpl in Hi; lia|simpl; discriminate].
    + reflexivity.
    + reflexivity.
    + reflexivity.
    + vm_compute. reflexivity.
Defined.

(** C1, as stated, fails.  A hundred clients hold one session each, so the
    table is at [MAX_SESSIONS].  The first of them, whose session is live,
    claims again and is answered 429 instead of being handed its key. *)
Lemma reclaim_at_capacity_is_rejected :
  let env := Scenario.frozen in
  let w := snd (serve env Scenario.hundred initial) in
  reachable env w
  /\ JsMap.get "key-0" (sessions w) = Some (mkSession "10.0.0.0agent" 0 300000 0 true)
  /\ SessionStore.generateFingerprint env (Scenario.client 0) = "10.0.0.0agent"
  /\ now env w < 300000
  /\ SessionApi.handler env (Scenario.client 0) w
     = (json 429 (ErrorBody "Session limit reached"
                    (Some "Too many active sessions. Try again later.")),
        afterSweep env w).
Proof.
  split; [apply serve_reachable; constructor|].
  vm_compute. repeat split; reflexivity.
Qed.

(** ** The vision endpoint, end to end *)

Section VisionFacts.
Variable env : Env.

Lemma validateSessionKey_valid_world req w :
  fst (Vision.validateSessionKey env req w) = SessionStore.Valid ->
  snd (Vision.validateSessionKey env req w)
  = mkWorld (sessions w) (rateLimitMap w) (S (ticks w)) (draws w) (trace w).
Proof.
  unfold Vision.validateSessionKey.
  destruct (negb (Js.truthy (x_session_key req))); [discriminate|].
  rewrite validateSession_unfold.
  destruct (JsMap.get _ (sessions w)) as [s|]; [|discriminate].
  destruct (now env w >? expiresAt s); [discriminate|].
  destruct (fingerprint s =? _)%string; [reflexivity|discriminate].
Qed.

Lemma checkRateLimit_world identifier w :
  exists rl,
    snd (Vision.checkRateLimit env identifier w)
    = mkWorld (sessions w) rl (S (ticks w)) (draws w)
              (CheckRateLimit identifier :: trace w).
Proof.
  rewrite checkRateLimit_unfold. cbv zeta.
  match goal with |- context [if ?b then _ else _] => destruct b end;
    eexists; reflexivity.
Qed.

(** The image of a request is a string only when its body is an object. *)
Lemma image_string_body req img :
  Js.own "image" (body req) = Js.Str img ->
  exists props, body req = Js.Obj props.
Proof.
  destruct (body req) as [| |b|n|s|items|props]; try discriminate.
  intros _. now exists props.
Qed.

(** The handler past both gates, with a string as image in the body. *)
Lemma vision_handler_admitted req w img :
  method req = "POST" ->
  fst (Vision.validateSessionKey env req w) = SessionStore.Valid ->
  fst (Vision.checkRateLimit env (clientId req)
         (snd (Vision.validateSessionKey env req w))) = true ->
  Js.own "image" (body req) = Js.Str img -> img <> "" ->
  exists rl,
    Vision.handler env req w
    = match groq_create env
              (mkGroqParams
                 (Js.or_value (Js.own "model" (body req))
                              (Js.Str "llama-3.2-90b-vision-preview"))
                 (Js.or_value (Js.own "prompt" (body req))
                              (Js.Str Vision.DEFAULT_PROMPT))
                 (if Js.startsWith img "data:" then img
                  else ("data:image/png;base64," ++ img)%string))
      with
      | inl completion =>
          (json 200 (VisionOk (Js.or_lit (c_content completion) "No analysis generated")
                              (c_model completion) (c_usage completion)
                              (clock env (S (S (ticks w))))),
           mkWorld (sessions w) rl (S (S (S (ticks w)))) (draws w)
             (GroqCreate
                (mkGroqParams
                   (Js.or_value (Js.own "model" (body req))
                                (Js.Str "llama-3.2-90b-vision-preview"))
                   (Js.or_value (Js.own "prompt" (body req))
                                (Js.Str Vision.DEFAULT_PROMPT))
                   (if Js.startsWith img "data:" then img
                    else ("data:image/png;base64," ++ img)%string))
              :: CheckRateLimit (clientId req) :: trace w))
      | inr error =>
          (json 500
             (if match e_status error with Some s => s =? 401 | None => false end
              then ErrorBody "Invalid Groq API key" None
              else ErrorBody "Vision analysis failed" (Some (e_message error))),
           mkWorld (sessions w) rl (S (S (ticks w))) (draws w)
             (GroqCreate
                (mkGroqParams
                   (Js.or_value (Js.own "model" (body req))
                                (Js.Str "llama-3.2-90b-vision-preview"))
                   (Js.or_value (Js.own "prompt" (body req))
                                (Js.Str Vision.DEFAULT_PROMPT))
                   (if Js.startsWith img "data:" then img
                    else ("data:image/png;base64," ++ img)%string))
              :: CheckRateLimit (clientId req) :: trace w))
      end.
Proof.
  intros Hm Hv Hrl Hi Hne.
  unfold Vision.handler. rewrite Hm. cbn [String.eqb Ascii.eqb Bool.eqb negb].
  unfold bind at 1. fold (clientId req).
  pose proof (validateSessionKey_valid_world req w Hv) as Ew.
  destruct (Vision.validateSessionKey env req w) as [v w1].
  cbn [fst snd] in *. subst v w1.
  unfold bind at 1.
  destruct (checkRateLimit_world (clientId req)
              (mkWorld (sessions w) (rateLimitMap w) (S (ticks w)) (draws w) (trace w)))
    as (rl & Ec).
  destruct (Vision.checkRateLimit env (clientId req) _) as [allowed w2].
  cbn [fst snd] in *. subst allowed w2. cbn [negb].
  exists rl.
  destruct (image_string_body req img Hi) as (props & Eb).
  rewrite Eb in *. rewrite Hi. cbn [Js.truthy_value].
  apply String.eqb_neq in Hne. rewrite Hne. cbn [negb].
  unfold bind, emit, Date_now, ret. cbn [fst snd sessions rateLimitMap ticks draws trace].
  destruct (groq_create env _) as [completion|error]; [reflexivity|].
  destruct (match e_status error with Some s => s =? 401 | None => false end);
    reflexivity.
Qed.

End VisionFacts.

(** X10.  A POST whose session validates, which the rate limiter admits and
    whose body carries a non-empty string as image is forwarded to the model
    exactly once, after the rate limiter: the model of the body if truthy or
    else llama-3.2-90b-vision-preview, the prompt of the body if truthy or
    else the default prompt, and the image as it is when it starts with
    "data:" and behind a base64 PNG prefix otherwise.  A completion is
    answered 200 with its content (or "No analysis generated") and the
    handler's third clock reading as timestamp; a failure of the model is
    answered 500, a 401 of the model included. *)
Theorem vision_forwards_to_model env req w img :
  method req = "POST" ->
  fst (Vision.validateSessionKey env req w) = SessionStore.Valid ->
  fst (Vision.checkRateLimit env (clientId req)
         (snd (Vision.validateSessionKey env req w))) = true ->
  Js.own "image" (body req) = Js.Str img -> img <> "" ->
  trace (snd (Vision.handler env req w))
  = GroqCreate
      (mkGroqParams
         (Js.or_value (Js.own "model" (body req))
                      (Js.Str "llama-3.2-90b-vision-preview"))
         (Js.or_value (Js.own "prompt" (body req)) (Js.Str Vision.DEFAULT_PROMPT))
         (if Js.startsWith img "data:" then img
          else ("data:image/png;base64," ++ img)%string))
    :: CheckRateLimit (clientId req) :: trace w
  /\ match groq_create env
             (mkGroqParams
                (Js.or_value (Js.own "model" (body req))
                             (Js.Str "llama-3.2-90b-vision-preview"))
                (Js.or_value (Js.own "prompt" (body req))
                             (Js.Str Vision.DEFAULT_PROMPT))
                (if Js.startsWith img "data:" then img
                 else ("data:image/png;base64," ++ img)%string))
     with
     | inl completion =>
         fst (Vision.handler env req w)
         = json 200 (VisionOk (Js.or_lit (c_content completion) "No analysis generated")
                              (c_model completion) (c_usage completion)
                              (clock env (ticks w + 2)))
     | inr error =>
         fst (Vision.handler env req w)
         = json 500
             (if match e_status error with Some s => s =? 401 | None => false end
              then ErrorBody "Invalid Groq API key" None
              else ErrorBody "Vision analysis failed" (Some (e_message error)))
     end.
Proof.
  intros Hm Hv Hrl Hi Hne.
  destruct (vision_handler_admitted env req w img Hm Hv Hrl Hi Hne) as (rl & E).
  rewrite E. replace (ticks w + 2)%nat with (S (S (ticks w))) by lia.
  destruct (groq_create env _) as [completion|error]; split; reflexivity.
Qed.

Lemma vision_forwards_to_model_witness :
  let env := mkEnv (fun i => Z.of_nat i) (fun _ => "k") (fun s => s)
                   (fun p => inl (mkCompletion None "llama" 7)) in
  let w := mkWorld [("k", mkSession "ab" 0 10 0 true)] [] 0 0 [] in
  let req := mkRequest "POST" (Some "/api/neuro-os/vision") (Some "a") None (Some "b")
                       (Some "k")
                       (Js.Obj [("prompt", Js.Num 7); ("image", Js.Str "aGk=")]) in
  trace (snd (Vision.handler env req w))
  = [GroqCreate (mkGroqParams (Js.Str "llama-3.2-90b-vision-preview") (Js.Num 7)
                              "data:image/png;base64,aGk=");
     CheckRateLimit "a"].
Proof.
  cbv zeta.
  apply (proj1 (vision_forwards_to_model
                  (mkEnv (fun i => Z.of_nat i) (fun _ => "k") (fun s => s)
                         (fun p => inl (mkCompletion None "llama" 7)))
                  (mkRequest "POST" (Some "/api/neuro-os/vision") (Some "a") None
                             (Some "b") (Some "k")
                             (Js.Obj [("prompt", Js.Num 7); ("image", Js.Str "aGk=")]))
                  (mkWorld [("k", mkSession "ab" 0 10 0 true)] [] 0 0 [])
                  "aGk="
                  eq_refl eq_refl eq_refl eq_refl
                  ltac:(discriminate))).
Defined.

(** X11.  Whatever the request, the vision handler
    - makes no observed call (OPTIONS, 405, 401), or
    - calls the rate limiter alone: it answers 429; or 400, the image of the
      body being falsy; or 500 "Vision analysis failed", the image being no
      string (the body is undefined or null, or the image is a truthy value
      without [startsWith], such as a number), or
    - calls the rate limiter and then the model, once, the image being a
      non-empty string, and answers 200 or 500.
    So the model is called at most once and never before the rate limiter,
    never for an image that is not a string, and a request without an image
    has been counted by the rate limiter when it is answered 400. *)
Theorem vision_calls_in_order env req w :
  (trace (snd (Vision.handler env req w)) = trace w
   /\ (fst (Vision.handler env req w) = mkResponse 200 NoBody
       \/ status (fst (Vision.handler env req w)) = 405
       \/ status (fst (Vision.handler env req w)) = 401))
  \/ (trace (snd (Vision.handler env req w)) = CheckRateLimit (clientId req) :: trace w
      /\ (status (fst (Vision.handler env req w)) = 429
          \/ (status (fst (Vision.handler env req w)) = 400
              /\ Js.truthy_value (Js.own "image" (body req)) = false)
          \/ ((exists details,
                 fst (Vision.handler env req w)
                 = json 500 (ErrorBody "Vision analysis failed" (Some details)))
              /\ forall img, Js.own "image" (body req) <> Js.Str img)))
  \/ (exists p img,
        trace (snd (Vision.handler env req w))
        = GroqCreate p :: CheckRateLimit (clientId req) :: trace w
        /\ Js.own "image" (body req) = Js.Str img /\ img <> ""
        /\ (status (fst (Vision.handler env req w)) = 200
            \/ status (fst (Vision.handler env req w)) = 500)).
Proof.
  destruct (Vision.handler env req w) as [r w'] eqn:E. cbn [fst snd].
  unfold Vision.handler in E.
  destruct (method req =? "OPTIONS")%string;
    [injection E as <- <-; left; split; [reflexivity|auto]|].
  destruct (negb (method req =? "POST")%string);
    [injection E as <- <-; left; split; [reflexivity|auto]|].
  unfold bind at 1 in E. fold (clientId req) in E.
  pose proof (validateSessionKey_frames_trace env req w) as Ft.
  destruct (Vision.validateSessionKey env req w) as [v w1]. cbn [snd] in Ft.
  destruct v as [|reason];
    [|injection E as <- <-; left; split; [exact Ft|auto]].
  unfold bind at 1 in E.
  pose proof (checkRateLimit_trace env (clientId req) w1) as Tc.
  destruct (Vision.checkRateLimit env (clientId req) w1) as [allowed w2].
  cbn [snd] in Tc. rewrite Ft in Tc.
  destruct allowed; cbn [negb] in E;
    [|injection E as <- <-; right; left; split; [exact Tc|auto]].
  assert (Hlim : forall P : Prop, P ->
            trace w2 = CheckRateLimit (clientId req) :: trace w /\ P)
    by (intros P HP; split; [exact Tc|exact HP]).
  destruct (body req) as [| |x|n|s|items|props];
    cbn [Js.own Js.truthy_value negb] in E |- *;
    try (injection E as <- <-; right; left; apply Hlim; right;
         first [ left; split; reflexivity
               | right; split; [eexists; reflexivity|intros ?; discriminate] ]).
  destruct (List.find (fun p => (fst p =? "image")%string) props) as [[k image]|];
    cbn [snd Js.truthy_value negb] in E |- *;
    [|injection E as <- <-; right; left; apply Hlim; right; left; split; reflexivity].
  destruct (Js.truthy_value image) eqn:Et; cbn [negb] in E;
    [|injection E as <- <-; right; left; apply Hlim; right; left; split;
      reflexivity].
  destruct image as [| |x|n|img|items|props'];
    try (injection E as <- <-; right; left; apply Hlim; right; right;
         split; [eexists; reflexivity|intros ?; discriminate]).
  right. right. eexists. exists img.
  assert (Hne : img <> "") by (cbn in Et; intros ->; discriminate).
  unfold bind, emit, Date_now, ret in E.
  destruct (groq_create env _) as [completion|error].
  - injection E as <- <-. cbn [trace status]. rewrite Tc. repeat split; auto.
  - destruct (match e_status error with Some s => s =? 401 | None => false end);
      injection E as <- <-; cbn [trace status]; rewrite Tc; repeat split; auto.
Qed.

(** X12.  The rate limiter works per identifier: a call for one identifier
    leaves the window of every other identifier and the session table as
    they were, and its verdict depends on nothing but that identifier's own
    window and the clock reading. *)
Theorem rate_limit_per_identifier env identifier w :
  (forall other, other <> identifier ->
     JsMap.get other (rateLimitMap (snd (Vision.checkRateLimit env identifier w)))
     = JsMap.get other (rateLimitMap w))
  /\ sessions (snd (Vision.checkRateLimit env identifier w)) = sessions w
  /\ (forall w2,
        JsMap.get identifier (rateLimitMap w2) = JsMap.get identifier (rateLimitMap w) ->
        now env w2 = now env w ->
        fst (Vision.checkRateLimit env identifier w2)
        = fst (Vision.checkRateLimit env identifier w)
        /\ JsMap.get identifier
             (rateLimitMap (snd (Vision.checkRateLimit env identifier w2)))
           = JsMap.get identifier
               (rateLimitMap (snd (Vision.checkRateLimit env identifier w)))).
Proof.
  split; [|split].
  - intros other Hne. rewrite checkRateLimit_unfold. cbv zeta.
    match goal with |- context [if ?b then _ else _] => destruct b end;
      cbn [snd rateLimitMap]; [reflexivity|now apply get_set_other].
  - apply checkRateLimit_frames_sessions.
  - intros w2 Hg Hn. rewrite !checkRateLimit_unfold. cbv zeta. rewrite Hg, Hn.
    match goal with |- context [if ?b then _ else _] => destruct b end;
      cbn [fst snd rateLimitMap]; split; try reflexivity; try exact Hg.
    now rewrite !set_get_same.
Qed.

(** ** The two endpoints and each other's state *)

Section Separation.
Variable env : Env.

Lemma validateSession_shrinks k req (ss0 : JsMap.t Session) :
  preserves (fun w => forall e, In e (sessions w) -> In e ss0)
            (SessionStore.validateSession env k req).
Proof.
  intros w H. rewrite validateSession_unfold.
  destruct (JsMap.get k (sessions w)) as [s|]; [|exact H].
  destruct (now env w >? expiresAt s);
    [|destruct (fingerprint s =? _)%string; exact H].
  cbn [snd sessions]. intros e I. apply H. eapply delete_In. exact I.
Qed.

Lemma vision_handler_shrinks req (ss0 : JsMap.t Session) :
  preserves (fun w => forall e, In e (sessions w) -> In e ss0)
            (Vision.handler env req).
Proof.
  unfold Vision.handler, Vision.validateSessionKey.
  repeat first
    [ apply preserves_ret
    | apply validateSession_shrinks
    | apply (frames_preserves sessions (fun ss => forall e, In e ss -> In e ss0));
      first [apply checkRateLimit_frames_sessions | intros ?; reflexivity]
    | apply preserves_bind; [|intros ?]
    | match goal with
      | |- preserves _ (if ?b then _ else _) => destruct b
      | |- preserves _ (match ?x with _ => _ end) => destruct x
      end ].
Qed.

End Separation.

(** X13.  The vision endpoint never adds or alters a session: every entry of
    the table after a request was an entry before it.  The session endpoint
    never touches the rate-limit table and makes no observed call. *)
Theorem endpoints_keep_to_their_state env req w :
  (forall e, In e (sessions (snd (Vision.handler env req w))) -> In e (sessions w))
  /\ rateLimitMap (snd (SessionApi.handler env req w)) = rateLimitMap w
  /\ trace (snd (SessionApi.handler env req w)) = trace w.
Proof.
  split; [|split].
  - apply (vision_handler_shrinks env req (sessions w) w). auto.
  - apply session_handler_frames_rateLimitMap.
  - apply session_handler_frames_trace.
Qed.

(** ** The shuffle *)

Section ShuffleFacts.
Import Schedule.
Variable env : Schedule.Env.

(** Overwriting the element right after a prefix. *)
Lemma overwrite_after (a : list json) u v c :
  firstn (List.length a) (a ++ u :: c) ++ v :: skipn (S (List.length a)) (a ++ u :: c)
  = a ++ v :: c.
Proof. induction a as [|x a IH]; [reflexivity|]. simpl. f_equal. exact IH. Qed.

Lemma swap_apart (a b c : list json) x y :
  swap (List.length a) (List.length (a ++ x :: b)) (a ++ x :: b ++ y :: c)
  = a ++ y :: b ++ x :: c
  /\ swap (List.length (a ++ x :: b)) (List.length a) (a ++ x :: b ++ y :: c)
     = a ++ y :: b ++ x :: c.
Proof.
  assert (Ni : nth_error (a ++ x :: b ++ y :: c) (List.length a) = Some x).
  { rewrite nth_error_app2 by lia. now rewrite Nat.sub_diag. }
  assert (Nj : nth_error (a ++ x :: b ++ y :: c) (List.length (a ++ x :: b)) = Some y).
  { replace (a ++ x :: b ++ y :: c) with ((a ++ x :: b) ++ y :: c)
      by (rewrite <- app_assoc; reflexivity).
    rewrite nth_error_app2 by lia. now rewrite Nat.sub_diag. }
  unfold swap. rewrite Ni, Nj. split.
  - rewrite overwrite_after.
    replace (a ++ y :: b ++ y :: c) with ((a ++ y :: b) ++ y :: c)
      by (rewrite <- app_assoc; reflexivity).
    replace (List.length (a ++ x :: b)) with (List.length (a ++ y :: b))
      by (rewrite !length_app; reflexivity).
    rewrite overwrite_after. rewrite <- app_assoc. reflexivity.
  - replace (a ++ x :: b ++ y :: c) with ((a ++ x :: b) ++ y :: c)
      by (rewrite <- app_assoc; reflexivity).
    rewrite overwrite_after. rewrite <- app_assoc. cbn [app].
    now rewrite overwrite_after.
Qed.

Lemma swap_same i (arr : list json) : swap i i arr = arr.
Proof.
  unfold swap. destruct (nth_error arr i) as [x|] eqn:N; [|reflexivity].
  apply nth_error_split in N as (a & c & -> & <-).
  now rewrite !overwrite_after.
Qed.

Lemma swap_Permutation i j (arr : list json) : Permutation arr (swap i j arr).
Proof.
  destruct (nth_error arr i) as [x|] eqn:Ni;
    [|unfold swap; rewrite Ni; reflexivity].
  destruct (nth_error arr j) as [y|] eqn:Nj;
    [|unfold swap; rewrite Ni, Nj; reflexivity].
  destruct (Nat.lt_trichotomy i j) as [Hlt|[->|Hgt]].
  - apply nth_error_split in Ni as (a & rest & -> & <-).
    rewrite nth_error_app2 in Nj by lia.
    destruct (j - List.length a)%nat as [|d] eqn:Ed; [lia|]. cbn [nth_error] in Nj.
    apply nth_error_split in Nj as (b & c & -> & Hb).
    replace j with (List.length (a ++ x :: b))
      by (rewrite length_app; simpl; lia).
    rewrite (proj1 (swap_apart a b c x y)).
    apply Permutation_app_head.
    change (Permutation ([x] ++ b ++ [y] ++ c) ([y] ++ b ++ [x] ++ c)).
    rewrite !app_assoc. apply Permutation_app_tail.
    rewrite (Permutation_app_comm ([x] ++ b) [y]).
    rewrite <- app_assoc. rewrite (Permutation_app_comm [x] b). reflexivity.
  - rewrite swap_same. reflexivity.
  - apply nth_error_split in Nj as (a & rest & -> & <-).
    rewrite nth_error_app2 in Ni by lia.
    destruct (i - List.length a)%nat as [|d] eqn:Ed; [lia|]. cbn [nth_error] in Ni.
    apply nth_error_split in Ni as (b & c & -> & Hb).
    replace i with (List.length (a ++ y :: b))
      by (rewrite length_app; simpl; lia).
    rewrite (proj2 (swap_apart a b c y x)).
    apply Permutation_app_head.
    change (Permutation ([y] ++ b ++ [x] ++ c) ([x] ++ b ++ [y] ++ c)).
    rewrite !app_assoc. apply Permutation_app_tail.
    rewrite (Permutation_app_comm ([y] ++ b) [x]).
    rewrite <- app_assoc. rewrite (Permutation_app_comm [y] b). reflexivity.
Qed.

Lemma shuffle_from_run i (arr : list json) w :
  exists arr',
    shuffle_from env i arr w
    = (Returned arr', Schedule.mkWorld (disk w) (Schedule.ticks w) (rolls w + i))
    /\ Permutation arr arr'.
Proof.
  revert arr w. induction i as [|i IH]; intros arr w.
  - exists arr. split; [|reflexivity]. simpl. unfold Schedule.ret.
    destruct w; simpl. now rewrite Nat.add_0_r.
  - cbn [shuffle_from]. unfold Schedule.bind, random_below.
    destruct (IH (swap (S i) (dice env (rolls w) mod S (S i)) arr)
                 (Schedule.mkWorld (disk w) (Schedule.ticks w) (S (rolls w))))
      as (arr' & E & P).
    exists arr'. split.
    + rewrite E. cbn [disk Schedule.ticks rolls]. now rewrite Nat.add_succ_r.
    + etransitivity; [apply swap_Permutation|exact P].
Qed.

End ShuffleFacts.

(** X14.  [shuffle] returns a permutation of its argument, whatever the
    random draws; it makes one draw per element but the first and touches
    neither the disk nor the clock. *)
Theorem shuffle_is_permutation env arr w :
  exists arr',
    Schedule.shuffle env arr w
    = (Schedule.Returned arr',
       Schedule.mkWorld (Schedule.disk w) (Schedule.ticks w)
                        (Schedule.rolls w + (List.length arr - 1)))
    /\ Permutation arr arr'.
Proof. unfold Schedule.shuffle. apply shuffle_from_run. Qed.

(** ** The current schedule handler on a schedule that loads *)

Section ScheduleRuns.
Import Schedule.
Variable env : Schedule.Env.
Implicit Types (w : Schedule.World) (req : Schedule.Request).

Lemma lookup_assign_same k v fields : lookup k (assign k v fields) = Some v.
Proof.
  induction fields as [|[k' v'] r IH]; simpl.
  - now rewrite String.eqb_refl.
  - destruct (String.eqb_spec k' k) as [->|Hne]; simpl.
    + now rewrite String.eqb_refl.
    + destruct (String.eqb_spec k' k); [contradiction|exact IH].
Qed.

Lemma lookup_assign_other k k' v fields :
  k' <> k -> lookup k' (assign k v fields) = lookup k' fields.
Proof.
  intros Hne. induction fields as [|[k1 v1] r IH]; simpl.
  - destruct (String.eqb_spec k k'); [congruence|reflexivity].
  - destruct (String.eqb_spec k1 k) as [->|Hk]; simpl.
    + destruct (String.eqb_spec k k'); [congruence|reflexivity].
    + destruct (String.eqb_spec k1 k'); [reflexivity|exact IH].
Qed.

Lemma bind_run {A B} (m : IO A) (k : A -> IO B) w a w' :
  m w = (Returned a, w') -> Schedule.bind m k w = k a w'.
Proof. intros E. unfold Schedule.bind. now rewrite E. Qed.

Lemma bind_thrown {A B} (m : IO A) (k : A -> IO B) w e w' :
  m w = (Thrown e, w') -> Schedule.bind m k w = (Thrown e, w').
Proof. intros E. unfold Schedule.bind. now rewrite E. Qed.

(** [loadSchedule] on an object with an array and a usable refresh time:
    returned as it is, nothing read from the clock, nothing written. *)
Lemma loadSchedule_object w fields items n :
  file (disk w) = Some (Text (JObj fields)) ->
  readable (disk w) = true ->
  lookup "schedule" fields = Some (JArr items) ->
  lookup "nextRefresh" fields = Some (JNum n) ->
  n <> 0 ->
  loadSchedule env w = (Returned (Some (JObj fields)), w).
Proof.
  destruct w as [[d f r wr] t k]. cbn [disk file readable].
  intros -> -> Hs Hn Hz.
  unfold loadSchedule, Schedule.bind, try_catch, existsSync_file, readFileSync,
    JSON_parse, Schedule.ret.
  cbn [disk file readable negb isArray js_truthy prop andb].
  rewrite Hs. cbn [isArray]. rewrite Hn.
  apply Z.eqb_neq in Hz. now rewrite Hz.
Qed.

Lemma saveSchedule_run w schedule nextRefresh :
  dir (disk w) = true -> writable (disk w) = true ->
  saveSchedule schedule nextRefresh w
  = (Returned tt,
     Schedule.mkWorld
       (mkDisk true
          (Some (Text (JObj [("schedule", schedule); ("nextRefresh", JNum nextRefresh)])))
          (readable (disk w)) true)
       (Schedule.ticks w) (rolls w)).
Proof.
  intros Hd Hw. unfold saveSchedule, Schedule.bind.
  rewrite (ensureDir_present w Hd). unfold writeFileSync.
  now rewrite Hd, Hw.
Qed.

Lemma saveSchedule_fails w schedule nextRefresh :
  dir (disk w) = true -> writable (disk w) = false ->
  exists e, saveSchedule schedule nextRefresh w = (Thrown e, w).
Proof.
  intros Hd Hw. unfold saveSchedule, Schedule.bind.
  rewrite (ensureDir_present w Hd). unfold writeFileSync.
  rewrite Hd, Hw. eexists. reflexivity.
Qed.

(** The handler once a schedule is loaded and not yet due for rotation. *)
Lemma handler_loaded_fresh req w data n w1 :
  dir (disk w) = true ->
  loadSchedule env w = (Returned (Some data), w1) ->
  prop data "nextRefresh" = Some (JNum n) ->
  Schedule.clock env (Schedule.ticks w1) < n ->
  Schedule.handler env req w
  = (if (Schedule.method req =? "GET")%string then
       Schedule.ret (Schedule.mkResponse 200 (Json data))
     else if (Schedule.method req =? "POST")%string then
       if negb (isArray (Schedule.body req)) then
         Schedule.ret (Schedule.mkResponse 400 (errorBody "Schedule must be an array"))
       else
         Schedule.bind (pickRandomInterval env) (fun gap =>
         Schedule.bind
           (saveSchedule (Schedule.body req)
              (Schedule.clock env (Schedule.ticks w1) + gap)) (fun _ =>
         Schedule.ret
           (Schedule.mkResponse 200
              (Json (JObj [("success", JBool true);
                           ("schedule", Schedule.body req)])))))
     else
       Schedule.ret
         (Schedule.mkResponse 405
            (End ["GET"; "POST"]
               ("Method " ++ Schedule.method req ++ " Not Allowed")%string)))
      (Schedule.mkWorld (disk w1) (S (Schedule.ticks w1)) (rolls w1)).
Proof.
  intros Hd Hl Hp Hc. unfold Schedule.handler.
  unfold Schedule.bind at 1. rewrite (ensureDir_present w Hd).
  unfold Schedule.bind at 1. rewrite Hl.
  unfold Schedule.bind at 1. unfold Date_now at 1.
  rewrite Hp.
  destruct (Z.geb_spec (Schedule.clock env (Schedule.ticks w1)) n) as [Hge|_]; [lia|].
  unfold Schedule.bind at 1. unfold Schedule.ret at 1. reflexivity.
Qed.

(** The handler once a schedule is loaded and due for rotation, on a disk
    that can be written. *)
Lemma handler_loaded_due req w data n items w1 :
  dir (disk w) = true ->
  loadSchedule env w = (Returned (Some data), w1) ->
  prop data "nextRefresh" = Some (JNum n) ->
  prop data "schedule" = Some (JArr items) ->
  n <= Schedule.clock env (Schedule.ticks w1) ->
  dir (disk w1) = true -> writable (disk w1) = true ->
  Schedule.method req = "GET" ->
  exists rotated gap,
    Permutation (List.map spread items) rotated
    /\ In gap intervals
    /\ Schedule.handler env req w
       = (Returned
            (Schedule.mkResponse 200
               (Json (JObj [("schedule", JArr rotated);
                            ("nextRefresh",
                             JNum (Schedule.clock env (Schedule.ticks w1) + gap))]))),
          Schedule.mkWorld
            (mkDisk true
               (Some (Text (JObj [("schedule", JArr rotated);
                                  ("nextRefresh",
                                   JNum (Schedule.clock env (Schedule.ticks w1) + gap))])))
               (readable (disk w1)) true)
            (S (Schedule.ticks w1))
            (S (rolls w1 + (List.length (List.map spread items) - 1)))).
Proof.
  intros Hd Hl Hn Hs Hdue Hd1 Hw1 Hm.
  destruct (shuffle_from_run env (List.length (List.map spread items) - 1)
              (List.map spread items)
              (Schedule.mkWorld (disk w1) (S (Schedule.ticks w1)) (rolls w1)))
    as (rotated & Esh & P).
  destruct (pickRandomInterval_run env
              (Schedule.mkWorld (disk w1) (S (Schedule.ticks w1))
                 (rolls w1 + (List.length (List.map spread items) - 1))))
    as (gap & Hgap & Epick).
  exists rotated, gap. split; [exact P|]. split; [exact Hgap|].
  unfold Schedule.handler.
  rewrite (bind_run _ _ _ _ _ (ensureDir_present w Hd)).
  rewrite (bind_run _ _ _ _ _ Hl).
  rewrite (bind_run (Date_now env) _ w1 (Schedule.clock env (Schedule.ticks w1))
             (Schedule.mkWorld (disk w1) (S (Schedule.ticks w1)) (rolls w1)) eq_refl).
  rewrite Hn, Hs.
  destruct (Z.geb_spec (Schedule.clock env (Schedule.ticks w1)) n) as [_|Hlt]; [|lia].
  erewrite bind_run.
  2:{ unfold shuffle. rewrite (bind_run _ _ _ _ _ Esh).
      cbn [disk Schedule.ticks rolls] in Epick.
      rewrite (bind_run _ _ _ _ _ Epick).
      erewrite bind_run by (apply saveSchedule_run; assumption).
      reflexivity. }
  rewrite Hm. reflexivity.
Qed.

End ScheduleRuns.



(** The spread of a string has one key per UTF-16 code unit: one for a
    character of the basic plane, whatever the length of its UTF-8 form, two
    for a character beyond it. *)
Example spread_code_units :
  Schedule.spread (Schedule.JStr "né")
  = Schedule.JObj [("0", Schedule.JStr "n"); ("1", Schedule.JStr "é")]
  /\ List.length (Js.chars "😀") = 2%nat
  /\ String.concat "" (Js.chars "a€b") = "a€b".
Proof. repeat split; reflexivity. Qed.

Lemma map_spread_objects (items : list Schedule.json) :
  Forall (fun v => exists fields, v = Schedule.JObj fields) items ->
  List.map Schedule.spread items = items.
Proof.
  induction 1 as [|v r (fields & ->) _ IH]; simpl; [reflexivity|]. now rewrite IH.
Qed.

(** X16.  A GET that finds the stored schedule due ([now >= nextRefresh]) on
    a disk that reads and writes answers 200 with a rotated schedule and a
    refresh time one of the three intervals after its clock reading, and
    leaves exactly that in the file.  The rotated schedule is a permutation
    of the stored entries after each went through an object spread: entries
    that are objects come back as they were, anything else comes back as the
    object of its own enumerable properties. *)
Theorem get_rotates_due_schedule env w fields items n b :
  Schedule.file (Schedule.disk w) = Some (Schedule.Text (Schedule.JObj fields)) ->
  Schedule.lookup "schedule" fields = Some (Schedule.JArr items) ->
  Schedule.lookup "nextRefresh" fields = Some (Schedule.JNum n) ->
  n <> 0 ->
  Schedule.readable (Schedule.disk w) = true ->
  Schedule.dir (Schedule.disk w) = true ->
  Schedule.writable (Schedule.disk w) = true ->
  n <= Schedule.clock env (Schedule.ticks w) ->
  exists rotated gap,
    Permutation (List.map Schedule.spread items) rotated
    /\ (Forall (fun v => exists fs, v = Schedule.JObj fs) items ->
        Permutation items rotated)
    /\ In gap Schedule.intervals
    /\ fst (Schedule.handler env (Schedule.mkRequest "GET" b) w)
       = Schedule.Returned
           (Schedule.mkResponse 200
              (Schedule.Json
                 (Schedule.JObj
                    [("schedule", Schedule.JArr rotated);
                     ("nextRefresh",
                      Schedule.JNum (Schedule.clock env (Schedule.ticks w) + gap))])))
    /\ Schedule.file
         (Schedule.disk (snd (Schedule.handler env (Schedule.mkRequest "GET" b) w)))
       = Some (Schedule.Text
                 (Schedule.JObj
                    [("schedule", Schedule.JArr rotated);
                     ("nextRefresh",
                      Schedule.JNum (Schedule.clock env (Schedule.ticks w) + gap))])).
Proof.
  intros Hf Hs Hn Hz Hr Hd Hw Hdue.
  pose proof (loadSchedule_object env w fields items n Hf Hr Hs Hn Hz) as El.
  destruct (handler_loaded_due env (Schedule.mkRequest "GET" b) w
              (Schedule.JObj fields) n items w Hd El Hn Hs Hdue Hd Hw eq_refl)
    as (rotated & gap & P & Hgap & E).
  exists rotated, gap. rewrite E. cbn [fst snd Schedule.disk Schedule.file].
  split; [exact P|]. split; [|split; [exact Hgap|split; reflexivity]].
  intros Hobj. now rewrite (map_spread_objects items Hobj) in P.
Qed.

Lemma get_rotates_due_schedule_witness :
  let env := Schedule.mkEnv (fun _ => 9000) (fun _ => 0%nat) in
  let items := [Schedule.JObj [("videoIndex", Schedule.JNum 0)];
                Schedule.JObj [("videoIndex", Schedule.JNum 1)]] in
  let w := Schedule.mkWorld
             (Schedule.mkDisk true
                (Some (Schedule.Text
                         (Schedule.JObj [("schedule", Schedule.JArr items);
                                         ("nextRefresh", Schedule.JNum 5000)])))
                true true) 0 0 in
  exists rotated gap,
    Permutation items rotated
    /\ fst (Schedule.handler env (Schedule.mkRequest "GET" Schedule.JNull) w)
       = Schedule.Returned
           (Schedule.mkResponse 200
              (Schedule.Json
                 (Schedule.JObj [("schedule", Schedule.JArr rotated);
                                 ("nextRefresh", Schedule.JNum (9000 + gap))]))).
Proof.
  cbv zeta.
  destruct (get_rotates_due_schedule
              (Schedule.mkEnv (fun _ => 9000) (fun _ => 0%nat))
              (Schedule.mkWorld
                 (Schedule.mkDisk true
                    (Some (Schedule.Text
                             (Schedule.JObj
                                [("schedule",
                                  Schedule.JArr
                                    [Schedule.JObj [("videoIndex", Schedule.JNum 0)];
                                     Schedule.JObj [("videoIndex", Schedule.JNum 1)]]);
                                 ("nextRefresh", Schedule.JNum 5000)])))
                    true true) 0 0)
              [("schedule",
                Schedule.JArr [Schedule.JObj [("videoIndex", Schedule.JNum 0)];
                               Schedule.JObj [("videoIndex", Schedule.JNum 1)]]);
               ("nextRefresh", Schedule.JNum 5000)]
              [Schedule.JObj [("videoIndex", Schedule.JNum 0)];
               Schedule.JObj [("videoIndex", Schedule.JNum 1)]]
              5000 Schedule.JNull
              eq_refl eq_refl eq_refl ltac:(discriminate) eq_refl eq_refl eq_refl
              ltac:(simpl; lia))
    as (rotated & gap & _ & Hobj & _ & Hget & _).
  exists rotated, gap. split; [|exact Hget].
  apply Hobj. repeat constructor; eexists; reflexivity.
Defined.

Ltac io_run :=
  unfold Schedule.loadSchedule, Schedule.bind, Schedule.try_catch,
    Schedule.existsSync_file, Schedule.readFileSync, Schedule.JSON_parse,
    Schedule.ret, Schedule.throw, Schedule.Date_now, Schedule.pickRandomInterval,
    Schedule.random_below, Schedule.writeFileSync;
  cbn.

(** X17.  [loadSchedule] never throws.  When it yields no schedule it has
    written nothing; when it yields one, that value is an object whose
    [schedule] is an array and whose [nextRefresh] is a number, and it is
    what the file holds from then on. *)
Theorem loadSchedule_total env w :
  exists o w',
    Schedule.loadSchedule env w = (Schedule.Returned o, w')
    /\ match o with
       | None => Schedule.disk w' = Schedule.disk w
       | Some j =>
           Schedule.file (Schedule.disk w') = Some (Schedule.Text j)
           /\ exists items n,
                Schedule.prop j "schedule" = Some (Schedule.JArr items)
                /\ Schedule.prop j "nextRefresh" = Some (Schedule.JNum n)
       end.
Proof.
  destruct w as [[d f r wr] t k].
  destruct f as [[|j]|].
  - destruct r; io_run; eexists _, _; split; reflexivity.
  - destruct r; [|io_run; eexists _, _; split; reflexivity].
    destruct j as [|bb|n|s|items|fields].
    + io_run. eexists _, _; split; reflexivity.
    + destruct bb; io_run; eexists _, _; split; reflexivity.
    + io_run. destruct (n =? 0); cbn; eexists _, _; split; reflexivity.
    + io_run. destruct (s =? "")%string; cbn; eexists _, _; split; reflexivity.
    + destruct d, wr; io_run; eexists _, _; (split; [reflexivity|]); cbn;
        try reflexivity.
      split; [reflexivity|]. eexists _, _. split; reflexivity.
    + io_run.
      destruct (Schedule.lookup "schedule" fields) as [sch|] eqn:Hs;
        [|eexists _, _; split; reflexivity].
      destruct sch as [| | | |items|]; cbn;
        try (eexists _, _; split; reflexivity).
      assert (Hassigned :
                forall v,
                  Schedule.lookup "schedule"
                    (Schedule.assign "nextRefresh" (Schedule.JNum v) fields)
                  = Some (Schedule.JArr items)
                  /\ Schedule.lookup "nextRefresh"
                       (Schedule.assign "nextRefresh" (Schedule.JNum v) fields)
                     = Some (Schedule.JNum v)).
      { intros v. rewrite lookup_assign_same,
          (lookup_assign_other "nextRefresh" "schedule") by discriminate.
        split; [exact Hs|reflexivity]. }
      destruct (Schedule.lookup "nextRefresh" fields) as [nr|] eqn:Hn.
      * destruct nr as [| |n| | |]; try destruct (n =? 0) eqn:Ez;
          try (destruct d, wr; cbn; eexists _, _; (split; [reflexivity|]); cbn;
               try reflexivity;
               (split; [reflexivity|]); eexists _, _; apply Hassigned).
        eexists _, _. split; [reflexivity|]. cbn.
        split; [reflexivity|]. eexists _, _. split; [exact Hs|exact Hn].
      * destruct d, wr; cbn; eexists _, _; (split; [reflexivity|]); cbn;
          try reflexivity;
          (split; [reflexivity|]); eexists _, _; apply Hassigned.
  - io_run. eexists _, _; split; reflexivity.
Qed.

(** ** The earlier schedule handler *)

(** X18.  The earlier handler on a disk that reads and writes: a POST with
    an array is answered 200 with the array and stores it as it is, and the
    GET that follows is answered 200 with the same array, reading only. *)
Theorem legacy_post_then_get w items b :
  Schedule.dir (Schedule.disk w) = true ->
  Schedule.writable (Schedule.disk w) = true ->
  Schedule.readable (Schedule.disk w) = true ->
  fst (Schedule.Legacy.handler (Schedule.mkRequest "POST" (Schedule.JArr items)) w)
  = Schedule.Returned
      (Schedule.mkResponse 200
         (Schedule.Json (Schedule.JObj [("success", Schedule.JBool true);
                                        ("schedule", Schedule.JArr items)])))
  /\ Schedule.file
       (Schedule.disk
          (snd (Schedule.Legacy.handler
                  (Schedule.mkRequest "POST" (Schedule.JArr items)) w)))
     = Some (Schedule.Text (Schedule.JArr items))
  /\ Schedule.Legacy.handler (Schedule.mkRequest "GET" b)
       (snd (Schedule.Legacy.handler
               (Schedule.mkRequest "POST" (Schedule.JArr items)) w))
     = (Schedule.Returned
          (Schedule.mkResponse 200 (Schedule.Json (Schedule.JArr items))),
        snd (Schedule.Legacy.handler
               (Schedule.mkRequest "POST" (Schedule.JArr items)) w)).
Proof.
  destruct w as [[d f r wr] t k]. cbn [Schedule.disk Schedule.dir Schedule.writable
                                       Schedule.readable].
  intros -> -> ->. repeat split.
Qed.

Lemma legacy_post_then_get_witness :
  let w := Schedule.mkWorld (Schedule.mkDisk true None true true) 0 0 in
  let items := [Schedule.JObj [("videoIndex", Schedule.JNum 0);
                               ("delay", Schedule.JNum 1000)]] in
  fst (Schedule.Legacy.handler (Schedule.mkRequest "GET" Schedule.JNull)
         (snd (Schedule.Legacy.handler
                 (Schedule.mkRequest "POST" (Schedule.JArr items)) w)))
  = Schedule.Returned (Schedule.mkResponse 200 (Schedule.Json (Schedule.JArr items))).
Proof.
  cbv zeta.
  rewrite (proj2 (proj2 (legacy_post_then_get
                           (Schedule.mkWorld (Schedule.mkDisk true None true true) 0 0)
                           [Schedule.JObj [("videoIndex", Schedule.JNum 0);
                                           ("delay", Schedule.JNum 1000)]]
                           Schedule.JNull eq_refl eq_refl eq_refl))).
  reflexivity.
Defined.

(** X19.  A GET to the earlier handler is always answered 200 and changes
    nothing: with the parsed content of the file when the file exists, can
    be read and parses, and with the two-entry default schedule in every
    other case (no file, unreadable file, text that is not JSON). *)
Theorem legacy_get_falls_back req w :
  Schedule.method req = "GET" ->
  exists j,
    Schedule.Legacy.handler req w
    = (Schedule.Returned (Schedule.mkResponse 200 (Schedule.Json j)), w)
    /\ ((Schedule.file (Schedule.disk w) = Some (Schedule.Text j)
         /\ Schedule.readable (Schedule.disk w) = true)
        \/ (j = Schedule.Legacy.DEFAULT_SCHEDULE
            /\ (Schedule.file (Schedule.disk w) = None
                \/ Schedule.file (Schedule.disk w) = Some Schedule.Unparsable
                \/ Schedule.readable (Schedule.disk w) = false))).
Proof.
  intros Hm. unfold Schedule.Legacy.handler. rewrite Hm.
  cbn [String.eqb Ascii.eqb Bool.eqb].
  destruct w as [[d f r wr] t k].
  destruct f as [[|j]|]; destruct r;
    (eexists; split; [reflexivity|]); cbn; auto.
Qed.

Lemma legacy_get_falls_back_witness :
  exists j,
    Schedule.Legacy.handler (Schedule.mkRequest "GET" Schedule.JNull)
      (Schedule.mkWorld (Schedule.mkDisk true (Some Schedule.Unparsable) true true) 0 0)
    = (Schedule.Returned (Schedule.mkResponse 200 (Schedule.Json j)),
       Schedule.mkWorld (Schedule.mkDisk true (Some Schedule.Unparsable) true true) 0 0).
Proof.
  destruct (legacy_get_falls_back
              (Schedule.mkRequest "GET" Schedule.JNull)
              (Schedule.mkWorld
                 (Schedule.mkDisk true (Some Schedule.Unparsable) true true) 0 0)
              eq_refl) as (j & E & _).
  exists j. exact E.
Defined.

(** X20.  A POST with an array to a disk that cannot be written.  The
    earlier handler catches the failure and answers 500 "Failed to write
    schedule".  The current handler has no such guard: with a loadable
    schedule not yet due, the failure of the write leaves the handler as an
    exception and no response is produced; in both versions the file stays
    as it was. *)
Theorem write_failure_by_version env w fields old n items :
  Schedule.file (Schedule.disk w) = Some (Schedule.Text (Schedule.JObj fields)) ->
  Schedule.lookup "schedule" fields = Some (Schedule.JArr old) ->
  Schedule.lookup "nextRefresh" fields = Some (Schedule.JNum n) ->
  n <> 0 ->
  Schedule.readable (Schedule.disk w) = true ->
  Schedule.dir (Schedule.disk w) = true ->
  Schedule.writable (Schedule.disk w) = false ->
  Schedule.clock env (Schedule.ticks w) < n ->
  Schedule.Legacy.handler (Schedule.mkRequest "POST" (Schedule.JArr items)) w
  = (Schedule.Returned
       (Schedule.mkResponse 500 (Schedule.errorBody "Failed to write schedule")), w)
  /\ exists e w',
       Schedule.handler env (Schedule.mkRequest "POST" (Schedule.JArr items)) w
       = (Schedule.Thrown e, w')
       /\ Schedule.disk w' = Schedule.disk w.
Proof.
  intros Hf Hs Hn Hz Hr Hd Hw Hfresh. split.
  - unfold Schedule.Legacy.handler, Schedule.try_catch, Schedule.bind,
      Schedule.writeFileSync.
    cbn [Schedule.method Schedule.body String.eqb Ascii.eqb Bool.eqb
         Schedule.isArray negb].
    now rewrite Hd, Hw.
  - pose proof (loadSchedule_object env w fields old n Hf Hr Hs Hn Hz) as El.
    rewrite (handler_loaded_fresh env _ w (Schedule.JObj fields) n w Hd El Hn Hfresh).
    cbn [Schedule.method Schedule.body String.eqb Ascii.eqb Bool.eqb
         Schedule.isArray negb].
    destruct (pickRandomInterval_run env
                (Schedule.mkWorld (Schedule.disk w) (S (Schedule.ticks w))
                   (Schedule.rolls w))) as (gap & _ & Epick).
    rewrite (bind_run _ _ _ _ _ Epick).
    destruct (saveSchedule_fails
                (Schedule.mkWorld (Schedule.disk w) (S (Schedule.ticks w))
                   (S (Schedule.rolls w)))
                (Schedule.JArr items)
                (Schedule.clock env (Schedule.ticks w) + gap) Hd Hw) as (e & Es).
    rewrite (bind_thrown _ _ _ _ _ Es).
    exists e. eexists. split; reflexivity.
Qed.

Lemma write_failure_by_version_witness :
  let w := Schedule.mkWorld
             (Schedule.mkDisk true
                (Some (Schedule.Text
                         (Schedule.JObj [("schedule", Schedule.JArr []);
                                         ("nextRefresh", Schedule.JNum 5000)])))
                true false) 0 0 in
  Schedule.Legacy.handler (Schedule.mkRequest "POST" (Schedule.JArr [])) w
  = (Schedule.Returned
       (Schedule.mkResponse 500 (Schedule.errorBody "Failed to write schedule")), w).
Proof.
  cbv zeta.
  apply (proj1 (write_failure_by_version
                  (Schedule.mkEnv (fun _ => 1000) (fun _ => 0%nat))
                  (Schedule.mkWorld
                     (Schedule.mkDisk true
                        (Some (Schedule.Text
                                 (Schedule.JObj [("schedule", Schedule.JArr []);
                                                 ("nextRefresh", Schedule.JNum 5000)])))
                        true false) 0 0)
                  [("schedule", Schedule.JArr []); ("nextRefresh", Schedule.JNum 5000)]
                  [] 5000 []
                  eq_refl eq_refl eq_refl ltac:(discriminate) eq_refl eq_refl eq_refl
                  eq_refl)).
Defined.

(** X21.  The current handler on a readable schedule file that is not yet
    due reads only: a GET is answered 200 with the object the file holds, a
    POST whose body is not an array is answered 400, any other method is
    answered 405 with [Allow: GET, POST]; in all three cases the disk is left
    as it was and the handler has read the clock once. *)
Theorem fresh_schedule_is_only_read env req w fields items n :
  Schedule.file (Schedule.disk w) = Some (Schedule.Text (Schedule.JObj fields)) ->
  Schedule.lookup "schedule" fields = Some (Schedule.JArr items) ->
  Schedule.lookup "nextRefresh" fields = Some (Schedule.JNum n) ->
  n <> 0 ->
  Schedule.readable (Schedule.disk w) = true ->
  Schedule.dir (Schedule.disk w) = true ->
  Schedule.clock env (Schedule.ticks w) < n ->
  (Schedule.method req = "POST" -> Schedule.isArray (Schedule.body req) = false) ->
  Schedule.handler env req w
  = (Schedule.Returned
       (if (Schedule.method req =? "GET")%string then
          Schedule.mkResponse 200 (Schedule.Json (Schedule.JObj fields))
        else if (Schedule.method req =? "POST")%string then
          Schedule.mkResponse 400 (Schedule.errorBody "Schedule must be an array")
        else
          Schedule.mkResponse 405
            (Schedule.End ["GET"; "POST"]
               ("Method " ++ Schedule.method req ++ " Not Allowed")%string)),
     Schedule.mkWorld (Schedule.disk w) (S (Schedule.ticks w)) (Schedule.rolls w)).
Proof.
  intros Hf Hs Hn Hz Hr Hd Hfresh Hbody.
  pose proof (loadSchedule_object env w fields items n Hf Hr Hs Hn Hz) as El.
  rewrite (handler_loaded_fresh env req w (Schedule.JObj fields) n w Hd El Hn Hfresh).
  destruct (Schedule.method req =? "GET")%string; [reflexivity|].
  destruct (String.eqb_spec (Schedule.method req) "POST") as [Hp|_]; [|reflexivity].
  now rewrite (Hbody Hp).
Qed.

Lemma fresh_schedule_is_only_read_witness :
  let w := Schedule.mkWorld
             (Schedule.mkDisk true
                (Some (Schedule.Text
                         (Schedule.JObj [("schedule", Schedule.JArr []);
                                         ("nextRefresh", Schedule.JNum 5000)])))
                true false) 0 0 in
  Schedule.handler (Schedule.mkEnv (fun _ => 1000) (fun _ => 0%nat))
    (Schedule.mkRequest "DELETE" Schedule.JNull) w
  = (Schedule.Returned
       (Schedule.mkResponse 405
          (Schedule.End ["GET"; "POST"] "Method DELETE Not Allowed")),
     Schedule.mkWorld (Schedule.disk w) 1 0).
Proof.
  cbv zeta.
  apply (fresh_schedule_is_only_read
           (Schedule.mkEnv (fun _ => 1000) (fun _ => 0%nat))
           (Schedule.mkRequest "DELETE" Schedule.JNull)
           (Schedule.mkWorld
              (Schedule.mkDisk true
                 (Some (Schedule.Text
                          (Schedule.JObj [("schedule", Schedule.JArr []);
                                          ("nextRefresh", Schedule.JNum 5000)])))
                 true false) 0 0)
           [("schedule", Schedule.JArr []); ("nextRefresh", Schedule.JNum 5000)]
           [] 5000 eq_refl eq_refl eq_refl ltac:(discriminate) eq_refl eq_refl eq_refl).
  discriminate.
Defined.

(** ** Claim, release and the vision gate together *)

(** X22.  Whenever a claim is answered 200, the key it hands out is in the
    table, bound to the fingerprint of the claiming request and with the
    expiry the answer states; and as long as the clock has not passed that
    expiry, [validateSession] accepts the key from any request with the same
    fingerprint. *)
Theorem claimed_key_validates env req w k e hb msg :
  isClaim req = true ->
  JsMap.wf (sessions w) ->
  fst (SessionApi.handler env req w) = json 200 (ClaimBody k e hb msg) ->
  (exists s,
     JsMap.get k (sessions (snd (SessionApi.handler env req w))) = Some s
     /\ fingerprint s = SessionStore.generateFingerprint env req
     /\ expiresAt s = e)
  /\ (now env (snd (SessionApi.handler env req w)) <= e ->
      forall req2,
        SessionStore.generateFingerprint env req2
        = SessionStore.generateFingerprint env req ->
        fst (SessionStore.validateSession env k req2
               (snd (SessionApi.handler env req w)))
        = SessionStore.Valid).
Proof.
  intros Hc Hwf. rewrite (handler_claim env req w Hc).
  assert (Hwf' : JsMap.wf (sessions (afterSweep env w)))
    by (simpl; now apply cleanup_loop_wf).
  intros Hr.
  assert (Hs : exists s,
             JsMap.get k (sessions (snd (SessionApi.claim env req (afterSweep env w))))
             = Some s
             /\ fingerprint s = SessionStore.generateFingerprint env req
             /\ expiresAt s = e).
  { revert Hr. rewrite claim_unfold.
    destruct (MAX_SESSIONS <=? List.length (sessions (afterSweep env w)))%nat;
      [discriminate|].
    cbv zeta.
    pose proof (findExisting_Some env (SessionStore.generateFingerprint env req)
                  (sessions (afterSweep env w)) (afterSweep env w)) as HS.
    destruct (findExisting_frame env (SessionStore.generateFingerprint env req)
                (sessions (afterSweep env w)) (afterSweep env w)) as (m & _ & E).
    destruct (SessionApi.findExisting env _ (sessions (afterSweep env w))
                (afterSweep env w)) as [[[k1 s1]|] w1];
      cbn [fst snd] in *; subst w1; unfold json; intros H; injection H as Hk He _ _.
    - destruct (HS k1 s1 eq_refl) as (I & F & _). subst k1.
      exists s1. cbn [sessions]. repeat split; [|exact F|exact He].
      now apply wf_get_In.
    - subst k. eexists. cbn [sessions]. split; [apply set_get_same|].
      split; [reflexivity|exact He]. }
  split; [exact Hs|].
  destruct Hs as (s & G & F & E). intros Hlive req2 Hfp.
  rewrite validateSession_unfold, G.
  destruct (Z.gtb_spec (now env (snd (SessionApi.claim env req (afterSweep env w))))
              (expiresAt s)) as [Hgt|_]; [lia|].
  rewrite Hfp, F, String.eqb_refl. reflexivity.
Qed.

Lemma claimed_key_validates_witness :
  fst (SessionStore.validateSession Scenario.frozen "key-0" (Scenario.claimFrom "a" "bc")
         (snd (SessionApi.handler Scenario.frozen (Scenario.claimFrom "ab" "c") initial)))
  = SessionStore.Valid.
Proof.
  apply (proj2 (claimed_key_validates Scenario.frozen (Scenario.claimFrom "ab" "c")
                  initial "key-0" 300000 (Some 60000) "Session created successfully"
                  eq_refl ltac:(constructor) eq_refl));
    reflexivity || (simpl; lia).
Defined.

Lemma vision_handler_unknown_key env vreq w k :
  method vreq = "POST" -> x_session_key vreq = Some k ->
  (k =? "")%string = false ->
  JsMap.get k (sessions w) = None ->
  Vision.handler env vreq w
  = (json 401 (ErrorBody "Unauthorized" (Some "Session not found or expired")), w).
Proof.
  intros Hm Hvk Ek G.
  unfold Vision.handler. rewrite Hm. cbn [String.eqb Ascii.eqb Bool.eqb negb].
  unfold bind at 1. unfold Vision.validateSessionKey. rewrite Hvk.
  cbn [Js.truthy Js.or_lit]. rewrite Ek. cbn [negb].
  rewrite validateSession_unfold, G. reflexivity.
Qed.

(** X23.  Whenever a release is answered 200, the released key is gone from
    the table, and a POST to the vision endpoint that presents it right
    after is answered 401 without any call of the rate limiter or of the
    model. *)
Theorem released_key_is_refused env req w k msg :
  isRelease req = true ->
  JsMap.wf (sessions w) ->
  x_session_key req = Some k ->
  fst (SessionApi.handler env req w) = json 200 (ReleaseBody msg) ->
  JsMap.get k (sessions (snd (SessionApi.handler env req w))) = None
  /\ forall vreq,
       method vreq = "POST" -> x_session_key vreq = Some k ->
       status (fst (Vision.handler env vreq (snd (SessionApi.handler env req w)))) = 401
       /\ trace (snd (Vision.handler env vreq (snd (SessionApi.handler env req w))))
          = trace w.
Proof.
  intros Hr Hwf Hk. rewrite (handler_release env req w Hr).
  assert (Hwf' : JsMap.wf (sessions (afterSweep env w)))
    by (simpl; now apply cleanup_loop_wf).
  unfold SessionApi.release, bind, getSessions. rewrite Hk.
  cbn [Js.truthy Js.or_lit].
  destruct (k =? "")%string eqn:Ek; cbn [negb]; [discriminate|].
  destruct (JsMap.get k (sessions (afterSweep env w))) as [s|]; [|discriminate].
  destruct (fingerprint s =? _)%string; [|discriminate].
  intros _. cbn [fst snd putSessions ret sessions].
  pose proof (get_delete_same (sessions (afterSweep env w)) k Hwf') as Gone.
  split; [exact Gone|].
  intros vreq Hm Hvk.
  match goal with |- context [Vision.handler env vreq ?w1] =>
    rewrite (vision_handler_unknown_key env vreq w1 k Hm Hvk Ek Gone) end.
  split; reflexivity.
Qed.

Lemma released_key_is_refused_witness :
  let env := Scenario.env_at (fun _ => 5) in
  let w := mkWorld [("key-0", mkSession "ab" 0 10 0 true)] [] 0 0 [] in
  JsMap.get "key-0"
    (sessions (snd (SessionApi.handler env (Scenario.releaseFrom "a" "b" "key-0") w)))
  = None.
Proof.
  cbv zeta.
  apply (proj1 (released_key_is_refused
                  (Scenario.env_at (fun _ => 5))
                  (Scenario.releaseFrom "a" "b" "key-0")
                  (mkWorld [("key-0", mkSession "ab" 0 10 0 true)] [] 0 0 [])
                  "key-0" "Session released" eq_refl
                  ltac:(repeat constructor; simpl; tauto) eq_refl eq_refl)).
Defined.

(** ** The setup script *)

Section SetupFacts.
Variable env : Setup.Env.

Lemma includes_In x l : Setup.includes x l = true <-> In x l.
Proof.
  unfold Setup.includes. rewrite existsb_exists. split.
  - intros (y & I & E). apply String.eqb_eq in E. now subst.
  - intros I. exists x. split; [exact I|apply String.eqb_refl].
Qed.

Lemma includes_not_In x l : ~ In x l -> Setup.includes x l = false.
Proof.
  intros N. destruct (Setup.includes x l) eqn:E; [|reflexivity].
  apply includes_In in E. contradiction.
Qed.

Lemma help_flag : wantsHelp env <-> Setup.help (Setup.flags env) = true.
Proof.
  unfold wantsHelp, Setup.flags. cbn [Setup.help].
  rewrite orb_true_iff, !includes_In. reflexivity.
Qed.

Lemma help_flag_false : ~ wantsHelp env -> Setup.help (Setup.flags env) = false.
Proof.
  intros N. destruct (Setup.help (Setup.flags env)) eqn:E; [|reflexivity].
  apply help_flag in E. contradiction.
Qed.

(** *** How the combinators run *)

Lemma bind_normal {A B} (m : Setup.Proc A) (k : A -> Setup.Proc B) a :
  fst m = Setup.Normal a ->
  Setup.bind m k = (fst (k a), snd m ++ snd (k a)).
Proof. intros E. unfold Setup.bind. now rewrite E. Qed.

Lemma bind_exited {A B} (m : Setup.Proc A) (k : A -> Setup.Proc B) c :
  fst m = Setup.Exited c -> Setup.bind m k = (Setup.Exited c, snd m).
Proof. intros E. unfold Setup.bind. now rewrite E. Qed.

Lemma bind_rejected {A B} (m : Setup.Proc A) (k : A -> Setup.Proc B) e :
  fst m = Setup.Rejected e -> Setup.bind m k = (Setup.Rejected e, snd m).
Proof. intros E. unfold Setup.bind. now rewrite E. Qed.

Lemma run_ok cmd :
  Setup.spawnStatus env cmd = Some 0 ->
  Setup.run env cmd false = (Setup.Normal (Some 0), [Setup.SpawnSync cmd]).
Proof.
  intros E. unfold Setup.run, Setup.spawnSync, Setup.bind. cbn [fst snd].
  rewrite E. reflexivity.
Qed.

Lemma run_fails cmd :
  Setup.spawnStatus env cmd <> Some 0 ->
  Setup.run env cmd false
  = (Setup.Exited (Setup.status_or_1 (Setup.spawnStatus env cmd)),
     [Setup.SpawnSync cmd]).
Proof.
  intros N. unfold Setup.run, Setup.spawnSync, Setup.bind. cbn [fst snd].
  destruct (Setup.spawnStatus env cmd) as [[|p|p]|]; try reflexivity.
  now contradiction N.
Qed.

Lemma status_cases (s : option Z) : s = Some 0 \/ s <> Some 0.
Proof. destruct s as [[|p|p]|]; [left; reflexivity|right; discriminate..]. Qed.

Lemma status_or_1_nonzero s : s <> Some 0 -> Setup.status_or_1 s <> 0.
Proof. destruct s as [[|p|p]|]; cbn; intros N; lia. Qed.

Create HintDb setup.

(** *** The stopping invariant, combinator by combinator *)

Lemma stops_no_spawn {A} (m : Setup.Proc A) :
  Setup.spawned (snd m) = [] -> stops_at_failure env m.
Proof.
  intros E pre cmd post H _. exfalso. rewrite H in E.
  unfold Setup.spawned in E. rewrite flat_map_app in E.
  apply app_eq_nil in E as [_ E]. discriminate E.
Qed.

Lemma stops_bind {A B} (m : Setup.Proc A) (k : A -> Setup.Proc B) :
  stops_at_failure env m -> (forall a, stops_at_failure env (k a)) ->
  stops_at_failure env (Setup.bind m k).
Proof.
  intros Hm Hk pre cmd post H N.
  destruct (fst m) as [a|c|e] eqn:E.
  - rewrite (bind_normal m k a E) in *. cbn [fst snd] in *.
    apply app_eq_app in H as [l [[H1 H2]|[H1 H2]]].
    + destruct l as [|x l].
      * cbn in H2. apply (Hk a [] cmd post); [now rewrite <- H2|exact N].
      * injection H2 as <- H2.
        destruct (Hm pre cmd l H1 N) as [_ F]. congruence.
    + apply (Hk a l cmd post H2 N).
  - rewrite (bind_exited m k c E) in *. cbn [fst snd] in *.
    destruct (Hm pre cmd post H N) as [P F]. split; [exact P|congruence].
  - rewrite (bind_rejected m k e E) in *. cbn [fst snd] in *.
    destruct (Hm pre cmd post H N) as [P F]. congruence.
Qed.

Lemma stops_catch {A} (m : Setup.Proc A) h :
  stops_at_failure env m -> (forall e, Setup.spawned (snd (h e)) = []) ->
  stops_at_failure env (Setup.catch m h).
Proof.
  intros Hm Hh pre cmd post H N. unfold Setup.catch in *.
  destruct (fst m) as [a|c|e] eqn:E.
  - destruct (Hm pre cmd post H N) as [P F]. congruence.
  - destruct (Hm pre cmd post H N) as [P F]. split; [exact P|congruence].
  - cbn [fst snd] in *.
    apply app_eq_app in H as [l [[H1 H2]|[H1 H2]]].
    + destruct l as [|x l].
      * exfalso. cbn in H2. specialize (Hh e). rewrite <- H2 in Hh. discriminate Hh.
      * injection H2 as <- H2.
        destruct (Hm pre cmd l H1 N) as [_ F]. congruence.
    + exfalso. specialize (Hh e). rewrite H2 in Hh.
      unfold Setup.spawned in Hh. rewrite flat_map_app in Hh.
      apply app_eq_nil in Hh as [_ Hh]. discriminate Hh.
Qed.

Lemma stops_when {b} (m : Setup.Proc unit) :
  stops_at_failure env m -> stops_at_failure env (Setup.when b m).
Proof. destruct b; [easy|]. intros _. now apply stops_no_spawn. Qed.

Lemma stops_log msg c : stops_at_failure env (Setup.log msg c).
Proof. now apply stops_no_spawn. Qed.

Lemma stops_write f c : stops_at_failure env (Setup.writeFileSync env f c).
Proof.
  apply stops_no_spawn. unfold Setup.writeFileSync.
  now destruct (Setup.writeError env f).
Qed.

Lemma stops_run cmd : stops_at_failure env (Setup.run env cmd false).
Proof.
  intros pre c post H N.
  assert (E : snd (Setup.run env cmd false) = [Setup.SpawnSync cmd]).
  { unfold Setup.run, Setup.spawnSync, Setup.bind. cbn [fst snd].
    now destruct (Setup.spawnStatus env cmd) as [[|p|p]|]. }
  rewrite E in H.
  destruct pre as [|x pre].
  - injection H as -> <-. split; [reflexivity|]. now rewrite run_fails.
  - injection H as _ H. now destruct pre.
Qed.

#[local] Hint Resolve stops_log stops_write stops_run : setup.

Ltac setup_steps bind_lemma when_lemma :=
  repeat first
    [ solve [auto with setup]
    | apply when_lemma
    | apply bind_lemma; [|intros ?; cbv beta] ].

Lemma main_stops : stops_at_failure env (Setup.main env).
Proof.
  unfold Setup.main. destruct (Setup.help (Setup.flags env)).
  - now apply stops_no_spawn.
  - setup_steps (@stops_bind) (@stops_when). 
Qed.

(** *** Exit codes *)

Lemma nonzero_bind {A B} (m : Setup.Proc A) (k : A -> Setup.Proc B) :
  exits_nonzero m -> (forall a, exits_nonzero (k a)) ->
  exits_nonzero (Setup.bind m k).
Proof.
  intros Hm Hk c. unfold Setup.bind.
  destruct (fst m) as [a|c'|e] eqn:E; cbn [fst].
  - apply Hk.
  - intros [= <-]. now apply Hm.
  - discriminate.
Qed.

Lemma nonzero_when {b} (m : Setup.Proc unit) :
  exits_nonzero m -> exits_nonzero (Setup.when b m).
Proof. destruct b; [easy|]. intros _ c. discriminate. Qed.

Lemma nonzero_log msg c : exits_nonzero (Setup.log msg c).
Proof. intros x. discriminate. Qed.

Lemma nonzero_write f c : exits_nonzero (Setup.writeFileSync env f c).
Proof.
  intros x. unfold Setup.writeFileSync.
  now destruct (Setup.writeError env f).
Qed.

Lemma nonzero_run cmd : exits_nonzero (Setup.run env cmd false).
Proof.
  intros c.
  destruct (status_cases (Setup.spawnStatus env cmd)) as [E|N].
  - now rewrite (run_ok cmd E).
  - rewrite (run_fails cmd N). intros [= <-]. now apply status_or_1_nonzero.
Qed.

#[local] Hint Resolve nonzero_log nonzero_write nonzero_run : setup.

Lemma main_exits_nonzero : exits_nonzero (Setup.main env).
Proof.
  unfold Setup.main. destruct (Setup.help (Setup.flags env)).
  - intros c. discriminate.
  - setup_steps (@nonzero_bind) (@nonzero_when).
Qed.

(** *** Writes *)

Lemma written_app t1 t2 :
  Setup.written (t1 ++ t2) = Setup.written t1 ++ Setup.written t2.
Proof. apply flat_map_app. Qed.

Lemma spawned_app t1 t2 :
  Setup.spawned (t1 ++ t2) = Setup.spawned t1 ++ Setup.spawned t2.
Proof. apply flat_map_app. Qed.

Lemma quiet_bind {A B} (m : Setup.Proc A) (k : A -> Setup.Proc B) :
  writes_nothing m -> (forall a, writes_nothing (k a)) ->
  writes_nothing (Setup.bind m k).
Proof.
  unfold writes_nothing, Setup.bind. intros Hm Hk.
  destruct (fst m) as [a|c|e]; cbn [snd]; [|exact Hm|exact Hm].
  now rewrite written_app, Hm, Hk.
Qed.

Lemma quiet_when {b} (m : Setup.Proc unit) :
  writes_nothing m -> writes_nothing (Setup.when b m).
Proof. now destruct b. Qed.

Lemma quiet_log msg c : writes_nothing (Setup.log msg c).
Proof. reflexivity. Qed.

Lemma quiet_run cmd : writes_nothing (Setup.run env cmd false).
Proof.
  unfold writes_nothing, Setup.run, Setup.spawnSync, Setup.bind. cbn [fst snd].
  now destruct (Setup.spawnStatus env cmd) as [[|p|p]|].
Qed.

#[local] Hint Resolve quiet_log quiet_run : setup.

End SetupFacts.

Section SetupRuns.
Variable env : Setup.Env.

Lemma written_catch {A} (m : Setup.Proc A) h :
  (forall e, Setup.written (snd (h e)) = []) ->
  Setup.written (snd (Setup.catch m h)) = Setup.written (snd m).
Proof.
  intros Hh. unfold Setup.catch.
  destruct (fst m) as [a|c|e]; try reflexivity.
  cbn [snd]. now rewrite written_app, Hh, app_nil_r.
Qed.

Lemma quiet_ret {A} (a : A) : writes_nothing (Setup.ret a).
Proof. reflexivity. Qed.

Lemma main_help :
  Setup.help (Setup.flags env) = true ->
  Setup.main env = (Setup.Normal tt, [Setup.ConsoleLog Setup.HELP]).
Proof. intros E. unfold Setup.main. now rewrite E. Qed.

Lemma main_quiet_without_init :
  ~ In "--init" (Setup.argv env) -> writes_nothing (Setup.main env).
Proof.
  intros Hi. unfold Setup.main.
  destruct (Setup.help (Setup.flags env)); [reflexivity|].
  unfold Setup.flags. cbn [Setup.init Setup.deploy Setup.build].
  rewrite (includes_not_In _ _ Hi). cbn [Setup.when negb andb].
  pose proof (@quiet_ret unit) as Qr.
  pose proof (quiet_log) as Ql. pose proof (quiet_run env) as Qn.
  repeat first
    [ solve [auto]
    | apply quiet_when
    | apply quiet_bind; [|intros ?; cbv beta] ].
Qed.

End SetupRuns.

(** X24.  [--help] or [-h] anywhere among the arguments wins over every
    other flag: the script prints the usage text, uncoloured, and does
    nothing else -- no banner, no command, no file. *)
Theorem help_wins env :
  wantsHelp env ->
  Setup.script env = (Setup.Normal tt, [Setup.ConsoleLog Setup.HELP]).
Proof.
  intros H. apply help_flag in H.
  unfold Setup.script. now rewrite (main_help env H).
Qed.

Lemma help_wins_witness :
  Setup.script
    (Setup.mkEnv ["--init"; "-h"; "--build"] (fun _ => false) (fun _ => None)
       "00" (fun _ => Some "EACCES"))
  = (Setup.Normal tt, [Setup.ConsoleLog Setup.HELP]).
Proof.
  apply (help_wins
           (Setup.mkEnv ["--init"; "-h"; "--build"] (fun _ => false) (fun _ => None)
              "00" (fun _ => Some "EACCES"))).
  right. simpl. auto.
Defined.

(** X25.  Called with none of [--init], [--deploy], [--build] (and no help
    flag), whatever else the arguments hold, the script prints the banner in
    blue and the hint at [--help] in yellow and ends normally: it runs no
    command and writes no file. *)
Theorem no_action_only_logs env :
  ~ wantsHelp env ->
  ~ In "--init" (Setup.argv env) ->
  ~ In "--deploy" (Setup.argv env) ->
  ~ In "--build" (Setup.argv env) ->
  Setup.script env
  = (Setup.Normal tt,
     [Setup.ConsoleLog
        (Setup.colors Setup.blue ++ "=== Nakurity Backend Setup ==="
         ++ Setup.colors Setup.reset)%string;
      Setup.ConsoleLog
        (Setup.colors Setup.yellow ++ "
No action specified. Use --help for usage."
         ++ Setup.colors Setup.reset)%string]).
Proof.
  intros Hh Hi Hd Hb. unfold Setup.script, Setup.main.
  rewrite (help_flag_false env Hh).
  unfold Setup.flags. cbn [Setup.init Setup.deploy Setup.build].
  rewrite (includes_not_In _ _ Hi), (includes_not_In _ _ Hd),
    (includes_not_In _ _ Hb).
  reflexivity.
Qed.

Lemma no_action_only_logs_witness :
  let env := Setup.mkEnv ["--verbose"] (fun _ => false) (fun _ => None)
               "00" (fun _ => None) in
  fst (Setup.script env) = Setup.Normal tt
  /\ Setup.spawned (snd (Setup.script env)) = []
  /\ Setup.written (snd (Setup.script env)) = [].
Proof.
  cbv zeta.
  rewrite (no_action_only_logs
             (Setup.mkEnv ["--verbose"] (fun _ => false) (fun _ => None)
                "00" (fun _ => None))
             ltac:(unfold wantsHelp; simpl; intuition discriminate)
             ltac:(simpl; intuition discriminate)
             ltac:(simpl; intuition discriminate)
             ltac:(simpl; intuition discriminate)).
  repeat split.
Defined.

(** X26.  A command that does not report status 0 is the last thing the
    script does, whichever command it is and whatever the arguments: nothing
    is printed, written or run after it, and the script exits with the
    command's status, or with 1 when the command reported none. *)
Theorem failed_command_stops env pre cmd post :
  snd (Setup.script env) = pre ++ Setup.SpawnSync cmd :: post ->
  Setup.spawnStatus env cmd <> Some 0 ->
  post = []
  /\ fst (Setup.script env)
     = Setup.Exited (Setup.status_or_1 (Setup.spawnStatus env cmd)).
Proof.
  revert pre cmd post. change (stops_at_failure env (Setup.script env)).
  unfold Setup.script. apply stops_catch; [apply main_stops|].
  intros e. reflexivity.
Qed.

Lemma failed_command_stops_witness :
  let env := Setup.mkEnv ["--build"; "--init"] (fun _ => true)
               (fun cmd => if (cmd =? "npm install")%string then Some 127 else Some 0)
               "00" (fun _ => None) in
  fst (Setup.script env) = Setup.Exited 127
  /\ Setup.spawned (snd (Setup.script env)) = ["npm install"]
  /\ List.map fst (Setup.written (snd (Setup.script env)))
     = [".env.example"; ".gitignore"].
Proof.
  cbv zeta. split; [|split; reflexivity].
  apply (proj2 (failed_command_stops
                  (Setup.mkEnv ["--build"; "--init"] (fun _ => true)
                     (fun cmd => if (cmd =? "npm install")%string
                                 then Some 127 else Some 0)
                     "00" (fun _ => None))
                  (removelast
                     (snd (Setup.script
                             (Setup.mkEnv ["--build"; "--init"] (fun _ => true)
                                (fun cmd => if (cmd =? "npm install")%string
                                            then Some 127 else Some 0)
                                "00" (fun _ => None)))))
                  "npm install" [] eq_refl ltac:(discriminate))).
Defined.

(** X27.  The script never ends with an unhandled rejection and never exits
    with code 0: it either runs to its end, or exits with a code that is
    not 0. *)
Theorem script_ending env :
  fst (Setup.script env) = Setup.Normal tt
  \/ exists c, fst (Setup.script env) = Setup.Exited c /\ c <> 0.
Proof.
  pose proof (main_exits_nonzero env) as Hn.
  unfold Setup.script, Setup.catch.
  destruct (fst (Setup.main env)) as [[]|c|e] eqn:E.
  - left. exact E.
  - right. exists c. split; [exact E|]. now apply Hn.
  - right. exists 1. split; [reflexivity|lia].
Qed.

(** X28.  An [--init] run whose commands succeed and whose writes go through
    writes exactly three files, in this order and whether or not they are
    already there: [.env.example] carrying the freshly drawn key,
    [.gitignore] and [README.md]; [git init] is run first if and only if
    there is no [.git], and [npm install] after it.  Whatever [--deploy] and
    [--build] do afterwards adds no file. *)
Theorem init_writes_files env :
  ~ wantsHelp env ->
  In "--init" (Setup.argv env) ->
  (Setup.existsSync env ".git" = false ->
   Setup.spawnStatus env "git init" = Some 0) ->
  Setup.spawnStatus env "npm install" = Some 0 ->
  Setup.writeError env ".env.example" = None ->
  Setup.writeError env ".gitignore" = None ->
  Setup.writeError env "README.md" = None ->
  Setup.written (snd (Setup.script env))
  = [(".env.example", Setup.envExample (Setup.randomKey env));
     (".gitignore", Setup.gitignore);
     ("README.md", Setup.readme)]
  /\ exists rest,
       Setup.spawned (snd (Setup.script env))
       = (if Setup.existsSync env ".git" then [] else ["git init"])
         ++ "npm install" :: rest.
Proof.
  intros Hh Hi Hg Hn Hw1 Hw2 Hw3.
  unfold Setup.script, Setup.main.
  rewrite (help_flag_false env Hh).
  unfold Setup.flags. cbn [Setup.init Setup.deploy Setup.build].
  rewrite (proj2 (includes_In _ _) Hi).
  unfold Setup.writeFileSync. rewrite Hw1, Hw2, Hw3.
  rewrite (run_ok env "npm install" Hn).
  destruct (Setup.existsSync env ".git");
    [|rewrite (run_ok env "git init" (Hg eq_refl))];
    destruct (Setup.includes "--deploy" (Setup.argv env));
    destruct (Setup.includes "--build" (Setup.argv env));
    destruct (Setup.existsSync env ".env");
    (destruct (status_cases (Setup.spawnStatus env "vercel --prod")) as [Ev|Nv];
     [rewrite ?(run_ok env _ Ev)|rewrite ?(run_fails env _ Nv)]);
    (destruct (status_cases (Setup.spawnStatus env "npx pkg . --out-path dist"))
       as [Ex|Nx];
     [rewrite ?(run_ok env _ Ex)|rewrite ?(run_fails env _ Nx)]);
    (split; [reflexivity|eexists; reflexivity]).
Qed.

Lemma init_writes_files_witness :
  List.map fst
    (Setup.written
       (snd (Setup.script
               (Setup.mkEnv ["--init"] (fun _ => false) (fun _ => Some 0)
                  "c0ffee" (fun _ => None)))))
  = [".env.example"; ".gitignore"; "README.md"].
Proof.
  rewrite (proj1 (init_writes_files
                    (Setup.mkEnv ["--init"] (fun _ => false) (fun _ => Some 0)
                       "c0ffee" (fun _ => None))
                    ltac:(unfold wantsHelp; simpl; intuition discriminate)
                    ltac:(simpl; auto) ltac:(reflexivity)
                    eq_refl eq_refl eq_refl eq_refl)).
  reflexivity.
Defined.

(** X29.  When the first write of an [--init] run throws, the error is
    caught: its message is printed in red as the last line, the script
    exits with code 1, no file has been written and [npm install] is never
    run. *)
Theorem write_failure_is_caught env message :
  ~ wantsHelp env ->
  In "--init" (Setup.argv env) ->
  (Setup.existsSync env ".git" = false ->
   Setup.spawnStatus env "git init" = Some 0) ->
  Setup.writeError env ".env.example" = Some message ->
  fst (Setup.script env) = Setup.Exited 1
  /\ exists t,
       snd (Setup.script env)
       = t ++ [Setup.ConsoleLog
                 (Setup.colors Setup.red ++ ("
✗ Error: " ++ message) ++ Setup.colors Setup.reset)%string]
       /\ Setup.written t = []
       /\ Setup.spawned t
          = if Setup.existsSync env ".git" then [] else ["git init"].
Proof.
  intros Hh Hi Hg Hw.
  unfold Setup.script, Setup.main.
  rewrite (help_flag_false env Hh).
  unfold Setup.flags. cbn [Setup.init Setup.deploy Setup.build].
  rewrite (proj2 (includes_In _ _) Hi).
  unfold Setup.writeFileSync. rewrite Hw.
  destruct (Setup.existsSync env ".git");
    [|rewrite (run_ok env "git init" (Hg eq_refl))];
    (split; [reflexivity|]);
    match goal with
    | |- exists t, ?tr = _ /\ _ => exists (removelast tr)
    end;
    (split; [reflexivity|split; reflexivity]).
Qed.

Lemma write_failure_is_caught_witness :
  fst (Setup.script
         (Setup.mkEnv ["--init"; "--deploy"] (fun _ => true) (fun _ => Some 0)
            "c0ffee" (fun _ => Some "EROFS: read-only file system")))
  = Setup.Exited 1.
Proof.
  apply (proj1 (write_failure_is_caught
                  (Setup.mkEnv ["--init"; "--deploy"] (fun _ => true)
                     (fun _ => Some 0) "c0ffee"
                     (fun _ => Some "EROFS: read-only file system"))
                  "EROFS: read-only file system"
                  ltac:(unfold wantsHelp; simpl; intuition discriminate)
                  ltac:(simpl; auto) ltac:(discriminate) eq_refl)).
Defined.

(** X30.  Only [--init] writes files: a run without it, whatever it deploys
    or builds and however its commands end, writes none. *)
Theorem only_init_writes env :
  ~ In "--init" (Setup.argv env) ->
  Setup.written (snd (Setup.script env)) = [].
Proof.
  intros Hi. unfold Setup.script.
  rewrite written_catch by reflexivity.
  now apply main_quiet_without_init.
Qed.

Lemma only_init_writes_witness :
  Setup.written
    (snd (Setup.script
            (Setup.mkEnv ["--deploy"; "--build"] (fun _ => false)
               (fun _ => Some 0) "c0ffee" (fun _ => None))))
  = [].
Proof.
  apply (only_init_writes
           (Setup.mkEnv ["--deploy"; "--build"] (fun _ => false)
              (fun _ => Some 0) "c0ffee" (fun _ => None))).
  simpl. intuition discriminate.
Defined.
